(** * gili-cli: the RFM aggregation pipeline and the marketing scorer

    A shallow embedding of [src/utils/helpers.py], [src/processors/rfm.py],
    [src/processors/scoring.py] and [src/core/exceptions.py], followed by the
    properties of the specification that were checked against it.

    Conventions of the embedding.
    - A Python [str] is a [string]: the bytes of its UTF-8 encoding.  Case
      mapping covers ASCII and the Latin-1 supplement (the two-byte sequences
      that start with byte 195); other code points are left as they are.
      Whitespace is the ASCII whitespace of [str.isspace].
    - A Python [float] that holds a finite number is a rational ([Q]); NaN is
      a separate constructor.  Comparisons and the rounding done by the
      [.2f] format are exact on the value of the float; the rounding of
      floating-point additions and of [float(text)] is not modelled.
    - Quantities of order lines are integers ([Z]).
    - A pandas DataFrame is the list of its rows, each row a record. *)

From Stdlib Require Import ZArith QArith Qround Qabs List String Ascii Bool Lia.
From Stdlib Require Import Decimal DecimalString DecimalN OrdersEx Sorted.
Import ListNotations.
Open Scope string_scope.
Open Scope Z_scope.

(** ** Python strings *)

Definition code (c : ascii) : N := N_of_ascii c.

(** [str.isspace] on one ASCII character. *)
Definition is_space (c : ascii) : bool :=
  let n := code c in
  ((9 <=? n) && (n <=? 13) || (28 <=? n) && (n <=? 32))%N.

Definition is_digit (c : ascii) : bool :=
  let n := code c in ((48 <=? n) && (n <=? 57))%N.

Fixpoint lstrip (s : string) : string :=
  match s with
  | String c rest => if is_space c then lstrip rest else s
  | EmptyString => EmptyString
  end.

Fixpoint rstrip (s : string) : string :=
  match s with
  | String c rest =>
      match rstrip rest with
      | EmptyString => if is_space c then EmptyString else String c EmptyString
      | r => String c r
      end
  | EmptyString => EmptyString
  end.

(** [s.strip()] *)
Definition strip (s : string) : string := rstrip (lstrip s).

(** [s.replace(a, b)] where [a] is one character. *)
Fixpoint replace (a : ascii) (b : string) (s : string) : string :=
  match s with
  | String c rest =>
      if Ascii.eqb c a then b ++ replace a b rest else String c (replace a b rest)
  | EmptyString => EmptyString
  end.

Fixpoint zeros (n : nat) : string :=
  match n with
  | O => EmptyString
  | S k => String "0" (zeros k)
  end.

(** [s.zfill(width)]: zeros go after a leading sign, and a string that is
    already wide enough comes back as it is. *)
Definition zfill (width : nat) (s : string) : string :=
  let n := String.length s in
  if (width <=? n)%nat then s
  else
    match s with
    | String c rest =>
        if Ascii.eqb c "+" || Ascii.eqb c "-"
        then String c (zeros (width - n) ++ rest)
        else zeros (width - n) ++ s
    | EmptyString => zeros width
    end.

Fixpoint all_digits (s : string) : bool :=
  match s with
  | String c rest => is_digit c && all_digits rest
  | EmptyString => true
  end.

(** [s.isdigit()]: false on the empty string. *)
Definition isdigit (s : string) : bool :=
  match s with
  | EmptyString => false
  | _ => all_digits s
  end.

Definition lower_ascii (c : ascii) : ascii :=
  let n := code c in
  if ((65 <=? n) && (n <=? 90))%N then ascii_of_N (n + 32) else c.

(** Second byte of a capital letter of the Latin-1 supplement (U+00C0 to
    U+00DE without the multiplication sign U+00D7). *)
Definition latin1_upper_tail (c : ascii) : bool :=
  let n := code c in
  ((128 <=? n) && (n <=? 158) && negb (n =? 151))%N.

Fixpoint lower_from (after_c3 : bool) (s : string) : string :=
  match s with
  | String c rest =>
      if after_c3 && latin1_upper_tail c
      then String (ascii_of_N (code c + 32)) (lower_from false rest)
      else String (lower_ascii c) (lower_from (code c =? 195)%N rest)
  | EmptyString => EmptyString
  end.

(** [s.lower()] *)
Definition lower (s : string) : string := lower_from false s.

(** [str(x)] of a cell that holds a string or nothing. *)
Definition str_of_cell (x : option string) : string :=
  match x with
  | Some s => s
  | None => "None"
  end.

(** ** [src/utils/helpers.py]: SKU normalisation *)

(** [normalize_sku]; [None] stands for a null cell ([pd.isna]). *)
Definition normalize_sku (sku : option string) : string :=
  match sku with
  | None => EmptyString
  | Some s =>
      let sku_str := replace " " EmptyString (strip s) in
      if isdigit sku_str then zfill 5 sku_str else sku_str
  end.

(** The normalisation written out in [_analyze_preferences] for the [sku]
    column of the items and of the catalog:
    [astype(str).str.strip().str.replace(' ', '').str.zfill(5)]. *)
Definition normalize_sku_column (sku : option string) : string :=
  zfill 5 (replace " " EmptyString (strip (str_of_cell sku))).

(** ** Python floats *)

Inductive pyfloat : Type :=
| Fin (q : Q)
| NaN.

(** A cell read by the helpers: [None], a float or a string. *)
Inductive pyvalue : Type :=
| PNone
| PFloat (f : pyfloat)
| PStr (s : string).

Definition Qltb (a b : Q) : bool := negb (Qle_bool b a).

(** Nearest integer, ties to the even neighbour, of a rational that is not
    negative: the rounding of the [f] presentation type. *)
Definition round_half_even (q : Q) : Z :=
  let num := Qnum q in
  let den := Zpos (Qden q) in
  let f := num / den in
  let r := num mod den in
  match (2 * r ?= den) with
  | Lt => f
  | Gt => f + 1
  | Eq => if Z.even f then f else f + 1
  end.

(** The hundredths shown by [.2f] for the magnitude of [q]. *)
Definition cents (q : Q) : Z := round_half_even (Qabs q * 100).

Definition digit_char (d : Z) : ascii := ascii_of_N (48 + Z.to_N d).

(** Decimal digits of a natural number, without leading zeros. *)
Definition digits (n : Z) : string :=
  DecimalString.NilEmpty.string_of_uint (N.to_uint (Z.to_N n)).

Definition two_digits (n : Z) : string :=
  String (digit_char (n / 10)) (String (digit_char (n mod 10)) EmptyString).

(** The [,] option of the format mini-language: [sep] before every block
    of three digits counted from the right. *)
Fixpoint group3 (sep : string) (s : string) : string :=
  match s with
  | String c rest =>
      String c
        (match rest with
         | EmptyString => EmptyString
         | _ => if (String.length rest mod 3 =? 0)%nat
                then sep ++ group3 sep rest
                else group3 sep rest
         end)
  | EmptyString => EmptyString
  end.

(** [f"{x:,.2f}"] for a finite [x]. *)
Definition format_2f_grouped (q : Q) : string :=
  let n := cents q in
  (if Qltb q 0 then "-" else EmptyString)
    ++ group3 "," (digits (n / 100)) ++ "." ++ two_digits (n mod 100).

(** ** [src/utils/helpers.py]: number formatting and parsing *)

(** [format_to_comma_decimal]; [None] is Python's [None]. *)
Definition format_to_comma_decimal (value : option pyfloat) : string :=
  match value with
  | None | Some NaN => "0,00"
  | Some (Fin q) =>
      let formatted := format_2f_grouped q in
      replace "X" "." (replace "." "," (replace "," "X" formatted))
  end.

(** Text before the first occurrence of [c], and the text after it when
    there is one. *)
Fixpoint split_first (c : ascii) (s : string) : string * option string :=
  match s with
  | String a rest =>
      if Ascii.eqb a c then (EmptyString, Some rest)
      else let (l, r) := split_first c rest in (String a l, r)
  | EmptyString => (EmptyString, None)
  end.

Definition nat_of_digits (s : string) : option N :=
  option_map N.of_uint (DecimalString.NilEmpty.uint_of_string s).

(** The number denoted by [digits], [digits.], [.digits] or
    [digits.digits]; nothing on other texts. *)
Definition unsigned_decimal (s : string) : option Q :=
  let (ip, fp) := split_first "." s in
  let fp := match fp with Some t => t | None => EmptyString end in
  match ip, fp with
  | EmptyString, EmptyString => None
  | _, _ =>
      match nat_of_digits ip, nat_of_digits fp with
      | Some i, Some f =>
          Some (Qplus (inject_Z (Z.of_N i))
                      (Z.of_N f # Pos.of_nat (10 ^ String.length fp)))
      | _, _ => None
      end
  end.

(** [float(text)] on a text without surrounding blanks, for the decimal
    notation with an optional sign.  [None] is a [ValueError].  Exponents,
    underscores and the words [inf] and [nan], which Python also reads, are
    outside this model and count as errors. *)
Definition float_of_str (s : string) : option Q :=
  match s with
  | String "-" rest => option_map Qopp (unsigned_decimal rest)
  | String "+" rest => unsigned_decimal rest
  | _ => unsigned_decimal s
  end.

(** [parse_comma_decimal] *)
Definition parse_comma_decimal (value : pyvalue) : pyfloat :=
  match value with
  | PNone | PFloat NaN => Fin 0
  | PFloat (Fin q) => Fin q
  | PStr EmptyString => Fin 0
  | PStr s =>
      let value_str := strip s in
      match float_of_str value_str with
      | Some q => Fin q
      | None =>
          let value_str :=
            replace "," "." (replace "." EmptyString value_str) in
          match float_of_str value_str with
          | Some q => Fin q
          | None => Fin 0
          end
      end
  end.

(** [clean_category]; [None] is a null cell. *)
Fixpoint last_segment (c : ascii) (s : string) : string :=
  match s with
  | String a rest =>
      match split_first c s with
      | (_, None) => s
      | (_, Some _) => last_segment c rest
      end
  | EmptyString => EmptyString
  end.

Definition clean_category (category_string : option string) : string :=
  match category_string with
  | None => "Sin Categoria"
  | Some s =>
      let last_part := strip (last_segment "/" (last_segment "," s)) in
      match last_part with
      | EmptyString => "Sin Categoria"
      | _ => last_part
      end
  end.

(** ** [src/processors/scoring.py] *)

(** What [row.get(key, default)] meets in a row: no such key, a key whose
    value is [None], or a value. *)
Inductive cell (A : Type) : Type :=
| Missing
| Null
| Val (a : A).
Arguments Missing {A}.
Arguments Null {A}.
Arguments Val {A} a.

Module Scoring.

(** The fields of a customer row that the scorer reads, and the four it
    adds.  [Frecuencia] is a count, so its value is an integer.  The cells
    are typed: a number, a count or a text, [None], or no key at all.  A
    frame with a cell that [float] or [int] refuses (a text that is no
    number, a NaN count), on which [score] raises its
    [DataProcessingError], is not a frame of this model. *)
Record row : Type := mkRow {
  LTV_Gasto_Total : cell pyfloat;
  Frecuencia : cell Z;
  Recencia_Dias : cell pyfloat;
  Subtotal : cell pyfloat;
  Tiene_Factura_A : cell string;
  Score_Intencion : cell Z;
  Segmento : cell string;
  Accion_Sugerida : cell string;
  Tipo_Cliente : cell string
}.

(** [float(row.get(key, d) or d)]: the default replaces a missing key, a
    [None] and a zero; NaN is true in a boolean context and stays. *)
Definition float_or (d : Q) (c : cell pyfloat) : pyfloat :=
  match c with
  | Missing | Null => Fin d
  | Val (Fin q) => if Qeq_bool q 0 then Fin d else Fin q
  | Val NaN => NaN
  end.

(** [int(row.get(key, d) or d)] *)
Definition int_or (d : Z) (c : cell Z) : Z :=
  match c with
  | Missing | Null => d
  | Val z => if z =? 0 then d else z
  end.

(** Comparisons of a float with a number; every comparison with NaN is
    false. *)
Definition fgt (x : pyfloat) (t : Q) : bool :=
  match x with Fin q => Qltb t q | NaN => false end.

Definition fge (x : pyfloat) (t : Q) : bool :=
  match x with Fin q => Qle_bool t q | NaN => false end.

Definition fle (x : pyfloat) (t : Q) : bool :=
  match x with Fin q => Qle_bool q t | NaN => false end.

Record ScoringThresholds : Type := mkThresholds {
  high_value : Q;
  medium_value : Q;
  high_frequency : Z;
  medium_frequency : Z;
  recent_days : Q;
  medium_days : Q;
  high_cart_value : Q;
  medium_cart_value : Q
}.

(** The defaults of the dataclass. *)
Definition default_thresholds : ScoringThresholds :=
  {| high_value := 1000000; medium_value := 300000;
     high_frequency := 5; medium_frequency := 3;
     recent_days := 7; medium_days := 30;
     high_cart_value := 300000; medium_cart_value := 100000 |}.

(** [DefaultScoringStrategy.calculate] *)
Definition calculate (thresholds : ScoringThresholds) (r : row) : Z :=
  let score := 0 in
  let ltv := float_or 0 (LTV_Gasto_Total r) in
  let frecuencia := int_or 0 (Frecuencia r) in
  let recencia := float_or 9999 (Recencia_Dias r) in
  let subtotal := float_or 0 (Subtotal r) in
  let score :=
    if fgt ltv (high_value thresholds) then score + 30
    else if fgt ltv (medium_value thresholds) then score + 20
    else if fgt ltv 0 then score + 10
    else score in
  let score :=
    if frecuencia >=? high_frequency thresholds then score + 30
    else if frecuencia >=? medium_frequency thresholds then score + 20
    else if frecuencia >=? 1 then score + 10
    else score in
  let score :=
    if fle recencia (recent_days thresholds) then score + 20
    else if fle recencia (medium_days thresholds) then score + 10
    else score in
  let score :=
    if fge subtotal (high_cart_value thresholds) then score + 20
    else if fge subtotal (medium_cart_value thresholds) then score + 10
    else score in
  score.

Definition HIGH_THRESHOLD : Z := 70.
Definition MEDIUM_THRESHOLD : Z := 50.
Definition VIP_LTV_THRESHOLD : Q := 1000000.
Definition VIP_FREQUENCY_THRESHOLD : Z := 5.
Definition RECURRENT_THRESHOLD : Z := 2.

(** [get_segment] in [MarketingScorer.segment] *)
Definition get_segment (score : Z) : string :=
  if score >=? HIGH_THRESHOLD then "Alta"
  else if score >=? MEDIUM_THRESHOLD then "Media"
  else "Baja".

(** [get_action] in [MarketingScorer.add_recommendations] *)
Definition get_action (segment : string) : string :=
  if String.eqb segment "Alta" then "WhatsApp + Cupón personalizado"
  else if String.eqb segment "Media" then "Email remarketing"
  else "Automatización suave".

(** [str(row.get("Tiene_Factura_A", "No"))] *)
Definition str_get_flag (c : cell string) : string :=
  match c with
  | Missing => "No"
  | Null => "None"
  | Val s => s
  end.

(** [get_customer_type] in [MarketingScorer.classify_customers] *)
Definition get_customer_type (r : row) : string :=
  let tiene_factura_a := lower (strip (str_get_flag (Tiene_Factura_A r))) in
  if String.eqb tiene_factura_a "sí" || String.eqb tiene_factura_a "si"
  then "VIP"
  else
    let ltv := float_or 0 (LTV_Gasto_Total r) in
    let frecuencia := int_or 0 (Frecuencia r) in
    if fge ltv VIP_LTV_THRESHOLD || (frecuencia >=? VIP_FREQUENCY_THRESHOLD)
    then "VIP"
    else if frecuencia >=? RECURRENT_THRESHOLD then "Recurrente"
    else "Nuevo".

Definition set_Score_Intencion (v : Z) (r : row) : row :=
  mkRow (LTV_Gasto_Total r) (Frecuencia r) (Recencia_Dias r) (Subtotal r)
        (Tiene_Factura_A r) (Val v) (Segmento r) (Accion_Sugerida r)
        (Tipo_Cliente r).

Definition set_Tipo_Cliente (v : string) (r : row) : row :=
  mkRow (LTV_Gasto_Total r) (Frecuencia r) (Recencia_Dias r) (Subtotal r)
        (Tiene_Factura_A r) (Score_Intencion r) (Segmento r)
        (Accion_Sugerida r) (Val v).

(** [MarketingScorer.score] with the default strategy: the column
    [Score_Intencion] of a copy of the frame is filled row by row.  On the
    typed cells of [row] the strategy raises nothing, so the [except]
    branch of [score] is never entered. *)
Definition score (df : list row) : list row :=
  map (fun r => set_Score_Intencion (calculate default_thresholds r) r) df.

(** [MarketingScorer.classify_customers] *)
Definition classify_customers (df : list row) : list row :=
  map (fun r => set_Tipo_Cliente (get_customer_type r) r) df.

(** The score as the specification words it: four component scores, each
    read off its own signal, added up. *)
Definition spec_ltv_points (ltv : pyfloat) : Z :=
  if fgt ltv 1000000 then 30 else if fgt ltv 300000 then 20
  else if fgt ltv 0 then 10 else 0.

Definition spec_frequency_points (frequency : Z) : Z :=
  if 5 <=? frequency then 30 else if 3 <=? frequency then 20
  else if 1 <=? frequency then 10 else 0.

Definition spec_recency_points (days : pyfloat) : Z :=
  if fle days 7 then 20 else if fle days 30 then 10 else 0.

Definition spec_cart_points (subtotal : pyfloat) : Z :=
  if fge subtotal 300000 then 20 else if fge subtotal 100000 then 10 else 0.

(** The value of a signal, with [d] where the row has none. *)
Definition signal (d : Q) (c : cell pyfloat) : pyfloat :=
  match c with
  | Missing | Null => Fin d
  | Val x => x
  end.

Definition count_signal (c : cell Z) : Z :=
  match c with
  | Missing | Null => 0
  | Val z => z
  end.

(** The specification's score: recency is used as it stands in the row. *)
Definition spec_score (r : row) : Z :=
  spec_ltv_points (signal 0 (LTV_Gasto_Total r))
  + spec_frequency_points (count_signal (Frecuencia r))
  + spec_recency_points (signal 9999 (Recencia_Dias r))
  + spec_cart_points (signal 0 (Subtotal r)).

(** The recency signal as [calculate] reads it: a recorded zero counts as
    no record. *)
Definition recency_read (c : cell pyfloat) : pyfloat := float_or 9999 c.

(** The row records a recency of exactly 0 days: the last purchase was
    made on the day of the run. *)
Definition recorded_zero (c : cell pyfloat) : bool :=
  match c with
  | Val (Fin q) => Qeq_bool q 0
  | _ => false
  end.

(** The preferential-invoice flag of a row is set. *)
Definition invoice_flag_set (r : row) : bool :=
  let t := lower (strip (str_get_flag (Tiene_Factura_A r))) in
  String.eqb t "sí" || String.eqb t "si".

(** The flag as the specification has it, read off the cell alone: the
    cell holds a text that says yes, sí or si, whatever the case of its
    letters and the blanks around it.  A row without the key, or with
    nothing under it, has no flag. *)
Definition spec_invoice_flag (c : cell string) : bool :=
  match c with
  | Val s =>
      let t := lower (strip s) in String.eqb t "sí" || String.eqb t "si"
  | Missing | Null => false
  end.

(** The customer type as the specification words it. *)
Definition spec_customer_type (flag : bool) (ltv : pyfloat) (frequency : Z)
  : string :=
  if flag || fge ltv 1000000 || (5 <=? frequency) then "VIP"
  else if 2 <=? frequency then "Recurrente"
  else "Nuevo".

End Scoring.

(** ** Dates *)

(** A calendar day, the value of a pandas Timestamp at midnight. *)
Record date : Type := mkDate { year : Z; month : Z; day : Z }.

Definition is_leap (y : Z) : bool :=
  (y mod 4 =? 0) && (negb (y mod 100 =? 0) || (y mod 400 =? 0)).

Definition days_in_month (y m : Z) : Z :=
  if m =? 2 then (if is_leap y then 29 else 28)
  else if (m =? 4) || (m =? 6) || (m =? 9) || (m =? 11) then 30
  else 31.

(** Days from 1970-01-01 to the given day of the Gregorian calendar. *)
Definition to_days (d : date) : Z :=
  let y := if month d <=? 2 then year d - 1 else year d in
  let era := y / 400 in
  let yoe := y - era * 400 in
  let mp := if month d <=? 2 then month d + 9 else month d - 3 in
  let doy := (153 * mp + 2) / 5 + day d - 1 in
  let doe := yoe * 365 + yoe / 4 - yoe / 100 + doy in
  era * 146097 + doe - 719468.

Definition digit_val (c : ascii) : option Z :=
  if is_digit c then Some (Z.of_N (code c) - 48) else None.

Definition number_of (cs : list ascii) : option Z :=
  fold_left
    (fun acc c =>
       match acc, digit_val c with
       | Some n, Some d => Some (10 * n + d)
       | _, _ => None
       end)
    cs (Some 0).

(** The format [%Y-%m-%d], in its zero-padded spelling, which is the one
    the back office sends; any other text is not a date. *)
Definition parse_ymd (s : string) : option date :=
  match list_ascii_of_string s with
  | [y1; y2; y3; y4; s1; m1; m2; s2; d1; d2] =>
      if Ascii.eqb s1 "-" && Ascii.eqb s2 "-" then
        match number_of [y1; y2; y3; y4], number_of [m1; m2],
              number_of [d1; d2] with
        | Some y, Some m, Some d =>
            if (1 <=? m) && (m <=? 12) && (1 <=? d) && (d <=? days_in_month y m)
            then Some (mkDate y m d) else None
        | _, _, _ => None
        end
      else None
  | _ => None
  end.

(** [pd.to_datetime(col.str.split(' ').str[0], errors='coerce',
    format='%Y-%m-%d')] on one cell; [None] in the result is NaT. *)
Definition to_datetime (c : option string) : option date :=
  match c with
  | Some s => parse_ymd (fst (split_first " " s))
  | None => None
  end.

(** ** Frames: grouping and merging *)

Section GroupBy.
Context {K A : Type}.
Variable cmp : K -> K -> comparison.
Variable key : A -> K.

(** One more row for its group; a new group takes its place in the order
    of the keys. *)
Fixpoint add_to_group (r : A) (gs : list (K * list A)) : list (K * list A) :=
  match gs with
  | [] => [(key r, [r])]
  | (k, rs) :: rest =>
      match cmp (key r) k with
      | Eq => (k, (rs ++ [r])%list) :: rest
      | Lt => (key r, [r]) :: gs
      | Gt => (k, rs) :: add_to_group r rest
      end
  end.

(** [df.groupby(key)]: the groups in the order of their keys, each with
    its rows in the order of the frame. *)
Definition groupby (rows : list A) : list (K * list A) :=
  fold_left (fun gs r => add_to_group r gs) rows [].
End GroupBy.

Definition cmp_str : string -> string -> comparison := String_as_OT.compare.

(** Order of the tuples that key a grouping by two columns. *)
Definition cmp_pair (a b : string * string) : comparison :=
  match cmp_str (fst a) (fst b) with
  | Eq => cmp_str (snd a) (snd b)
  | c => c
  end.

(** [idxmax]: the first row that holds the largest value. *)
Fixpoint idxmax {A : Type} (val : A -> Z) (rows : list A) : option A :=
  match rows with
  | [] => None
  | r :: rest =>
      match idxmax val rest with
      | Some b => if val b <=? val r then Some r else Some b
      | None => Some r
      end
  end.

Section Merge.
Context {L R C : Type}.
Variable left_on : L -> string.
Variable right_on : R -> string.

Definition matches (l : L) (right : list R) : list R :=
  filter (fun r => String.eqb (right_on r) (left_on l)) right.

(** [left.merge(right, how='left')]: every left row, once for each right
    row with its key, and once with nulls when there is none. *)
Definition merge_left (combine : L -> option R -> C)
           (left : list L) (right : list R) : list C :=
  flat_map
    (fun l =>
       match matches l right with
       | [] => [combine l None]
       | ms => map (fun r => combine l (Some r)) ms
       end)
    left.

(** [left.merge(right, how='inner')] *)
Definition merge_inner (combine : L -> R -> C)
           (left : list L) (right : list R) : list C :=
  flat_map (fun l => map (combine l) (matches l right)) left.
End Merge.

(** ** [src/core/exceptions.py] and the effects of the pipeline *)

(** The exceptions that occur in the pipeline.  [DataProcessingError]
    carries the [message] of [MagentoError] and its own [operation]. *)
Inductive pyexn : Type :=
| KeyError (key : string)
| AttributeError (msg : string)
| DataProcessingError (message : string) (operation : option string).

(** [str(e)]; a [KeyError] shows the [repr] of its key. *)
Definition str_exn (e : pyexn) : string :=
  match e with
  | KeyError k => "'" ++ k ++ "'"
  | AttributeError m => m
  | DataProcessingError m _ => m
  end.

(** A computation over a state [S] that returns a value or raises; what it
    wrote before raising stays written. *)
Definition M (S A : Type) : Type := S -> (pyexn + A) * S.

Definition ret {S A : Type} (a : A) : M S A := fun st => (inr a, st).

Definition raise {S A : Type} (e : pyexn) : M S A := fun st => (inl e, st).

Definition bind {S A B : Type} (c : M S A) (k : A -> M S B) : M S B :=
  fun st =>
    match c st with
    | (inr a, st') => k a st'
    | (inl e, st') => (inl e, st')
    end.

Definition gets {S A : Type} (f : S -> A) : M S A := fun st => (inr (f st), st).

Definition modify {S : Type} (f : S -> S) : M S unit := fun st => (inr tt, f st).

(** [try: c  except Exception as e: h(e)] *)
Definition try_except {S A : Type} (c : M S A) (h : pyexn -> M S A) : M S A :=
  fun st =>
    match c st with
    | (inl e, st') => h e st'
    | ok => ok
    end.

Notation "x <- c ;; k" := (bind c (fun x => k))
  (at level 61, c at next level, right associativity).
Notation "c ;;; k" := (bind c (fun _ => k))
  (at level 61, right associativity).

(** ** [src/processors/rfm.py] *)

Module RFM.

(** A DataFrame built from a list of records has no columns at all when
    the list is empty; reading a column of it is a [KeyError]. *)
Inductive frame (A : Type) : Type :=
| NoColumns
| Frame (rows : list A).
Arguments NoColumns {A}.
Arguments Frame {A} rows.

(** A row of the orders frame.  The three type parameters are the types of
    the columns that [_clean_data] rewrites.  The column [Payment_Method],
    which [_detect_invoice_a] looks for before it reads it, is a cell:
    [Missing] in the rows of a frame that has no such column. *)
Record order_row (E D T : Type) : Type := mkOrder {
  ID : string;
  Customer_Email : E;
  Purchase_Date : D;
  Grand_Total : T;
  Status : option string;
  Payment_Method : cell string
}.
Arguments mkOrder {E D T}.
Arguments ID {E D T}.
Arguments Customer_Email {E D T}.
Arguments Purchase_Date {E D T}.
Arguments Grand_Total {E D T}.
Arguments Status {E D T}.
Arguments Payment_Method {E D T}.

(** As the client delivers it: texts, and a number or nothing. *)
Abbreviation raw_order := (order_row (option string) (option string) (option Q)).
(** After the columns were rewritten; [None] is NaT. *)
Abbreviation clean_order := (order_row string (option date) Q).
(** A row that passed the filter on the year, which has a date. *)
Abbreviation order := (order_row string date Q).

(** The orders frame of the caller is in one of three states. *)
Inductive orders_frame : Type :=
| OrdersNoColumns
| OrdersRaw (rows : list raw_order)
| OrdersClean (rows : list clean_order).

(** Customer rows; the columns for addresses and the tax identifier, which
    no property below depends on, are left out. *)
Record customer : Type := mkCustomer {
  id : Z;
  email : option string;
  firstname : option string;
  lastname : option string;
  created_at : option string
}.

Record item_row : Type := mkItem {
  order_id : string;
  customer_email : option string;
  sku : option string;
  qty_ordered : option Z;
  row_total : option Q
}.

Record catalog_row : Type := mkCatalog {
  catalog_sku : option string;
  categories : option string;
  brand : option string;
  product_name : option string
}.

(** The four DataFrame objects of the caller that [process] is given. *)
Record store : Type := mkStore {
  customers_df : frame customer;
  orders_df : orders_frame;
  catalog_df : frame catalog_row;
  items_df : frame item_row
}.

Definition set_orders (o : orders_frame) (st : store) : store :=
  mkStore (customers_df st) o (catalog_df st) (items_df st).

Definition set_items (i : frame item_row) (st : store) : store :=
  mkStore (customers_df st) (orders_df st) (catalog_df st) i.

Definition set_catalog (c : frame catalog_row) (st : store) : store :=
  mkStore (customers_df st) (orders_df st) c (items_df st).

Record RFMProcessor : Type := mkProcessor {
  min_year : Z;
  (** [datetime.now()] at construction, in seconds since 1970-01-01T00:00 *)
  current_date : Z
}.

(** [(current_date - d).days]: whole days, rounded down. *)
Definition days_since (self : RFMProcessor) (d : date) : Z :=
  (current_date self - 86400 * to_days d) / 86400.

Definition str_of_Z (z : Z) : string :=
  if z <? 0 then "-" ++ digits (- z) else digits z.

Definition fillna_str (x : option string) : string :=
  match x with Some s => s | None => EmptyString end.

(** The columns of the customer frame that the merge keeps. *)
Record customer_info : Type := mkInfo {
  info_email : string;
  info_Name : string;
  info_ID : string;
  info_created_at : option date
}.

(** [_extract_customer_fields]: works on a copy; the new columns [Name]
    and [ID] next to the columns of the input.  A frame of the model has
    all the columns that the function reads ([firstname], [lastname],
    [addresses], [taxvat], [id], [email]) or none of them; [firstname] is
    the first one read. *)
Definition _extract_customer_fields (df : frame customer)
  : pyexn + list (customer * string * string) :=
  match df with
  | NoColumns => inl (KeyError "firstname")
  | Frame rows =>
      inr (map (fun c =>
                  let name :=
                    strip (fillna_str (firstname c) ++ " "
                           ++ fillna_str (lastname c)) in
                  let name :=
                    match name with
                    | EmptyString => "Sin Nombre"
                    | _ => name
                    end in
                  (c, name, str_of_Z (id c)))
               rows)
  end.

(** The three assignments of [_clean_data] to columns of the orders. *)
Definition clean_row (o : raw_order) : clean_order :=
  mkOrder (ID o)
          (lower (str_of_cell (Customer_Email o)))
          (to_datetime (Purchase_Date o))
          (match Grand_Total o with Some q => q | None => 0%Q end)
          (Status o) (Payment_Method o).

(** The first assignment alone, on a frame whose columns were rewritten
    before. *)
Definition relower_row (o : clean_order) : clean_order :=
  mkOrder (ID o) (lower (Customer_Email o)) (Purchase_Date o)
          (Grand_Total o) (Status o) (Payment_Method o).

(** [orders[orders['Purchase Date'].dt.year >= self.min_year]]: a new
    frame; NaT compares false. *)
Definition filter_year (self : RFMProcessor) (rows : list clean_order)
  : list order :=
  flat_map
    (fun o =>
       match Purchase_Date o with
       | Some d =>
           if min_year self <=? year d
           then [mkOrder (ID o) (Customer_Email o) d (Grand_Total o)
                         (Status o) (Payment_Method o)]
           else []
       | None => []
       end)
    rows.

(** [_clean_data].  The customers are copied by
    [_extract_customer_fields] and only the copy is written.  The columns
    of the orders are assigned in the caller's frame; on a frame that was
    cleaned before, the e-mail column is assigned again and the [.str]
    accessor of the date column, now of dtype datetime, raises.  On a raw
    frame none of the three assignments can fail, so they are applied
    together. *)
Definition _clean_data (self : RFMProcessor)
  : M store (list customer_info * list order) :=
  cs <- gets customers_df ;;
  match _extract_customer_fields cs with
  | inl e => raise e
  | inr extracted =>
      let customers :=
        map (fun x : customer * string * string =>
               let '(c, name, ident) := x in
               mkInfo (lower (str_of_cell (email c))) name ident
                      (to_datetime (created_at c)))
            extracted in
      os <- gets orders_df ;;
      match os with
      | OrdersNoColumns => raise (KeyError "Customer Email")
      | OrdersClean rows =>
          modify (set_orders (OrdersClean (map relower_row rows))) ;;;
          raise (AttributeError "Can only use .str accessor with string values!")
      | OrdersRaw rows =>
          let cleaned := map clean_row rows in
          modify (set_orders (OrdersClean cleaned)) ;;;
          ret (customers, filter_year self cleaned)
      end
  end.

Definition by_email {D : Type} (o : order_row string D Q) : string :=
  Customer_Email o.

Definition sumQ (l : list Q) : Q := fold_right Qplus 0%Q l.

Definition maxQ (x : Q) (l : list Q) : Q :=
  fold_left (fun m y => if Qltb m y then y else m) l x.

Definition minQ (x : Q) (l : list Q) : Q :=
  fold_left (fun m y => if Qltb y m then y else m) l x.

Definition later (a b : date) : date :=
  if to_days a <? to_days b then b else a.

Definition earlier (a b : date) : date :=
  if to_days b <? to_days a then b else a.

(** A row of [df_recency]. *)
Record recency_row : Type := mkRecency {
  rec_Customer_Email : string;
  rec_Recencia_Fecha : date;
  rec_Recencia_Dias : Z
}.

(** A row of [df_fm]. *)
Record fm_row : Type := mkFm {
  fm_Customer_Email : string;
  fm_Frecuencia : Z;
  fm_LTV_Gasto_Total : Q;
  fm_Gasto_Promedio_Compra : Q;
  fm_Gasto_Maximo_Compra : Q;
  fm_Gasto_Minimo_Compra : Q;
  fm_Primera_Compra_Fecha : date;
  fm_Dias_Como_Cliente : Z;
  fm_Ticket_Promedio_Mensual : Q
}.

(** [Series.replace(0, 1)] on one value. *)
Definition replace_0_1 (z : Z) : Z := if z =? 0 then 1 else z.

(** The aggregates of one group of [df_fm] and the two derived columns. *)
Definition fm_of_group (self : RFMProcessor) (g : string * list order)
  : list fm_row :=
  match snd g with
  | [] => []
  | o :: rest =>
      let totals := map Grand_Total (snd g) in
      let frecuencia := Z.of_nat (List.length (map ID (snd g))) in
      let ltv := sumQ totals in
      let primera :=
        fold_left earlier (map Purchase_Date rest) (Purchase_Date o) in
      let dias := replace_0_1 (days_since self primera) in
      [mkFm (fst g) frecuencia ltv
            (ltv / inject_Z frecuencia)%Q
            (maxQ (Grand_Total o) (map Grand_Total rest))
            (minQ (Grand_Total o) (map Grand_Total rest))
            primera dias
            (ltv / (inject_Z dias / (30416 # 1000)))%Q]
  end.

Definition recency_of_group (self : RFMProcessor) (g : string * list order)
  : list recency_row :=
  match snd g with
  | [] => []
  | o :: rest =>
      let fecha := fold_left later (map Purchase_Date rest) (Purchase_Date o) in
      [mkRecency (fst g) fecha (days_since self fecha)]
  end.

(** [_calculate_rfm_metrics]: [df_fm] with the two recency columns merged
    on from [df_recency]. *)
Definition _calculate_rfm_metrics (self : RFMProcessor) (orders : list order)
  : list (fm_row * option recency_row) :=
  let df_recency :=
    flat_map (recency_of_group self) (groupby cmp_str by_email orders) in
  let df_fm :=
    flat_map (fm_of_group self) (groupby cmp_str by_email orders) in
  merge_left fm_Customer_Email rec_Customer_Email
             (fun l r => (l, r)) df_fm df_recency.

Fixpoint insert_sorted (d : date) (l : list date) : list date :=
  match l with
  | [] => [d]
  | x :: rest =>
      if to_days d <? to_days x then d :: l else x :: insert_sorted d rest
  end.

(** [dates.sort_values().to_list()] *)
Definition sort_values (l : list date) : list date :=
  fold_left (fun acc d => insert_sorted d acc) l [].

Fixpoint gaps (l : list date) : list Z :=
  match l with
  | a :: (b :: _) as rest => (to_days b - to_days a) :: gaps rest
  | _ => []
  end.

Definition sumZ (l : list Z) : Z := fold_right Z.add 0 l.

(** [calculate_avg_time_between_purchases] *)
Definition calculate_avg_time_between_purchases (dates : list date)
  : option Q :=
  let dates := sort_values dates in
  if (List.length dates <=? 1)%nat then None
  else
    let diffs := gaps dates in
    Some (inject_Z (sumZ diffs) / inject_Z (Z.of_nat (List.length diffs)))%Q.

(** A row of [df_kpis]; the quarter and the weekday, which no property
    below reads, are left out. *)
Record kpi_row : Type := mkKpi {
  kpi_Customer_Email : string;
  kpi_Tiempo_Promedio_Entre_Compras : option Q
}.

(** [_calculate_additional_kpis] *)
Definition _calculate_additional_kpis (orders : list order) : list kpi_row :=
  map (fun g : string * list order =>
         mkKpi (fst g)
               (calculate_avg_time_between_purchases
                  (map Purchase_Date (snd g))))
      (groupby cmp_str by_email orders).

(** [pattern in text] *)
Fixpoint contains (pattern text : string) : bool :=
  String.prefix pattern text
  || match text with
     | String _ rest => contains pattern rest
     | EmptyString => false
     end.

(** ['Payment_Method' in orders.columns]: every row has the key.  A frame
    is the list of its rows, so a frame without rows has the column. *)
Definition has_payment_method {E D T : Type} (orders : list (order_row E D T))
  : bool :=
  forallb (fun o => match Payment_Method o with Missing => false | _ => true end)
          orders.

(** [astype(str)] on a payment method: [None] becomes the text None. *)
Definition method_text (c : cell string) : string :=
  match c with
  | Val s => s
  | Null | Missing => "None"
  end.

(** [_detect_invoice_a]: an empty frame when the orders have no column
    [Payment_Method]; otherwise [str.contains('Factura A', case=False)] on
    some order of the customer. *)
Definition _detect_invoice_a (orders : list order) : list (string * string) :=
  if negb (has_payment_method orders) then []
  else
    map (fun g : string * list order =>
           (fst g,
            if existsb
                 (fun o => contains (lower "Factura A")
                                    (lower (method_text (Payment_Method o))))
                 (snd g)
            then "Sí" else "No"))
        (groupby cmp_str by_email orders).

(** A row of [df_items] after the merge with the catalog, the cleaning of
    category and brand, and the lower-casing of the e-mail. *)
Record item_line : Type := mkLine {
  line_Customer_Email : string;
  line_sku : string;
  line_qty_ordered : option Z;
  Categoria_Limpia : string;
  line_brand : string
}.

(** The [sum] of a column skips the nulls. *)
Definition qty_of (l : item_line) : Z :=
  match line_qty_ordered l with Some q => q | None => 0 end.

(** A row of a frame of summed quantities: customer, value, quantity. *)
Definition qty_row : Type := (string * string * Z)%type.
Definition qty_email (r : qty_row) : string := fst (fst r).
Definition qty_value (r : qty_row) : string := snd (fst r).
Definition qty_total (r : qty_row) : Z := snd r.

(** [df_items.groupby(['Customer Email', col])['qty_ordered'].sum()
    .reset_index()] *)
Definition summed_quantities (col : item_line -> string)
           (df_items : list item_line) : list qty_row :=
  map (fun g : (string * string) * list item_line =>
         (fst g, sumZ (map qty_of (snd g))))
      (groupby cmp_pair (fun l => (line_Customer_Email l, col l)) df_items).

(** [df_qty.loc[df_qty.groupby('Customer Email')[qty].idxmax()]]: for every
    customer the first of the rows of [df_qty] that hold the customer's
    largest quantity. *)
Definition rows_of_idxmax (df_qty : list qty_row) : list qty_row :=
  flat_map (fun g : string * list qty_row =>
              match idxmax qty_total (snd g) with
              | Some r => [r]
              | None => []
              end)
           (groupby cmp_str qty_email df_qty).

(** The pattern shared by the preferred category, the preferred brand and
    the favourite product. *)
Definition preferred (col : item_line -> string) (df_items : list item_line)
  : list qty_row :=
  rows_of_idxmax (summed_quantities col df_items).

(** A row of [df_prefs]; the two lists, the count of distinct products and
    the order history, which are merged on from frames with one row per
    customer, are left out. *)
Record pref_row : Type := mkPref {
  pref_Customer_Email : string;
  pref_Categoria_Preferida : string;
  pref_Marca_Preferida : option string;
  pref_Producto_Favorito_SKU : option string;
  pref_Producto_Favorito_Qty : option Z;
  pref_Producto_Favorito_Nombre : option string;
  pref_Tiene_Factura_A : option string
}.

Definition normalize_item (i : item_row) : item_row :=
  mkItem (order_id i) (customer_email i)
         (Some (normalize_sku_column (sku i))) (qty_ordered i) (row_total i).

Definition normalize_catalog (c : catalog_row) : catalog_row :=
  mkCatalog (Some (normalize_sku_column (catalog_sku c)))
            (categories c) (brand c) (product_name c).

(** [df_items]: the items merged with the catalog on [sku], category and
    brand cleaned, rows without e-mail dropped, e-mail in lower case. *)
Definition item_lines (items : list item_row) (catalog : list catalog_row)
  : list item_line :=
  flat_map
    (fun x : item_row * option catalog_row =>
       let (i, c) := x in
       match customer_email i with
       | None => []
       | Some e =>
           [mkLine (lower e) (str_of_cell (sku i)) (qty_ordered i)
                   (clean_category
                      (match c with Some c => categories c | None => None end))
                   (match c with
                    | Some c =>
                        match brand c with Some b => b | None => "Sin Marca" end
                    | None => "Sin Marca"
                    end)]
       end)
    (merge_left (fun i => str_of_cell (sku i))
                (fun c => str_of_cell (catalog_sku c))
                (fun i c => (i, c)) items catalog).

(** The frame [df_prefs], from the cleaned item lines. *)
Definition merge_preferences (df_items : list item_line)
           (catalog : list catalog_row) (orders : list order) : list pref_row :=
  let df_cat_pref := preferred Categoria_Limpia df_items in
  let df_brand_pref := preferred line_brand df_items in
  let df_prod_fav :=
    merge_left qty_value (fun c => str_of_cell (catalog_sku c))
               (fun (l : qty_row) (c : option catalog_row) =>
                  (l, match c with Some c => product_name c | None => None end))
               (preferred line_sku df_items) catalog in
  let df_invoice_a := _detect_invoice_a orders in
  let step1 :=
    merge_left qty_email qty_email
               (fun (c : qty_row) (b : option qty_row) => (c, b))
               df_cat_pref df_brand_pref in
  let step2 :=
    merge_left (fun x : qty_row * option qty_row => qty_email (fst x))
               (fun p : qty_row * option string => qty_email (fst p))
               (fun x p => (x, p)) step1 df_prod_fav in
  merge_left
    (fun x : qty_row * option qty_row * option (qty_row * option string) =>
       qty_email (fst (fst x)))
    (fun a : string * string => fst a)
    (fun x a =>
       let '(c, b, p) := x in
       mkPref (qty_email c) (qty_value c)
              (option_map qty_value b)
              (option_map (fun p : qty_row * option string => qty_value (fst p)) p)
              (option_map (fun p : qty_row * option string => qty_total (fst p)) p)
              (match p with Some p => snd p | None => None end)
              (option_map snd a))
    step2 df_invoice_a.

(** [_analyze_preferences]: the [sku] columns of the caller's items and
    catalog are assigned before anything is copied. *)
Definition _analyze_preferences (orders : list order)
  : M store (list pref_row) :=
  frame_items <- gets items_df ;;
  match frame_items with
  | NoColumns => raise (KeyError "sku")
  | Frame items =>
      let items := map normalize_item items in
      modify (set_items (Frame items)) ;;;
      frame_catalog <- gets catalog_df ;;
      match frame_catalog with
      | NoColumns => raise (KeyError "sku")
      | Frame catalog =>
          let catalog := map normalize_catalog catalog in
          modify (set_catalog (Frame catalog)) ;;;
          ret (merge_preferences (item_lines items catalog) catalog orders)
      end
  end.

(** A row of the merged frame: the customer columns and, for the same
    e-mail, the metrics, the KPIs and the preferences. *)
Record merged_row : Type := mkMerged {
  m_info : customer_info;
  m_fm : fm_row;
  m_recency : option recency_row;
  m_kpi : option kpi_row;
  m_pref : option pref_row
}.

(** [_merge_all_data] *)
Definition _merge_all_data (customers : list customer_info)
           (df_rfm : list (fm_row * option recency_row))
           (df_kpis : list kpi_row) (df_prefs : list pref_row)
  : list merged_row :=
  let df_final :=
    merge_left (fun x : fm_row * option recency_row => fm_Customer_Email (fst x))
               kpi_Customer_Email (fun x k => (x, k)) df_rfm df_kpis in
  let df_final :=
    merge_left
      (fun x : fm_row * option recency_row * option kpi_row =>
         fm_Customer_Email (fst (fst x)))
      pref_Customer_Email (fun x p => (x, p)) df_final df_prefs in
  merge_inner
    info_email
    (fun x : fm_row * option recency_row * option kpi_row * option pref_row =>
       fm_Customer_Email (fst (fst (fst x))))
    (fun c x => let '(f, r, k, p) := x in mkMerged c f r k p)
    customers df_final.

(** A row of the output.  The date columns and the columns left out of the
    frames above are not shown. *)
Record RFMRecord : Type := mkRecord {
  Name : string;
  Email : string;
  Customer_ID : string;
  Tiene_Factura_A : option string;
  LTV_Gasto_Total : string;
  Ticket_Promedio_Mensual : string;
  Gasto_Promedio_Compra : string;
  Gasto_Maximo_Compra : string;
  Gasto_Minimo_Compra : string;
  Frecuencia : Z;
  Recencia_Dias : option Z;
  Tiempo_Promedio_Entre_Compras : option Q;
  Dias_Como_Cliente : Z;
  Categoria_Preferida : option string;
  Marca_Preferida : option string;
  Producto_Favorito_SKU : option string;
  Producto_Favorito_Nombre : option string;
  Producto_Favorito_Qty : option Z
}.

Definition money (q : Q) : string := format_to_comma_decimal (Some (Fin q)).

Definition format_row (m : merged_row) : RFMRecord :=
  let f := m_fm m in
  let of_pref {A : Type} (g : pref_row -> option A) : option A :=
    match m_pref m with Some p => g p | None => None end in
  mkRecord (info_Name (m_info m))
           (fm_Customer_Email f)
           (info_ID (m_info m))
           (of_pref pref_Tiene_Factura_A)
           (money (fm_LTV_Gasto_Total f))
           (money (fm_Ticket_Promedio_Mensual f))
           (money (fm_Gasto_Promedio_Compra f))
           (money (fm_Gasto_Maximo_Compra f))
           (money (fm_Gasto_Minimo_Compra f))
           (fm_Frecuencia f)
           (option_map rec_Recencia_Dias (m_recency m))
           (match m_kpi m with
            | Some k => kpi_Tiempo_Promedio_Entre_Compras k
            | None => None
            end)
           (fm_Dias_Como_Cliente f)
           (of_pref (fun p => Some (pref_Categoria_Preferida p)))
           (of_pref pref_Marca_Preferida)
           (of_pref pref_Producto_Favorito_SKU)
           (of_pref pref_Producto_Favorito_Nombre)
           (of_pref pref_Producto_Favorito_Qty).

(** [_format_output] *)
Definition _format_output (df : list merged_row) : list RFMRecord :=
  map format_row df.

Section Process.
Context {S C O R K P F Out : Type}.
Variable clean_data : M S (C * O).
Variable calculate_rfm_metrics : O -> M S R.
Variable calculate_additional_kpis : O -> M S K.
Variable analyze_preferences : O -> M S P.
Variable merge_all_data : C -> R -> K -> P -> M S F.
Variable format_output : F -> M S Out.

(** The body of the [try] of [process]: the six stages in their order. *)
Definition stages : M S Out :=
  cleaned <- clean_data ;;
  let (customers, orders) := cleaned : C * O in
  df_rfm <- calculate_rfm_metrics orders ;;
  df_kpis <- calculate_additional_kpis orders ;;
  df_prefs <- analyze_preferences orders ;;
  df_final <- merge_all_data customers df_rfm df_kpis df_prefs ;;
  format_output df_final.

(** [process], whatever the stages do: every exception of the body is
    replaced by one [DataProcessingError]. *)
Definition process_with : M S Out :=
  try_except stages
    (fun e =>
       raise (DataProcessingError ("RFM processing failed: " ++ str_exn e)
                                  (Some "process"))).
End Process.

(** [RFMProcessor.process] on the four frames of the caller. *)
Definition process (self : RFMProcessor) : M store (list RFMRecord) :=
  process_with
    (_clean_data self)
    (fun orders => ret (_calculate_rfm_metrics self orders))
    (fun orders => ret (_calculate_additional_kpis orders))
    _analyze_preferences
    (fun customers df_rfm df_kpis df_prefs =>
       ret (_merge_all_data customers df_rfm df_kpis df_prefs))
    (fun df_final => ret (_format_output df_final)).

(** The names of the six stages, as the methods are called. *)
Definition stage_names : list string :=
  ["_clean_data"; "_calculate_rfm_metrics"; "_calculate_additional_kpis";
   "_analyze_preferences"; "_merge_all_data"; "_format_output"].

End RFM.

(** ** The properties of the specification, in the terms of the model *)

(** A SKU text once its surrounding whitespace and its spaces are gone. *)
Definition cleaned_sku (s : string) : string :=
  replace " " EmptyString (strip s).

(** The specification's rule for the SKU [s] under the normalisation
    [norm]: a numeric SKU becomes a zero-padded text of width 5, any other
    SKU only loses its whitespace. *)
Definition spec_sku_rule (norm : option string -> string) (s : string) : Prop :=
  let t := cleaned_sku s in
  (isdigit t = true ->
   norm (Some s) = zfill 5 t /\ String.length (norm (Some s)) = 5%nat)
  /\ (isdigit t = false -> norm (Some s) = t).

(** Closeness of two floats as [math.isclose] measures it by default: a
    relative tolerance of one part in a thousand million. *)
Definition isclose (a b : Q) : Prop :=
  (Qabs (a - b) <= (1 # 1000000000) * Qabs a
   \/ Qabs (a - b) <= (1 # 1000000000) * Qabs b)%Q.

(** The value that [.2f] shows for [q]. *)
Definition shown_value (q : Q) : Q :=
  if Qltb q 0 then (- (cents q # 100))%Q else (cents q # 100)%Q.

(** An order of the caller's frame passes the filter on the year. *)
Definition eligible (self : RFM.RFMProcessor) (o : RFM.raw_order) : bool :=
  match to_datetime (RFM.Purchase_Date o) with
  | Some d => RFM.min_year self <=? year d
  | None => false
  end.

(** Two e-mail texts are the same up to the case of their letters. *)
Definition same_email (a b : string) : bool :=
  String.eqb (lower a) (lower b).

(** The eligible orders of the customer with e-mail [e]. *)
Definition eligible_orders (self : RFM.RFMProcessor)
           (orders : list RFM.raw_order) (e : string) : list RFM.raw_order :=
  filter (fun o => eligible self o
                   && same_email (str_of_cell (RFM.Customer_Email o)) e)
         orders.

(** The eligible orders whose e-mail, put in lower case, is the text [e]. *)
Definition eligible_with_email (self : RFM.RFMProcessor)
           (orders : list RFM.raw_order) (e : string) : list RFM.raw_order :=
  filter (fun o => eligible self o
                   && String.eqb (lower (str_of_cell (RFM.Customer_Email o))) e)
         orders.

(** [e] is the e-mail of an eligible order, in lower case. *)
Definition is_eligible_email (self : RFM.RFMProcessor)
           (orders : list RFM.raw_order) (e : string) : bool :=
  existsb (fun o => eligible self o
                    && String.eqb (lower (str_of_cell (RFM.Customer_Email o))) e)
          orders.

(** [e] is the e-mail of a customer of the input, in lower case. *)
Definition is_customer_email (customers : list RFM.customer) (e : string)
  : bool :=
  existsb (fun c => String.eqb (lower (str_of_cell (RFM.email c))) e) customers.

(** The grand total of an order as a number: nothing counts as zero. *)
Definition grand_total (o : RFM.raw_order) : Q :=
  match RFM.Grand_Total o with Some q => q | None => 0%Q end.

(** The row of the filtered frame for an order whose date was read. *)
Definition kept (o : RFM.raw_order) : list RFM.order :=
  match to_datetime (RFM.Purchase_Date o) with
  | Some d =>
      [RFM.mkOrder (RFM.ID o) (lower (str_of_cell (RFM.Customer_Email o))) d
                   (grand_total o) (RFM.Status o) (RFM.Payment_Method o)]
  | None => []
  end.

(** The key of a customer: the e-mail in lower case. *)
Definition customer_key (c : RFM.customer) : string :=
  lower (str_of_cell (RFM.email c)).

(** The key of a catalog entry: the normalised SKU. *)
Definition catalog_key (c : RFM.catalog_row) : string :=
  normalize_sku_column (RFM.catalog_sku c).

(** The quantity that customer [e] bought of the value [v] of column
    [col]. *)
Definition bought (col : RFM.item_line -> string) (e v : string)
           (df_items : list RFM.item_line) : Z :=
  RFM.sumZ
    (map RFM.qty_of
         (filter (fun l => String.eqb (RFM.line_Customer_Email l) e
                           && String.eqb (col l) v)
                 df_items)).

(** The first-occurrence rule of the specification: the quantities are
    summed per value in the order in which the values first occur in the
    rows of the customer, and the first value with the largest sum wins. *)
Fixpoint add_in_order (v : string) (q : Z) (acc : list (string * Z))
  : list (string * Z) :=
  match acc with
  | [] => [(v, q)]
  | (v', q') :: rest =>
      if String.eqb v v' then (v', q' + q) :: rest
      else (v', q') :: add_in_order v q rest
  end.

Definition spec_first_occurrence (col : RFM.item_line -> string) (e : string)
           (df_items : list RFM.item_line) : option string :=
  option_map fst
    (idxmax snd
       (fold_left
          (fun acc l => add_in_order (col l) (RFM.qty_of l) acc)
          (filter (fun l => String.eqb (RFM.line_Customer_Email l) e) df_items)
          [])).

(** The error [err] names the stage [name]: in its [operation] or
    somewhere in its message. *)
Definition names_stage (err : pyexn) (name : string) : Prop :=
  match err with
  | DataProcessingError message operation =>
      operation = Some name \/ RFM.contains name message = true
  | _ => False
  end.

Section StageFailure.
Context {S C O R K P F Out : Type}.
Variable clean_data : M S (C * O).
Variable calculate_rfm_metrics : O -> M S R.
Variable calculate_additional_kpis : O -> M S K.
Variable analyze_preferences : O -> M S P.
Variable merge_all_data : C -> R -> K -> P -> M S F.
Variable format_output : F -> M S Out.

(** [raised_in name st e st']: started in [st], the pipeline reaches the
    stage [name], which raises [e] and leaves the state [st']. *)
Inductive raised_in : string -> S -> pyexn -> S -> Prop :=
| raised_in_clean_data st e st' :
    clean_data st = (inl e, st') ->
    raised_in "_clean_data" st e st'
| raised_in_rfm_metrics st c o st1 e st' :
    clean_data st = (inr (c, o), st1) ->
    calculate_rfm_metrics o st1 = (inl e, st') ->
    raised_in "_calculate_rfm_metrics" st e st'
| raised_in_additional_kpis st c o st1 r st2 e st' :
    clean_data st = (inr (c, o), st1) ->
    calculate_rfm_metrics o st1 = (inr r, st2) ->
    calculate_additional_kpis o st2 = (inl e, st') ->
    raised_in "_calculate_additional_kpis" st e st'
| raised_in_preferences st c o st1 r st2 k st3 e st' :
    clean_data st = (inr (c, o), st1) ->
    calculate_rfm_metrics o st1 = (inr r, st2) ->
    calculate_additional_kpis o st2 = (inr k, st3) ->
    analyze_preferences o st3 = (inl e, st') ->
    raised_in "_analyze_preferences" st e st'
| raised_in_merge st c o st1 r st2 k st3 p st4 e st' :
    clean_data st = (inr (c, o), st1) ->
    calculate_rfm_metrics o st1 = (inr r, st2) ->
    calculate_additional_kpis o st2 = (inr k, st3) ->
    analyze_preferences o st3 = (inr p, st4) ->
    merge_all_data c r k p st4 = (inl e, st') ->
    raised_in "_merge_all_data" st e st'
| raised_in_format st c o st1 r st2 k st3 p st4 f st5 e st' :
    clean_data st = (inr (c, o), st1) ->
    calculate_rfm_metrics o st1 = (inr r, st2) ->
    calculate_additional_kpis o st2 = (inr k, st3) ->
    analyze_preferences o st3 = (inr p, st4) ->
    merge_all_data c r k p st4 = (inr f, st5) ->
    format_output f st5 = (inl e, st') ->
    raised_in "_format_output" st e st'.
End StageFailure.

(** What [process] returns when no stage raises, as a function of the rows
    of the four frames. *)
Definition clean_customers (customers : list RFM.customer)
  : list RFM.customer_info :=
  map (fun c =>
         RFM.mkInfo (customer_key c)
           (match strip (RFM.fillna_str (RFM.firstname c) ++ " "
                         ++ RFM.fillna_str (RFM.lastname c)) with
            | EmptyString => "Sin Nombre"
            | name => name
            end)
           (RFM.str_of_Z (RFM.id c))
           (to_datetime (RFM.created_at c)))
      customers.

Definition eligible_rows (self : RFM.RFMProcessor) (orders : list RFM.raw_order)
  : list RFM.order :=
  RFM.filter_year self (map RFM.clean_row orders).

Definition merged_frame (self : RFM.RFMProcessor)
           (customers : list RFM.customer) (orders : list RFM.raw_order)
           (catalog : list RFM.catalog_row) (items : list RFM.item_row)
  : list RFM.merged_row :=
  let catalog := map RFM.normalize_catalog catalog in
  let items := map RFM.normalize_item items in
  let eligible := eligible_rows self orders in
  RFM._merge_all_data
    (clean_customers customers)
    (RFM._calculate_rfm_metrics self eligible)
    (RFM._calculate_additional_kpis eligible)
    (RFM.merge_preferences (RFM.item_lines items catalog) catalog eligible).

(** ** Notions used in the proofs about grouped frames *)

(** Every character of the text satisfies [p]. *)
Fixpoint all_chars (p : ascii -> bool) (s : string) : bool :=
  match s with
  | String c rest => p c && all_chars p rest
  | EmptyString => true
  end.

(** The character [a] does not occur in the text. *)
Definition absent (a : ascii) (s : string) : bool :=
  all_chars (fun c => negb (Ascii.eqb c a)) s.

(** What the comparison of keys must be: a decidable strict total order. *)
Record order_laws {K : Type} (cmp : K -> K -> comparison) : Prop := {
  cmp_eq : forall x y, cmp x y = Eq <-> x = y;
  cmp_antisym : forall x y, cmp y x = CompOpp (cmp x y);
  cmp_trans : forall x y z, cmp x y = Lt -> cmp y z = Lt -> cmp x z = Lt
}.

Definition key_eqb {K : Type} (cmp : K -> K -> comparison) (x y : K) : bool :=
  match cmp x y with Eq => true | _ => false end.

(** The rows of the group with key [k], none when there is no such
    group. *)
Fixpoint group_of {K A : Type} (cmp : K -> K -> comparison) (k : K)
         (gs : list (K * list A)) : list A :=
  match gs with
  | [] => []
  | g :: rest => if key_eqb cmp k (fst g) then snd g else group_of cmp k rest
  end.

(** The rows come in the strict order of their keys. *)
Inductive increasing {K B : Type} (cmp : K -> K -> comparison)
  : list (K * B) -> Prop :=
| increasing_nil : increasing cmp []
| increasing_cons g gs :
    Forall (fun g' => cmp (fst g) (fst g') = Lt) gs ->
    increasing cmp gs ->
    increasing cmp (g :: gs).

(** The grouping of rows that all have the key [k]. *)
Definition one_group {K A : Type} (k : K) (rows : list A) : list (K * list A) :=
  match rows with
  | [] => []
  | _ => [(k, rows)]
  end.

(** The rows of a frame with the text [e] in the column [col]. *)
Definition where_eq {A : Type} (col : A -> string) (e : string) (df : list A)
  : list A :=
  filter (fun x => String.eqb (col x) e) df.

(** ** Example data *)

(** A processor for the orders from 2024 on, created on 2024-06-26 at
    01:00. *)
Definition example_processor : RFM.RFMProcessor :=
  RFM.mkProcessor 2024 (86400 * 19900 + 3600).

(** Two customers, the first with two orders of 2024 and one of 2021, the
    second without orders; one catalog entry and one order line. *)
Definition example_customers : list RFM.customer :=
  [RFM.mkCustomer 7 (Some "Ana@X.com") (Some "Ana") (Some "Paz")
                  (Some "2023-05-01 10:00:00");
   RFM.mkCustomer 8 (Some "bob@x.com") None None None].

Definition example_orders : list RFM.raw_order :=
  [RFM.mkOrder "100" (Some "ana@x.com") (Some "2024-03-01 10:00:00")
               (Some 500000%Q) (Some "processing") (Val "Tarjeta");
   RFM.mkOrder "101" (Some "ANA@x.com") (Some "2024-04-01 09:30:00")
               (Some 600000%Q) (Some "processing")
               (Val "Transferencia - Factura A");
   RFM.mkOrder "102" (Some "ana@x.com") (Some "2021-04-01 10:00:00")
               (Some 1%Q) (Some "processing") Null].

Definition example_catalog : list RFM.catalog_row :=
  [RFM.mkCatalog (Some "123") (Some "Root/Pisos/Porcelanato")
                 (Some "Acme") (Some "Porcelanato 60x60")].

Definition example_items : list RFM.item_row :=
  [RFM.mkItem "100" (Some "ana@x.com") (Some "00123") (Some 3) (Some 1000%Q)].

Definition example_store : RFM.store :=
  RFM.mkStore (RFM.Frame example_customers) (RFM.OrdersRaw example_orders)
              (RFM.Frame example_catalog) (RFM.Frame example_items).

(** The row that [process] returns for the first customer. *)
Definition example_row : RFM.RFMRecord :=
  RFM.mkRecord "Ana Paz" "ana@x.com" "7" (Some "Sí")
    "1.100.000,00" "285.962,39" "550.000,00" "600.000,00" "500.000,00"
    2 (Some 86) (Some (31 # 1)%Q) 117
    (Some "Porcelanato") (Some "Acme") (Some "00123")
    (Some "Porcelanato 60x60") (Some 3).

(** The same frames when the client found no order line: the items frame
    was built from an empty list. *)
Definition store_without_items : RFM.store :=
  RFM.set_items RFM.NoColumns example_store.

(** One customer whose only order was placed on the day the processor was
    created. *)
Definition same_day_customers : list RFM.customer :=
  [RFM.mkCustomer 9 (Some "eva@x.com") (Some "Eva") None None].

Definition same_day_order : RFM.raw_order :=
  RFM.mkOrder "200" (Some "eva@x.com") (Some "2024-06-26 00:30:00")
              (Some 1500%Q) (Some "processing") Null.

Definition same_day_store : RFM.store :=
  RFM.mkStore (RFM.Frame same_day_customers) (RFM.OrdersRaw [same_day_order])
              (RFM.Frame []) (RFM.Frame []).

(** The row that [process] returns for that customer. *)
Definition same_day_row : RFM.RFMRecord :=
  RFM.mkRecord "Eva" "eva@x.com" "9" None
    "1.500,00" "45.624,00" "1.500,00" "1.500,00" "1.500,00"
    1 (Some 0) None 1 None None None None None.

(** The payment method of an order names an invoice of type A: the cell
    holds a text with the words factura a in it, in whatever case its
    letters are. *)
Definition names_invoice_a (c : cell string) : bool :=
  match c with
  | Val s => RFM.contains "factura a" (lower s)
  | Missing | Null => false
  end.

(** The orders of the example in a frame that has no column
    [Payment_Method], and the row that [process] then returns for the
    first customer. *)
Definition orders_without_method : list RFM.raw_order :=
  map (fun o => RFM.mkOrder (RFM.ID o) (RFM.Customer_Email o)
                            (RFM.Purchase_Date o) (RFM.Grand_Total o)
                            (RFM.Status o) Missing)
      example_orders.

Definition example_row_without_method : RFM.RFMRecord :=
  RFM.mkRecord "Ana Paz" "ana@x.com" "7" None
    "1.100.000,00" "285.962,39" "550.000,00" "600.000,00" "500.000,00"
    2 (Some 86) (Some (31 # 1)%Q) 117
    (Some "Porcelanato") (Some "Acme") (Some "00123")
    (Some "Porcelanato 60x60") (Some 3).

(** A catalog that lists one product under two spellings of its SKU,
    which the normalisation makes equal. *)
Definition two_spellings_catalog : list RFM.catalog_row :=
  [RFM.mkCatalog (Some "123") (Some "Root/Pisos/Porcelanato")
                 (Some "Acme") (Some "Porcelanato 60x60");
   RFM.mkCatalog (Some "00123") (Some "Root/Pisos/Porcelanato")
                 (Some "Acme") (Some "Porcelanato 60 x 60")].

Definition two_spellings_store : RFM.store :=
  RFM.mkStore (RFM.Frame example_customers) (RFM.OrdersRaw example_orders)
              (RFM.Frame two_spellings_catalog) (RFM.Frame example_items).

(** The customers frame with its only customer listed twice. *)
Definition twice_listed_store : RFM.store :=
  RFM.mkStore (RFM.Frame (same_day_customers ++ same_day_customers))
              (RFM.OrdersRaw [same_day_order]) (RFM.Frame []) (RFM.Frame []).

(** Frames whose cells are not yet in their normal form: an e-mail in
    capitals, a date with its time, a missing total, SKUs with blanks and
    without their zeros. *)
Definition raw_cells_store : RFM.store :=
  RFM.mkStore
    (RFM.Frame example_customers)
    (RFM.OrdersRaw
       [RFM.mkOrder "101" (Some "ANA@x.com") (Some "2024-04-01 09:30:00")
                    None (Some "processing") (Val "Tarjeta")])
    (RFM.Frame
       [RFM.mkCatalog (Some "123") (Some "Root/Pisos/Porcelanato")
                      (Some "Acme") (Some "Porcelanato 60x60")])
    (RFM.Frame
       [RFM.mkItem "101" (Some "ana@x.com") (Some " 1 23 ") (Some 3)
                   (Some 1000%Q)]).

(** Two lines of one customer, one unit each, of two categories and two
    brands; the line of category Zeta comes first. *)
Definition tied_lines : list RFM.item_line :=
  [RFM.mkLine "ana@x.com" "00002" (Some 1) "Zeta" "Yunque";
   RFM.mkLine "ana@x.com" "00001" (Some 1) "Alfa" "Martillo"].

(** ** [src/utils/helpers.py]: the cleaning of texts and the batches *)

(** [clean_email]; [None] is a null cell, and the empty text is false in a
    boolean context. *)
Definition clean_email (email : option string) : string :=
  match email with
  | None => EmptyString
  | Some EmptyString => EmptyString
  | Some s => lower (strip s)
  end.

(** [re.sub(r'\s+', ' ', text)]: every run of whitespace becomes one space.
    [in_run] says that the character before was whitespace. *)
Fixpoint sub_whitespace (in_run : bool) (text : string) : string :=
  match text with
  | String c rest =>
      if is_space c
      then if in_run then sub_whitespace true rest
           else String " " (sub_whitespace true rest)
      else String c (sub_whitespace false rest)
  | EmptyString => EmptyString
  end.

(** [clean_text] *)
Definition clean_text (text : option string) : string :=
  match text with
  | None => EmptyString
  | Some EmptyString => EmptyString
  | Some s => sub_whitespace false (strip s)
  end.

(** The exception of the built-in [range]. *)
Inductive builtin_exn : Type :=
| ValueError (msg : string).

(** [range(0, n, step)] for a positive [step]: the multiples of [step]
    below [n]. *)
Definition range_step (n step : nat) : list nat :=
  map (fun k => (k * step)%nat) (seq 0 ((n + step - 1) / step)).

(** [items[i:j]] for [0 <= i <= j]: a slice stops at the end of the list. *)
Definition slice {A : Type} (i j : nat) (items : list A) : list A :=
  firstn (j - i) (skipn i items).

(** [list(batch_items(items, batch_size))].  A step of zero is refused by
    [range]; with a negative step the range from 0 up is empty. *)
Definition batch_items {A : Type} (items : list A) (batch_size : Z)
  : builtin_exn + list (list A) :=
  if batch_size =? 0 then inl (ValueError "range() arg 3 must not be zero")
  else if batch_size <? 0 then inr []
  else
    let size := Z.to_nat batch_size in
    inr (map (fun i => slice i (i + size) items)
             (range_step (List.length items) size)).

(** [format_date_to_dmy] on what [_format_output] passes to it, a
    Timestamp or NaT: [strftime('%d/%m/%Y')], where the year of a
    Timestamp has four digits. *)
Definition format_date_to_dmy (date_value : option date) : string :=
  match date_value with
  | None => "N/A"
  | Some d =>
      two_digits (day d) ++ "/" ++ two_digits (month d) ++ "/"
        ++ digits (year d)
  end.

(** ** [src/processors/scoring.py]: the stages after the score *)

Module MarketingScorer.
Import Scoring.

(** What [segment] and [add_recommendations], which have no [try], let
    through. *)
Inductive exn : Type :=
| KeyError (key : string)
| TypeError (msg : string).

Definition set_Segmento (v : string) (r : row) : row :=
  mkRow (LTV_Gasto_Total r) (Frecuencia r) (Recencia_Dias r) (Subtotal r)
        (Tiene_Factura_A r) (Score_Intencion r) (Val v) (Accion_Sugerida r)
        (Tipo_Cliente r).

Definition set_Accion_Sugerida (v : string) (r : row) : row :=
  mkRow (LTV_Gasto_Total r) (Frecuencia r) (Recencia_Dias r) (Subtotal r)
        (Tiene_Factura_A r) (Score_Intencion r) (Segmento r) (Val v)
        (Tipo_Cliente r).

(** The frame has the column: every row has the key.  A frame is the list
    of its rows, so a frame without rows has every column. *)
Definition has_column {A : Type} (col : row -> cell A) (df : list row) : bool :=
  forallb (fun r => match col r with Missing => false | _ => true end) df.

(** [Series.apply] of a function that may raise, written back row by row. *)
Fixpoint apply_rows (f : row -> exn + row) (df : list row) : exn + list row :=
  match df with
  | [] => inr []
  | r :: rest =>
      match f r with
      | inl e => inl e
      | inr r' =>
          match apply_rows f rest with
          | inl e => inl e
          | inr rs => inr (r' :: rs)
          end
      end
  end.

(** [MarketingScorer.segment]: [get_segment] compares the score with a
    number, which [None] does not allow. *)
Definition segment (df : list row) : exn + list row :=
  if has_column Score_Intencion df
  then
    apply_rows
      (fun r =>
         match Score_Intencion r with
         | Val s => inr (set_Segmento (get_segment s) r)
         | _ =>
             inl (TypeError
                    "'>=' not supported between instances of 'NoneType' and 'int'")
         end)
      df
  else inl (KeyError "Score_Intencion").

(** [MarketingScorer.add_recommendations]: [actions.get] has a default,
    which also serves a segment that is [None]. *)
Definition add_recommendations (df : list row) : exn + list row :=
  if has_column Segmento df
  then
    inr (map (fun r =>
                set_Accion_Sugerida
                  (match Segmento r with
                   | Val s => get_action s
                   | _ => "Automatización suave"
                   end)
                  r)
             df)
  else inl (KeyError "Segmento").

(** [MarketingScorer.process] with the default strategy. *)
Definition process (df : list row) : exn + list row :=
  let df := score df in
  match segment df with
  | inl e => inl e
  | inr df =>
      match add_recommendations df with
      | inl e => inl e
      | inr df => inr (classify_customers df)
      end
  end.

(** The row that the four stages make of a row. *)
Definition processed (r : row) : row :=
  let s := calculate default_thresholds r in
  mkRow (LTV_Gasto_Total r) (Frecuencia r) (Recencia_Dias r) (Subtotal r)
        (Tiene_Factura_A r) (Val s) (Val (get_segment s))
        (Val (get_action (get_segment s))) (Val (get_customer_type r)).

End MarketingScorer.

(** ** [src/processors/rfm.py]: the preferred weekday *)

Module KPIs.
Import RFM.

(** [Timestamp.dayofweek]: Monday is 0; 1970-01-01 was a Thursday. *)
Definition dayofweek (d : date) : Z := (to_days d + 3) mod 7.

(** [day_map.get(d, 'N/A')] *)
Definition day_map (d : Z) : string :=
  if d =? 0 then "Lunes"
  else if d =? 1 then "Martes"
  else if d =? 2 then "Miércoles"
  else if d =? 3 then "Jueves"
  else if d =? 4 then "Viernes"
  else if d =? 5 then "Sábado"
  else if d =? 6 then "Domingo"
  else "N/A".

(** The values of a series with the number of times each occurs, in the
    order of the values. *)
Definition value_counts (x : list Z) : list (Z * list Z) :=
  groupby Z.compare (fun v => v) x.

(** [x.mode()[0]] on a series that is not empty: [mode] lists the values
    that occur most often in increasing order. *)
Definition mode_0 (v : Z) (rest : list Z) : Z :=
  match idxmax (fun g : Z * list Z => Z.of_nat (List.length (snd g)))
               (value_counts (v :: rest)) with
  | Some g => fst g
  | None => v
  end.

(** The row of [df_day_freq] for one group of orders. *)
Definition day_of_group (g : string * list order) : list (string * string) :=
  match map (fun o => dayofweek (Purchase_Date o)) (snd g) with
  | [] => []
  | v :: rest => [(fst g, day_map (mode_0 v rest))]
  end.

(** [df_day_freq] in [_calculate_additional_kpis]: the column
    [Dia_Semana_Max_Frec]. *)
Definition df_day_freq (orders : list order) : list (string * string) :=
  flat_map day_of_group (groupby cmp_str by_email orders).

End KPIs.

(** ** Notions used in the statements about texts *)

(** The text does not begin with whitespace. *)
Definition starts_clean (s : string) : bool :=
  match s with
  | String c _ => negb (is_space c)
  | EmptyString => true
  end.

(** The text does not end with whitespace. *)
Fixpoint ends_clean (s : string) : bool :=
  match s with
  | String c EmptyString => negb (is_space c)
  | String _ rest => ends_clean rest
  | EmptyString => true
  end.

(** No two whitespace characters stand side by side. *)
Fixpoint no_space_runs (s : string) : bool :=
  match s with
  | String a rest =>
      match rest with
      | String b _ => negb (is_space a && is_space b) && no_space_runs rest
      | EmptyString => true
      end
  | EmptyString => true
  end.

(** The number of times [v] occurs in [x]. *)
Definition occurrences (v : Z) (x : list Z) : nat :=
  List.length (filter (Z.eqb v) x).

(** * Proofs *)

(** ** The marketing scorer *)

Lemma Qle_bool_eq_l (q q' t : Q) : (q == q')%Q -> Qle_bool q t = Qle_bool q' t.
Proof.
  intros H. apply Bool.eq_iff_eq_true. rewrite !Qle_bool_iff, H. reflexivity.
Qed.

Lemma Qle_bool_eq_r (q q' t : Q) : (q == q')%Q -> Qle_bool t q = Qle_bool t q'.
Proof.
  intros H. apply Bool.eq_iff_eq_true. rewrite !Qle_bool_iff, H. reflexivity.
Qed.

Lemma fgt_float_or_0 (c : cell pyfloat) (t : Q) :
  Scoring.fgt (Scoring.float_or 0 c) t = Scoring.fgt (Scoring.signal 0 c) t.
Proof.
  destruct c as [| |[q|]]; simpl; try reflexivity.
  destruct (Qeq_bool q 0) eqn:E; simpl; try reflexivity.
  apply Qeq_bool_iff in E. unfold Qltb. f_equal.
  symmetry. now apply Qle_bool_eq_l.
Qed.

Lemma fge_float_or_0 (c : cell pyfloat) (t : Q) :
  Scoring.fge (Scoring.float_or 0 c) t = Scoring.fge (Scoring.signal 0 c) t.
Proof.
  destruct c as [| |[q|]]; simpl; try reflexivity.
  destruct (Qeq_bool q 0) eqn:E; simpl; try reflexivity.
  apply Qeq_bool_iff in E. symmetry. now apply Qle_bool_eq_r.
Qed.

Lemma int_or_0 (c : cell Z) : Scoring.int_or 0 c = Scoring.count_signal c.
Proof.
  destruct c as [| |z]; simpl; try reflexivity.
  destruct (Z.eqb_spec z 0); congruence.
Qed.

Lemma ltv_points_read (c : cell pyfloat) :
  Scoring.spec_ltv_points (Scoring.float_or 0 c)
  = Scoring.spec_ltv_points (Scoring.signal 0 c).
Proof. unfold Scoring.spec_ltv_points. now rewrite !fgt_float_or_0. Qed.

Lemma cart_points_read (c : cell pyfloat) :
  Scoring.spec_cart_points (Scoring.float_or 0 c)
  = Scoring.spec_cart_points (Scoring.signal 0 c).
Proof. unfold Scoring.spec_cart_points. now rewrite !fge_float_or_0. Qed.

Lemma calculate_components (r : Scoring.row) :
  Scoring.calculate Scoring.default_thresholds r
  = Scoring.spec_ltv_points (Scoring.float_or 0 (Scoring.LTV_Gasto_Total r))
    + Scoring.spec_frequency_points (Scoring.int_or 0 (Scoring.Frecuencia r))
    + Scoring.spec_recency_points (Scoring.float_or 9999 (Scoring.Recencia_Dias r))
    + Scoring.spec_cart_points (Scoring.float_or 0 (Scoring.Subtotal r)).
Proof.
  unfold Scoring.calculate, Scoring.spec_ltv_points,
    Scoring.spec_frequency_points, Scoring.spec_recency_points,
    Scoring.spec_cart_points.
  cbn [Scoring.high_value Scoring.medium_value Scoring.high_frequency
       Scoring.medium_frequency Scoring.recent_days Scoring.medium_days
       Scoring.high_cart_value Scoring.medium_cart_value
       Scoring.default_thresholds].
  rewrite !Z.geb_leb.
  repeat match goal with
         | |- context [if ?b then _ else _] => destruct b
         end; reflexivity.
Qed.

Lemma component_bounds (a : pyfloat) (f : Z) (d s : pyfloat) :
  0 <= Scoring.spec_ltv_points a <= 30
  /\ 0 <= Scoring.spec_frequency_points f <= 30
  /\ 0 <= Scoring.spec_recency_points d <= 20
  /\ 0 <= Scoring.spec_cart_points s <= 20.
Proof.
  unfold Scoring.spec_ltv_points, Scoring.spec_frequency_points,
    Scoring.spec_recency_points, Scoring.spec_cart_points.
  repeat match goal with
         | |- context [if ?b then _ else _] => destruct b
         end; lia.
Qed.

(** The score of [calculate] is the sum of the four component scores of
    the specification once the recency is read by [recency_read]; it lies
    between 0 and 100, and [score] writes it in every row. *)
Lemma calculate_as_read (r : Scoring.row) :
  Scoring.calculate Scoring.default_thresholds r
  = Scoring.spec_ltv_points (Scoring.signal 0 (Scoring.LTV_Gasto_Total r))
    + Scoring.spec_frequency_points (Scoring.count_signal (Scoring.Frecuencia r))
    + Scoring.spec_recency_points (Scoring.recency_read (Scoring.Recencia_Dias r))
    + Scoring.spec_cart_points (Scoring.signal 0 (Scoring.Subtotal r))
  /\ 0 <= Scoring.calculate Scoring.default_thresholds r <= 100
  /\ forall df : list Scoring.row,
      map Scoring.Score_Intencion (Scoring.score df)
      = map (fun r => Val (Scoring.calculate Scoring.default_thresholds r)) df.
Proof.
  rewrite calculate_components, ltv_points_read, cart_points_read, int_or_0.
  split; [reflexivity|]. split.
  - pose proof (component_bounds
                  (Scoring.signal 0 (Scoring.LTV_Gasto_Total r))
                  (Scoring.count_signal (Scoring.Frecuencia r))
                  (Scoring.float_or 9999 (Scoring.Recencia_Dias r))
                  (Scoring.signal 0 (Scoring.Subtotal r))).
    lia.
  - intros df. unfold Scoring.score. rewrite map_map. reflexivity.
Qed.

(** Away from a recorded zero the recency is read as it stands. *)
Lemma recency_read_signal (c : cell pyfloat) :
  Scoring.recorded_zero c = false ->
  Scoring.recency_read c = Scoring.signal 9999 c.
Proof.
  destruct c as [| |[q|]]; try reflexivity.
  unfold Scoring.recorded_zero, Scoring.recency_read, Scoring.float_or,
    Scoring.signal.
  now intros ->.
Qed.

(** C3.  On the row of a customer whose last purchase was made today
    (value 500,000, two orders, a recency of 0 days) the four component
    scores of the specification add up to 50 and [calculate] returns 30:
    the recency is read with [or 9999], which takes the recorded 0 for an
    absent value, so the most recent customers earn none of the 20 points
    of [recencia <= recent_days].  On every row whose recency is not a
    recorded zero, [calculate] returns the sum of the specification, which
    lies between 0 and 100. *)
Theorem score_recency_zero :
  let r := Scoring.mkRow (Val (Fin 500000)) (Val 2) (Val (Fin 0)) Missing
                         (Val "No") Missing Missing Missing Missing in
  Scoring.spec_score r = 50
  /\ Scoring.calculate Scoring.default_thresholds r = 30
  /\ forall r' : Scoring.row,
      Scoring.recorded_zero (Scoring.Recencia_Dias r') = false ->
      Scoring.calculate Scoring.default_thresholds r' = Scoring.spec_score r'
      /\ 0 <= Scoring.spec_score r' <= 100.
Proof.
  split; [reflexivity|]. split; [reflexivity|].
  intros r' Z. destruct (calculate_as_read r') as (E & B & _).
  rewrite (recency_read_signal _ Z) in E.
  fold (Scoring.spec_score r') in E. rewrite <- E. split; [reflexivity|exact B].
Qed.

(** The flag that [get_customer_type] reads is the flag of the
    specification: a row without the key is read as No, and [None] as the
    text None. *)
Lemma flag_read (r : Scoring.row) :
  Scoring.invoice_flag_set r
  = Scoring.spec_invoice_flag (Scoring.Tiene_Factura_A r).
Proof.
  unfold Scoring.invoice_flag_set.
  destruct (Scoring.Tiene_Factura_A r); reflexivity.
Qed.

Lemma customer_type_as_read (r : Scoring.row) :
  Scoring.get_customer_type r
  = Scoring.spec_customer_type
      (Scoring.invoice_flag_set r)
      (Scoring.signal 0 (Scoring.LTV_Gasto_Total r))
      (Scoring.count_signal (Scoring.Frecuencia r)).
Proof.
  unfold Scoring.get_customer_type, Scoring.spec_customer_type,
    Scoring.invoice_flag_set.
  rewrite fge_float_or_0, int_or_0, !Z.geb_leb.
  unfold Scoring.VIP_LTV_THRESHOLD, Scoring.VIP_FREQUENCY_THRESHOLD,
    Scoring.RECURRENT_THRESHOLD.
  repeat match goal with
         | |- context [if ?b then _ else _] => destruct b eqn:?
         end; simpl in *; try reflexivity; try discriminate;
    repeat match goal with
           | H : (_ || _)%bool = _ |- _ => rewrite H in *
           | H : Scoring.fge _ _ = _ |- _ => rewrite H in *
           | H : (_ <=? _) = _ |- _ => rewrite H in *
           end; simpl in *; try discriminate.
Qed.

(** C5.  The customer type is VIP when the invoice flag is set or the value
    is at least 1,000,000 or the frequency is at least 5, otherwise
    Recurrente when the frequency is at least 2, otherwise Nuevo, and
    [classify_customers] writes it in every row.  The flag is the text of
    the row's own cell: sí or si in any letter case and with blanks around
    it sets it, and No, a missing cell and an empty cell do not.  So a set
    flag gives VIP whatever the value and the frequency, and without it a
    small customer is Nuevo, one with two orders Recurrente, and one with
    five orders or a value of 1,000,000 VIP. *)
Theorem customer_type_rule (r : Scoring.row) :
  Scoring.get_customer_type r
  = Scoring.spec_customer_type
      (Scoring.spec_invoice_flag (Scoring.Tiene_Factura_A r))
      (Scoring.signal 0 (Scoring.LTV_Gasto_Total r))
      (Scoring.count_signal (Scoring.Frecuencia r))
  /\ (forall (ltv : pyfloat) (frequency : Z),
        Scoring.spec_customer_type true ltv frequency = "VIP")
  /\ (Scoring.spec_invoice_flag (Val "Sí") = true
      /\ Scoring.spec_invoice_flag (Val "si") = true
      /\ Scoring.spec_invoice_flag (Val " SI ") = true
      /\ Scoring.spec_invoice_flag (Val "No") = false
      /\ Scoring.spec_invoice_flag (Val EmptyString) = false
      /\ Scoring.spec_invoice_flag Missing = false
      /\ Scoring.spec_invoice_flag Null = false)
  /\ (forall d s x y z w,
        Scoring.get_customer_type
          (Scoring.mkRow (Val (Fin 1000)) (Val 1) d s (Val "Sí") x y z w)
        = "VIP"
        /\ Scoring.get_customer_type
             (Scoring.mkRow (Val (Fin 1000)) (Val 1) d s (Val "No") x y z w)
           = "Nuevo"
        /\ Scoring.get_customer_type
             (Scoring.mkRow (Val (Fin 1000)) (Val 1) d s Missing x y z w)
           = "Nuevo"
        /\ Scoring.get_customer_type
             (Scoring.mkRow (Val (Fin 1000)) (Val 2) d s Null x y z w)
           = "Recurrente"
        /\ Scoring.get_customer_type
             (Scoring.mkRow (Val (Fin 999999)) (Val 4) d s (Val "No") x y z w)
           = "Recurrente"
        /\ Scoring.get_customer_type
             (Scoring.mkRow (Val (Fin 1000)) (Val 5) d s (Val "No") x y z w)
           = "VIP"
        /\ Scoring.get_customer_type
             (Scoring.mkRow (Val (Fin 1000000)) (Val 1) d s Missing x y z w)
           = "VIP")
  /\ forall df : list Scoring.row,
      map Scoring.Tipo_Cliente (Scoring.classify_customers df)
      = map (fun r => Val (Scoring.get_customer_type r)) df.
Proof.
  split; [rewrite customer_type_as_read; now rewrite flag_read|].
  split; [reflexivity|].
  split; [repeat split|].
  split; [intros d s x y z w; repeat split|].
  intros df. unfold Scoring.classify_customers. rewrite map_map. reflexivity.
Qed.

(** ** SKU normalisation *)

Lemma length_zeros (n : nat) : String.length (zeros n) = n.
Proof. induction n; simpl; congruence. Qed.

Lemma length_append (a b : string) :
  String.length (a ++ b) = (String.length a + String.length b)%nat.
Proof. induction a; simpl; congruence. Qed.

Lemma digit_is_no_sign (c : ascii) :
  is_digit c = true -> (Ascii.eqb c "+" || Ascii.eqb c "-")%bool = false.
Proof.
  destruct c as [[] [] [] [] [] [] [] []]; vm_compute; congruence.
Qed.

Lemma zfill_digits (t : string) :
  isdigit t = true -> zfill 5 t = zeros (5 - String.length t) ++ t.
Proof.
  intros H. unfold zfill.
  destruct (Nat.leb_spec 5 (String.length t)) as [L|L].
  - replace (5 - String.length t)%nat with 0%nat by lia. reflexivity.
  - destruct t as [|c rest]; [discriminate|].
    simpl in H. apply andb_prop in H. destruct H as [H _].
    now rewrite (digit_is_no_sign c H).
Qed.

(** C7, as the code has it.  Once the surrounding whitespace and the
    spaces are removed, a SKU of digits is padded with zeros on the left up
    to five characters, and kept as it is when it has five digits or more,
    by [normalize_sku] and by the normalisation of the [sku] columns before
    the join alike; [normalize_sku] returns any other SKU as the removal
    left it. *)
Theorem sku_normalization (s : string) :
  (isdigit (cleaned_sku s) = true ->
   normalize_sku (Some s)
   = zeros (5 - String.length (cleaned_sku s)) ++ cleaned_sku s
   /\ normalize_sku_column (Some s) = normalize_sku (Some s)
   /\ String.length (normalize_sku (Some s))
      = Nat.max 5 (String.length (cleaned_sku s)))
  /\ (isdigit (cleaned_sku s) = false ->
      normalize_sku (Some s) = cleaned_sku s).
Proof.
  unfold normalize_sku, normalize_sku_column, str_of_cell.
  fold (cleaned_sku s). generalize (cleaned_sku s) as t. intros t.
  split; intros H; rewrite H; [|reflexivity].
  rewrite (zfill_digits _ H). repeat split.
  rewrite length_append, length_zeros.
  destruct (Nat.max_spec 5 (String.length t)) as [[? ->]|[? ->]]; lia.
Qed.

Lemma sku_normalization_witness :
  normalize_sku (Some "123") = "00123"
  /\ normalize_sku (Some "12 34") = "01234"
  /\ normalize_sku_column (Some " 12 34 ") = "01234"
  /\ normalize_sku (Some " AB 1 ") = "AB1".
Proof.
  split; [|split; [|split]].
  - exact (proj1 (proj1 (sku_normalization "123") eq_refl)).
  - exact (proj1 (proj1 (sku_normalization "12 34") eq_refl)).
  - exact (proj1 (proj2 (proj1 (sku_normalization " 12 34 ") eq_refl))).
  - exact (proj2 (sku_normalization " AB 1 ") eq_refl).
Defined.

(** C7, as the specification states it, fails on a numeric SKU of more
    than five digits: it is numeric and its normal form is six characters
    wide, on both sides of the join. *)
Lemma sku_width_counterexample :
  ~ spec_sku_rule normalize_sku "123456"
  /\ ~ spec_sku_rule normalize_sku_column "123456".
Proof.
  split; intros [H _]; destruct (H eq_refl) as [_ L]; discriminate L.
Qed.

(** The normalisation before the join pads every short SKU, numeric or
    not, where [normalize_sku] pads the numeric ones only. *)
Lemma sku_column_pads_any_text :
  normalize_sku_column (Some "AB") = "000AB"
  /\ normalize_sku (Some "AB") = "AB".
Proof. split; reflexivity. Qed.

(** Runs the computation on the left of an equation. *)
Ltac run_left :=
  match goal with
  | |- ?lhs = _ =>
      let v := eval vm_compute in lhs in
      transitivity v; [vm_compute; reflexivity | reflexivity]
  end.

(** ** Failure of a stage *)

(** C9, as the code has it.  When a stage raises, whichever stage it is,
    [process] raises one [DataProcessingError] and returns no frame; the
    error carries the text of the exception in its message and, as its
    operation, the name [process] of the method, which is the same for
    every stage. *)
Theorem process_wraps_stage_failure
        {S C O R K P F Out : Type}
        (clean_data : M S (C * O)) (calculate_rfm_metrics : O -> M S R)
        (calculate_additional_kpis : O -> M S K)
        (analyze_preferences : O -> M S P)
        (merge_all_data : C -> R -> K -> P -> M S F)
        (format_output : F -> M S Out)
        (name : string) (st st' : S) (e : pyexn) :
  raised_in clean_data calculate_rfm_metrics calculate_additional_kpis
            analyze_preferences merge_all_data format_output name st e st' ->
  RFM.process_with clean_data calculate_rfm_metrics calculate_additional_kpis
                   analyze_preferences merge_all_data format_output st
  = (inl (DataProcessingError ("RFM processing failed: " ++ str_exn e)
                              (Some "process")), st')
  /\ In name RFM.stage_names.
Proof.
  intros H. unfold RFM.process_with, try_except, RFM.stages, bind, raise.
  destruct H;
    repeat match goal with
           | H : _ = (_, _) |- _ => rewrite H; clear H
           end;
    (split; [reflexivity | simpl; tauto]).
Qed.

Lemma process_wraps_stage_failure_witness :
  RFM.process example_processor store_without_items
  = (inl (DataProcessingError "RFM processing failed: 'sku'" (Some "process")),
     snd (RFM.process example_processor store_without_items))
  /\ In "_analyze_preferences" RFM.stage_names.
Proof.
  unfold RFM.process.
  eapply (process_wraps_stage_failure _ _ _ _ _ _ "_analyze_preferences"
            _ _ (KeyError "sku")).
  eapply raised_in_preferences; run_left.
Defined.

(** Whatever [process] raises is such an error. *)
Lemma process_raises_processing_errors
      {S C O R K P F Out : Type}
      (clean_data : M S (C * O)) (calculate_rfm_metrics : O -> M S R)
      (calculate_additional_kpis : O -> M S K)
      (analyze_preferences : O -> M S P)
      (merge_all_data : C -> R -> K -> P -> M S F)
      (format_output : F -> M S Out) (st st' : S) (err : pyexn) :
  RFM.process_with clean_data calculate_rfm_metrics calculate_additional_kpis
                   analyze_preferences merge_all_data format_output st
  = (inl err, st') ->
  exists e,
    RFM.stages clean_data calculate_rfm_metrics calculate_additional_kpis
               analyze_preferences merge_all_data format_output st
    = (inl e, st')
    /\ err = DataProcessingError ("RFM processing failed: " ++ str_exn e)
                                 (Some "process").
Proof.
  unfold RFM.process_with, try_except, raise.
  destruct (RFM.stages _ _ _ _ _ _ st) as [[e|v] st1]; intros [= <- <-].
  now exists e.
Qed.

(** C9, as the specification states it, fails when the items frame has no
    columns: the exception is raised in [_analyze_preferences], and the
    error that [process] raises names that stage neither in its operation
    nor in its message. *)
Lemma stage_name_counterexample :
  exists st' err,
    raised_in (RFM._clean_data example_processor)
              (fun orders =>
                 ret (RFM._calculate_rfm_metrics example_processor orders))
              (fun orders => ret (RFM._calculate_additional_kpis orders))
              RFM._analyze_preferences
              (fun customers df_rfm df_kpis df_prefs =>
                 ret (RFM._merge_all_data customers df_rfm df_kpis df_prefs))
              (fun df_final => ret (RFM._format_output df_final))
              "_analyze_preferences" store_without_items (KeyError "sku") st'
    /\ RFM.process example_processor store_without_items = (inl err, st')
    /\ ~ names_stage err "_analyze_preferences".
Proof.
  eexists. eexists. split; [|split].
  - eapply raised_in_preferences; run_left.
  - run_left.
  - simpl. intros [H|H]; discriminate H.
Qed.

(** ** What [process] returns and what it writes *)

(** Unfolds [process] down to the frames it reads. *)
Ltac unfold_process :=
  cbv beta iota zeta delta
      [RFM.process RFM.process_with try_except RFM.stages RFM._clean_data
       RFM._analyze_preferences bind gets modify ret raise
       RFM.customers_df RFM.orders_df RFM.catalog_df RFM.items_df
       RFM.set_orders RFM.set_items RFM.set_catalog
       RFM._extract_customer_fields fst snd].

Lemma clean_customers_eq (customers : list RFM.customer) extracted :
  RFM._extract_customer_fields (RFM.Frame customers) = inr extracted ->
  map (fun x : RFM.customer * string * string =>
         let '(c, name, ident) := x in
         RFM.mkInfo (lower (str_of_cell (RFM.email c))) name ident
                    (to_datetime (RFM.created_at c)))
      extracted
  = clean_customers customers.
Proof.
  simpl. intros [= <-]. rewrite map_map. unfold clean_customers.
  apply map_ext. intros c. unfold customer_key.
  destruct (strip _); reflexivity.
Qed.

(** [process] returns a frame exactly on frames that have their columns and
    whose orders were not cleaned before, and then it returns the formatted
    merge and leaves the store with the rewritten columns. *)
Lemma process_on_raw_frames (self : RFM.RFMProcessor)
      customers orders catalog items :
  RFM.process self
    (RFM.mkStore (RFM.Frame customers) (RFM.OrdersRaw orders)
                 (RFM.Frame catalog) (RFM.Frame items))
  = (inr (RFM._format_output (merged_frame self customers orders catalog items)),
     RFM.mkStore (RFM.Frame customers)
                 (RFM.OrdersClean (map RFM.clean_row orders))
                 (RFM.Frame (map RFM.normalize_catalog catalog))
                 (RFM.Frame (map RFM.normalize_item items))).
Proof.
  unfold RFM.process, RFM.process_with, try_except, RFM.stages,
    RFM._clean_data, RFM._analyze_preferences, bind, gets, modify, ret.
  cbn [RFM.customers_df RFM.orders_df RFM.catalog_df RFM.items_df
       RFM.set_orders RFM.set_items RFM.set_catalog].
  destruct (RFM._extract_customer_fields (RFM.Frame customers))
    as [e|extracted] eqn:E; [discriminate E|].
  rewrite (clean_customers_eq _ _ E). unfold bind, ret, modify. cbn.
  reflexivity.
Qed.

Lemma process_success (self : RFM.RFMProcessor) (st st' : RFM.store) out :
  RFM.process self st = (inr out, st') ->
  exists customers orders catalog items,
    st = RFM.mkStore (RFM.Frame customers) (RFM.OrdersRaw orders)
                     (RFM.Frame catalog) (RFM.Frame items)
    /\ out = RFM._format_output
               (merged_frame self customers orders catalog items)
    /\ st' = RFM.mkStore (RFM.Frame customers)
                         (RFM.OrdersClean (map RFM.clean_row orders))
                         (RFM.Frame (map RFM.normalize_catalog catalog))
                         (RFM.Frame (map RFM.normalize_item items)).
Proof.
  destruct st as [[|customers] [|orders|cleaned] [|catalog] [|items]];
    try (unfold_process; discriminate).
  all: try (rewrite process_on_raw_frames; intros [= <- <-];
            exists customers, orders, catalog, items; now repeat split).
Qed.

(** A frame of orders that went through [process] cannot go through it
    again: the date column no longer holds text. *)
Lemma process_twice_fails :
  fst (RFM.process example_processor
         (snd (RFM.process example_processor example_store)))
  = inl (DataProcessingError
           "RFM processing failed: Can only use .str accessor with string values!"
           (Some "process")).
Proof. vm_compute. reflexivity. Qed.

(** ** Grouping *)

Section GroupByFacts.
Context {K A : Type}.
Variable cmp : K -> K -> comparison.
Variable key : A -> K.
Hypothesis laws : order_laws cmp.

Lemma key_eqb_true (x y : K) : key_eqb cmp x y = true <-> x = y.
Proof.
  unfold key_eqb. rewrite <- (cmp_eq cmp laws).
  destruct (cmp x y); split; congruence.
Qed.

Lemma key_eqb_refl (x : K) : key_eqb cmp x x = true.
Proof. now apply key_eqb_true. Qed.

Lemma key_eqb_sym (x y : K) : key_eqb cmp x y = key_eqb cmp y x.
Proof.
  unfold key_eqb. rewrite (cmp_antisym cmp laws y x).
  destruct (cmp y x); reflexivity.
Qed.

Lemma cmp_lt_neq (x y : K) : cmp x y = Lt -> key_eqb cmp y x = false.
Proof.
  intros H. unfold key_eqb. rewrite (cmp_antisym cmp laws x y), H. reflexivity.
Qed.

Lemma group_of_below (k : K) (gs : list (K * list A)) :
  Forall (fun g => cmp k (fst g) = Lt) gs -> group_of cmp k gs = [].
Proof.
  induction 1 as [|g gs H _ IH]; [reflexivity|].
  simpl. unfold key_eqb at 1. now rewrite H.
Qed.

Lemma add_to_group_keys (r : A) (gs : list (K * list A)) (g : K * list A) :
  In g (add_to_group cmp key r gs) ->
  (fst g = key r \/ exists g', In g' gs /\ fst g' = fst g) /\
  (Forall (fun g' => snd g' <> []) gs -> snd g <> []).
Proof.
  induction gs as [|[k rs] rest IH]; simpl.
  - intros [<-|[]]. split; [now left|]. discriminate.
  - destruct (cmp (key r) k) eqn:E; simpl.
    + intros [<-|H]; simpl; split.
      * right. exists (k, rs). simpl. auto.
      * intros _. destruct rs; discriminate.
      * right. exists g. auto.
      * intros F. inversion F as [|? ? _ F']. subst.
        rewrite Forall_forall in F'. now apply F'.
    + intros [<-|[<-|H]]; simpl; split.
      * now left.
      * discriminate.
      * right. exists (k, rs). simpl. auto.
      * intros F. now inversion F.
      * right. exists g. auto.
      * intros F. inversion F as [|? ? _ F']. subst.
        rewrite Forall_forall in F'. now apply F'.
    + intros [<-|H]; simpl; split.
      * right. exists (k, rs). simpl. auto.
      * intros F. now inversion F.
      * destruct (IH H) as [[H1|(g' & H1 & H2)] _]; [now left|].
        right. exists g'. auto.
      * intros F. inversion F as [|? ? _ F']. subst.
        now apply (proj2 (IH H)).
Qed.

Lemma add_to_group_increasing (r : A) (gs : list (K * list A)) :
  increasing cmp gs -> increasing cmp (add_to_group cmp key r gs).
Proof.
  induction 1 as [|[k rs] gs F I IH]; simpl.
  - repeat constructor.
  - destruct (cmp (key r) k) eqn:E.
    + now constructor.
    + constructor; [|now constructor].
      constructor; [exact E|].
      rewrite Forall_forall in *. intros g' Hg'.
      apply (cmp_trans cmp laws _ k); [exact E|]. now apply F.
    + constructor; [|exact IH].
      rewrite Forall_forall in *. intros g' Hg'.
      destruct (proj1 (add_to_group_keys _ _ _ Hg'))
        as [->|(g'' & H1 & <-)].
      * simpl. rewrite (cmp_antisym cmp laws (key r) k), E. reflexivity.
      * now apply F.
Qed.

Lemma group_of_add_to_group (r : A) (k : K) (gs : list (K * list A)) :
  increasing cmp gs ->
  group_of cmp k (add_to_group cmp key r gs)
  = (group_of cmp k gs ++ (if key_eqb cmp (key r) k then [r] else []))%list.
Proof.
  induction 1 as [|[k0 rs] gs F I IH]; cbn [add_to_group group_of fst snd app].
  - rewrite (key_eqb_sym k). reflexivity.
  - destruct (cmp (key r) k0) eqn:E; cbn [add_to_group group_of fst snd app].
    + apply (cmp_eq cmp laws) in E. subst k0.
      destruct (key_eqb cmp k (key r)) eqn:E1.
      * rewrite (key_eqb_sym (key r) k), E1. reflexivity.
      * rewrite (key_eqb_sym (key r) k), E1, app_nil_r. reflexivity.
    + destruct (key_eqb cmp k (key r)) eqn:E1.
      * apply key_eqb_true in E1. subst k.
        rewrite key_eqb_refl.
        unfold key_eqb at 1. rewrite E.
        rewrite group_of_below; [reflexivity|].
        rewrite Forall_forall in *. intros g' Hg'.
        apply (cmp_trans cmp laws _ k0); [exact E|]. now apply F.
      * rewrite (key_eqb_sym (key r) k), E1, app_nil_r. reflexivity.
    + destruct (key_eqb cmp k k0) eqn:E1.
      * apply key_eqb_true in E1. subst k0.
        unfold key_eqb. rewrite E, app_nil_r. reflexivity.
      * exact IH.
Qed.

Lemma fold_add_to_group (rows : list A) (acc : list (K * list A)) :
  increasing cmp acc ->
  Forall (fun g => snd g <> []) acc ->
  let gs := fold_left (fun gs r => add_to_group cmp key r gs) rows acc in
  increasing cmp gs
  /\ Forall (fun g => snd g <> []) gs
  /\ forall k,
      group_of cmp k gs
      = (group_of cmp k acc
         ++ filter (fun r => key_eqb cmp (key r) k) rows)%list.
Proof.
  revert acc. induction rows as [|r rows IH]; intros acc I N; simpl.
  - repeat split; auto. intros k. now rewrite app_nil_r.
  - assert (I' := add_to_group_increasing r acc I).
    assert (N' : Forall (fun g => snd g <> []) (add_to_group cmp key r acc)).
    { rewrite Forall_forall. intros g Hg.
      now apply (proj2 (add_to_group_keys _ _ _ Hg)). }
    destruct (IH _ I' N') as (H1 & H2 & H3).
    repeat split; auto. intros k.
    rewrite H3, group_of_add_to_group by assumption.
    rewrite <- app_assoc. destruct (key_eqb cmp (key r) k); reflexivity.
Qed.

Lemma groupby_spec (rows : list A) :
  increasing cmp (groupby cmp key rows)
  /\ Forall (fun g => snd g <> []) (groupby cmp key rows)
  /\ forall k,
      group_of cmp k (groupby cmp key rows)
      = filter (fun r => key_eqb cmp (key r) k) rows.
Proof.
  destruct (fold_add_to_group rows [] (increasing_nil cmp) (Forall_nil _))
    as (H1 & H2 & H3).
  repeat split; auto.
Qed.

(** The groups with a given key: the one group of the rows with that key,
    when there are such rows. *)
Lemma groups_with_key (gs : list (K * list A)) (e : K) :
  increasing cmp gs ->
  Forall (fun g => snd g <> []) gs ->
  filter (fun g => key_eqb cmp (fst g) e) gs
  = match group_of cmp e gs with
    | [] => []
    | rs => [(e, rs)]
    end.
Proof.
  induction 1 as [|[k rs] gs F I IH]; intros N; [reflexivity|].
  inversion N as [|? ? N1 N2]. subst. simpl in *.
  rewrite (key_eqb_sym e k).
  destruct (key_eqb cmp k e) eqn:E.
  - apply key_eqb_true in E. subst k.
    assert (Z : filter (fun g => key_eqb cmp (fst g) e) gs = []).
    { clear IH N N2 I. induction gs as [|g gs IHg]; [reflexivity|].
      inversion F. subst. simpl.
      rewrite (cmp_lt_neq e (fst g)) by assumption. auto. }
    rewrite Z. destruct rs; [congruence|reflexivity].
  - now apply IH.
Qed.

Lemma groupby_with_key (rows : list A) (e : K) :
  filter (fun g => key_eqb cmp (fst g) e) (groupby cmp key rows)
  = match filter (fun r => key_eqb cmp (key r) e) rows with
    | [] => []
    | rs => [(e, rs)]
    end.
Proof.
  destruct (groupby_spec rows) as (I & N & G).
  now rewrite groups_with_key, G.
Qed.

Lemma groupby_member (rows : list A) (g : K * list A) :
  In g (groupby cmp key rows) ->
  snd g = filter (fun r => key_eqb cmp (key r) (fst g)) rows /\ snd g <> [].
Proof.
  intros H.
  assert (H' : In g (filter (fun g' => key_eqb cmp (fst g') (fst g))
                            (groupby cmp key rows))).
  { apply filter_In. split; [exact H|apply key_eqb_refl]. }
  rewrite groupby_with_key in H'.
  destruct (filter _ rows) as [|r rs] eqn:E; [destruct H'|].
  destruct H' as [<-|[]]. simpl. split; [reflexivity|discriminate].
Qed.

End GroupByFacts.

(** ** Orders of the keys *)

Lemma cmp_str_refl (x : string) : cmp_str x x = Eq.
Proof.
  unfold cmp_str. destruct (String_as_OT.compare_spec x x) as [_|H|H];
    [reflexivity| |]; exfalso; revert H; apply irreflexivity.
Qed.

Lemma cmp_str_laws : order_laws cmp_str.
Proof.
  split.
  - intros x y. split.
    + unfold cmp_str. destruct (String_as_OT.compare_spec x y); congruence.
    + intros <-. apply cmp_str_refl.
  - intros x y. unfold cmp_str.
    destruct (String_as_OT.compare_spec x y) as [->|H|H].
    + apply cmp_str_refl.
    + destruct (String_as_OT.compare_spec y x) as [->|H'|H'];
        [exfalso; revert H; apply irreflexivity| |reflexivity].
      exfalso. apply (irreflexivity (R := String_as_OT.lt) (x := x)).
      now transitivity y.
    + exact H.
  - intros x y z. unfold cmp_str. apply String_as_OT.lt_strorder.
Qed.

Lemma cmp_pair_laws : order_laws cmp_pair.
Proof.
  pose proof cmp_str_laws as L.
  split.
  - intros [a b] [c d]. unfold cmp_pair. simpl. split.
    + destruct (cmp_str a c) eqn:E; try discriminate.
      intros H. apply (cmp_eq _ L) in E, H. congruence.
    + intros [= -> ->]. now rewrite !cmp_str_refl.
  - intros [a b] [c d]. unfold cmp_pair. simpl.
    rewrite (cmp_antisym _ L a c), (cmp_antisym _ L b d).
    destruct (cmp_str a c); reflexivity.
  - intros [a b] [c d] [e f]. unfold cmp_pair. simpl.
    destruct (cmp_str a c) eqn:E1; try discriminate;
      destruct (cmp_str c e) eqn:E2; try discriminate; intros H1 H2.
    + apply (cmp_eq _ L) in E1, E2. subst. rewrite cmp_str_refl.
      now apply (cmp_trans _ L b d f).
    + apply (cmp_eq _ L) in E1. subst. now rewrite E2.
    + apply (cmp_eq _ L) in E2. subst. now rewrite E1.
    + now rewrite (cmp_trans _ L a c e E1 E2).
Qed.

Lemma key_eqb_str (x y : string) : key_eqb cmp_str x y = String.eqb x y.
Proof.
  apply Bool.eq_iff_eq_true.
  rewrite (key_eqb_true cmp_str cmp_str_laws), String.eqb_eq. reflexivity.
Qed.

Lemma key_eqb_pair (a b c d : string) :
  key_eqb cmp_pair (a, b) (c, d) = (String.eqb a c && String.eqb b d)%bool.
Proof.
  apply Bool.eq_iff_eq_true.
  rewrite (key_eqb_true cmp_pair cmp_pair_laws), andb_true_iff,
    !String.eqb_eq.
  split; [intros [= -> ->]; auto | intros [-> ->]; reflexivity].
Qed.

(** ** Rows with a given key *)

Lemma where_eq_app {A : Type} (col : A -> string) (e : string) (l l' : list A) :
  where_eq col e (l ++ l') = (where_eq col e l ++ where_eq col e l')%list.
Proof. apply filter_app. Qed.

Lemma where_eq_all {A : Type} (col : A -> string) (e : string) (l : list A) :
  (forall x, In x l -> col x = e) -> where_eq col e l = l.
Proof.
  induction l as [|x l IH]; intros H; [reflexivity|]. simpl.
  rewrite (H x (or_introl eq_refl)), String.eqb_refl, IH; [reflexivity|].
  intros y Hy. apply H. now right.
Qed.

Lemma where_eq_none {A : Type} (col : A -> string) (e : string) (l : list A) :
  (forall x, In x l -> col x <> e) -> where_eq col e l = [].
Proof.
  induction l as [|x l IH]; intros H; [reflexivity|]. simpl.
  destruct (String.eqb_spec (col x) e) as [E|E].
  - now destruct (H x (or_introl eq_refl)).
  - apply IH. intros y Hy. apply H. now right.
Qed.

Lemma where_eq_idem {A : Type} (col : A -> string) (e : string) (l : list A) :
  where_eq col e (where_eq col e l) = where_eq col e l.
Proof.
  apply where_eq_all. intros x Hx. apply filter_In in Hx.
  now apply String.eqb_eq.
Qed.

(** Rows made from the rows of [l], each with the key of the row it was
    made from. *)
Lemma where_eq_flat_map {A B : Type} (ka : A -> string) (kb : B -> string)
      (f : A -> list B) (e : string) (l : list A) :
  (forall x, In x l -> forall y, In y (f x) -> kb y = ka x) ->
  where_eq kb e (flat_map f l) = flat_map f (where_eq ka e l).
Proof.
  induction l as [|x l IH]; intros H; [reflexivity|]. simpl.
  rewrite where_eq_app, IH by (intros x' Hx'; apply H; now right).
  destruct (String.eqb_spec (ka x) e) as [E|E]; simpl.
  - rewrite where_eq_all; [reflexivity|].
    intros y Hy. now rewrite (H x (or_introl eq_refl) y Hy).
  - rewrite where_eq_none; [reflexivity|].
    intros y Hy. now rewrite (H x (or_introl eq_refl) y Hy).
Qed.

Lemma where_eq_map {A B : Type} (ka : A -> string) (kb : B -> string)
      (f : A -> B) (e : string) (l : list A) :
  (forall x, kb (f x) = ka x) ->
  where_eq kb e (map f l) = map f (where_eq ka e l).
Proof.
  intros H. induction l as [|x l IH]; [reflexivity|]. simpl.
  rewrite H, IH. destruct (String.eqb (ka x) e); reflexivity.
Qed.

Lemma groupby_where {A : Type} (key : A -> string) (rows : list A) (e : string) :
  where_eq fst e (groupby cmp_str key rows)
  = one_group e (where_eq key e rows).
Proof.
  unfold where_eq.
  rewrite (filter_ext _ (fun g => key_eqb cmp_str (fst g) e))
    by (intros g; symmetry; apply key_eqb_str).
  rewrite (groupby_with_key cmp_str key cmp_str_laws).
  rewrite (filter_ext _ (fun r => String.eqb (key r) e))
    by (intros r; apply key_eqb_str).
  now destruct (filter _ rows).
Qed.

(** ** Merges *)

Section MergeFacts.
Context {L R C : Type}.
Variable left_on : L -> string.
Variable right_on : R -> string.

Lemma matches_where (l : L) (right : list R) :
  matches left_on right_on l right = where_eq right_on (left_on l) right.
Proof. reflexivity. Qed.

Lemma merge_left_where (combine : L -> option R -> C)
      (kl : L -> string) (kc : C -> string) (e : string)
      (left : list L) (right : list R) :
  (forall l r, kc (combine l r) = kl l) ->
  where_eq kc e (merge_left left_on right_on combine left right)
  = merge_left left_on right_on combine (where_eq kl e left) right.
Proof.
  intros H. unfold merge_left. apply where_eq_flat_map.
  intros l _ y. destruct (matches left_on right_on l right); simpl.
  - intros [<-|[]]. apply H.
  - intros [<-|Hy]; [apply H|].
    apply in_map_iff in Hy. destruct Hy as (r' & <- & _). apply H.
Qed.

Lemma merge_left_one (combine : L -> option R -> C) (l : L) (right : list R) :
  merge_left left_on right_on combine [l] right
  = match where_eq right_on (left_on l) right with
    | [] => [combine l None]
    | ms => map (fun r => combine l (Some r)) ms
    end.
Proof.
  unfold merge_left. simpl. rewrite app_nil_r. reflexivity.
Qed.

Lemma merge_left_nil (combine : L -> option R -> C) (right : list R) :
  merge_left left_on right_on combine [] right = [].
Proof. reflexivity. Qed.

Lemma merge_left_length_one (combine : L -> option R -> C) (l : L)
      (right : list R) :
  (List.length (where_eq right_on (left_on l) right) <= 1)%nat ->
  List.length (merge_left left_on right_on combine [l] right) = 1%nat.
Proof.
  rewrite merge_left_one.
  destruct (where_eq right_on (left_on l) right) as [|r [|r' rs]]; simpl;
    intros H; try reflexivity; lia.
Qed.

Lemma merge_left_short (combine : L -> option R -> C) (left : list L)
      (right : list R) :
  (List.length left <= 1)%nat ->
  (forall l, (List.length (where_eq right_on (left_on l) right) <= 1)%nat) ->
  (List.length (merge_left left_on right_on combine left right) <= 1)%nat.
Proof.
  intros H1 H2. destruct left as [|l [|l' ls]]; simpl in H1; try lia.
  - simpl. lia.
  - rewrite merge_left_length_one; auto.
Qed.

Lemma merge_inner_where (combine : L -> R -> C) (kc : C -> string)
      (e : string) (left : list L) (right : list R) :
  (forall l r, kc (combine l r) = right_on r) ->
  where_eq kc e (merge_inner left_on right_on combine left right)
  = flat_map (fun l => map (combine l) (where_eq right_on e right))
             (where_eq left_on e left).
Proof.
  intros H. unfold merge_inner.
  induction left as [|l left IH]; [reflexivity|]. simpl.
  rewrite where_eq_app, IH.
  destruct (String.eqb_spec (left_on l) e) as [E|E]; simpl.
  - rewrite where_eq_all.
    + rewrite matches_where, E. reflexivity.
    + intros y Hy. apply in_map_iff in Hy. destruct Hy as (r & <- & Hr).
      rewrite H. apply filter_In in Hr. destruct Hr as [_ Hr].
      apply String.eqb_eq in Hr. congruence.
  - rewrite where_eq_none; [reflexivity|].
    intros y Hy. apply in_map_iff in Hy. destruct Hy as (r & <- & Hr).
    rewrite H. apply filter_In in Hr. destruct Hr as [_ Hr].
    apply String.eqb_eq in Hr. congruence.
Qed.

End MergeFacts.

(** ** The rows of one customer *)

Lemma groupby_one_key {A : Type} (key : A -> string) (rows : list A) (e : string) :
  (forall r, In r rows -> key r = e) ->
  groupby cmp_str key rows = one_group e rows.
Proof.
  intros H.
  assert (W : where_eq fst e (groupby cmp_str key rows)
              = groupby cmp_str key rows).
  { apply where_eq_all. intros g Hg.
    destruct (groupby_member cmp_str key cmp_str_laws rows g Hg) as [E N].
    destruct (snd g) as [|r rs] eqn:Es; [congruence|].
    assert (Hr : In r (filter (fun r => key_eqb cmp_str (key r) (fst g)) rows))
      by (rewrite <- E; now left).
    apply filter_In in Hr. destruct Hr as [Hr1 Hr2].
    apply (key_eqb_true cmp_str cmp_str_laws) in Hr2.
    rewrite <- Hr2. now apply H. }
  now rewrite <- W, groupby_where, (where_eq_all key e rows H).
Qed.

Lemma in_where_eq {A : Type} (col : A -> string) (e : string) (l : list A) x :
  In x (where_eq col e l) -> col x = e.
Proof. intros H. apply filter_In in H. now apply String.eqb_eq. Qed.

(** The groups of a frame with key [e] are the groups of its rows with
    key [e]. *)
Lemma groupby_local {A : Type} (key : A -> string) (rows : list A) (e : string) :
  where_eq fst e (groupby cmp_str key rows)
  = groupby cmp_str key (where_eq key e rows).
Proof.
  rewrite groupby_where.
  rewrite (groupby_one_key key (where_eq key e rows) e);
    [reflexivity | apply in_where_eq].
Qed.

Section MergeLocal.
Context {L R C : Type}.
Variable left_on : L -> string.
Variable right_on : R -> string.

Lemma merge_left_right_rows (combine : L -> option R -> C) (e : string)
      (left : list L) (right : list R) :
  (forall l, In l left -> left_on l = e) ->
  merge_left left_on right_on combine left right
  = merge_left left_on right_on combine left (where_eq right_on e right).
Proof.
  intros H. unfold merge_left.
  induction left as [|l left IH]; [reflexivity|].
  cbn [flat_map]. f_equal.
  - rewrite !matches_where, (H l (or_introl eq_refl)), where_eq_idem.
    reflexivity.
  - apply IH. intros l' Hl'. apply H. now right.
Qed.

(** The rows of a left merge with key [e] are the merge of the rows with
    key [e]. *)
Lemma merge_left_local (combine : L -> option R -> C) (kc : C -> string)
      (e : string) (left : list L) (right : list R) :
  (forall l r, kc (combine l r) = left_on l) ->
  where_eq kc e (merge_left left_on right_on combine left right)
  = merge_left left_on right_on combine
               (where_eq left_on e left) (where_eq right_on e right).
Proof.
  intros H.
  rewrite (merge_left_where left_on right_on combine left_on kc e) by exact H.
  apply merge_left_right_rows. apply in_where_eq.
Qed.

Lemma merge_inner_local (combine : L -> R -> C) (kc : C -> string)
      (e : string) (left : list L) (right : list R) :
  (forall l r, kc (combine l r) = right_on r) ->
  where_eq kc e (merge_inner left_on right_on combine left right)
  = merge_inner left_on right_on combine
                (where_eq left_on e left) (where_eq right_on e right).
Proof.
  intros H. rewrite (merge_inner_where left_on right_on combine kc e) by exact H.
  unfold merge_inner.
  generalize (in_where_eq left_on e left).
  induction (where_eq left_on e left) as [|l ls IH]; intros Hl; [reflexivity|].
  cbn [flat_map]. f_equal.
  - rewrite matches_where, (Hl l (or_introl eq_refl)), where_eq_idem.
    reflexivity.
  - apply IH. intros x Hx. apply Hl. now right.
Qed.

End MergeLocal.

Lemma fm_of_group_email self g f :
  In f (RFM.fm_of_group self g) -> RFM.fm_Customer_Email f = fst g.
Proof.
  unfold RFM.fm_of_group. destruct (snd g); [intros []|].
  intros [<-|[]]. reflexivity.
Qed.

Lemma recency_of_group_email self g r :
  In r (RFM.recency_of_group self g) -> RFM.rec_Customer_Email r = fst g.
Proof.
  unfold RFM.recency_of_group. destruct (snd g); [intros []|].
  intros [<-|[]]. reflexivity.
Qed.

(** The metrics of one customer are the metrics of that customer's
    orders. *)
Lemma rfm_metrics_local (self : RFM.RFMProcessor) (orders : list RFM.order)
      (e : string) :
  where_eq (fun x : RFM.fm_row * option RFM.recency_row =>
              RFM.fm_Customer_Email (fst x))
           e (RFM._calculate_rfm_metrics self orders)
  = RFM._calculate_rfm_metrics self (where_eq RFM.by_email e orders).
Proof.
  unfold RFM._calculate_rfm_metrics.
  rewrite (merge_left_local RFM.fm_Customer_Email RFM.rec_Customer_Email)
    by reflexivity.
  rewrite (where_eq_flat_map fst RFM.fm_Customer_Email)
    by (intros g _ f; apply fm_of_group_email).
  rewrite (where_eq_flat_map fst RFM.rec_Customer_Email)
    by (intros g _ f; apply recency_of_group_email).
  now rewrite groupby_local.
Qed.

Lemma additional_kpis_local (orders : list RFM.order) (e : string) :
  where_eq RFM.kpi_Customer_Email e (RFM._calculate_additional_kpis orders)
  = RFM._calculate_additional_kpis (where_eq RFM.by_email e orders).
Proof.
  unfold RFM._calculate_additional_kpis.
  rewrite (where_eq_map fst RFM.kpi_Customer_Email) by reflexivity.
  now rewrite groupby_local.
Qed.

(** The output rows of one customer are the output for that customer's
    rows of the four merged frames. *)
Lemma merge_all_data_local customers df_rfm df_kpis df_prefs (e : string) :
  where_eq RFM.Email e
    (RFM._format_output
       (RFM._merge_all_data customers df_rfm df_kpis df_prefs))
  = RFM._format_output
      (RFM._merge_all_data
         (where_eq RFM.info_email e customers)
         (where_eq (fun x : RFM.fm_row * option RFM.recency_row =>
                      RFM.fm_Customer_Email (fst x)) e df_rfm)
         (where_eq RFM.kpi_Customer_Email e df_kpis)
         (where_eq RFM.pref_Customer_Email e df_prefs)).
Proof.
  unfold RFM._format_output, RFM._merge_all_data.
  rewrite (where_eq_map (fun m => RFM.fm_Customer_Email (RFM.m_fm m)) RFM.Email)
    by reflexivity.
  f_equal.
  rewrite (merge_inner_local
             RFM.info_email
             (fun x : RFM.fm_row * option RFM.recency_row
                      * option RFM.kpi_row * option RFM.pref_row =>
                RFM.fm_Customer_Email (fst (fst (fst x)))))
    by (intros c [[[f r] k] p]; reflexivity).
  f_equal.
  rewrite (merge_left_local
             (fun x : RFM.fm_row * option RFM.recency_row * option RFM.kpi_row =>
                RFM.fm_Customer_Email (fst (fst x)))
             RFM.pref_Customer_Email)
    by reflexivity.
  f_equal.
  rewrite (merge_left_local
             (fun x : RFM.fm_row * option RFM.recency_row =>
                RFM.fm_Customer_Email (fst x))
             RFM.kpi_Customer_Email)
    by reflexivity.
  reflexivity.
Qed.

(** ** Lower case *)

Lemma lower_chars (c : ascii) :
  (latin1_upper_tail c = true ->
   latin1_upper_tail (ascii_of_N (code c + 32)) = false
   /\ lower_ascii (ascii_of_N (code c + 32)) = ascii_of_N (code c + 32)
   /\ (code (ascii_of_N (code c + 32)) =? 195)%N = false)
  /\ latin1_upper_tail (lower_ascii c) = latin1_upper_tail c
  /\ lower_ascii (lower_ascii c) = lower_ascii c
  /\ (code (lower_ascii c) =? 195)%N = (code c =? 195)%N.
Proof.
  destruct c as [[] [] [] [] [] [] [] []]; vm_compute;
    repeat split; intros; congruence.
Qed.

Lemma lower_from_idempotent (s : string) (b b' : bool) :
  (b' = true -> b = true) ->
  lower_from b' (lower_from b s) = lower_from b s.
Proof.
  revert b b'. induction s as [|c s IH]; intros b b' Hb; [reflexivity|].
  destruct (lower_chars c) as (F1 & F2 & F3 & F4).
  cbn [lower_from].
  destruct (b && latin1_upper_tail c)%bool eqn:E.
  - apply andb_prop in E. destruct E as [-> E].
    destruct (F1 E) as (G1 & G2 & G3).
    cbn [lower_from]. rewrite G1, andb_false_r, G2, G3.
    f_equal. now apply IH.
  - cbn [lower_from]. rewrite F2, F3, F4.
    assert (E' : (b' && latin1_upper_tail c)%bool = false).
    { destruct b'; [|reflexivity]. now rewrite Hb in E. }
    rewrite E'. f_equal. now apply IH.
Qed.

Lemma lower_idempotent (s : string) : lower (lower s) = lower s.
Proof. apply lower_from_idempotent. auto. Qed.

(** ** The output rows of one customer *)

Lemma flat_map_nil_all {A B : Type} (l : list A) :
  flat_map (fun _ : A => @nil B) l = [].
Proof. induction l; auto. Qed.

(** The rows of the output with e-mail [e] come from the customers, the
    eligible orders and the preferences with that e-mail. *)
Lemma output_local self customers orders catalog items (e : string) :
  where_eq RFM.Email e
    (RFM._format_output (merged_frame self customers orders catalog items))
  = RFM._format_output
      (RFM._merge_all_data
         (where_eq RFM.info_email e (clean_customers customers))
         (RFM._calculate_rfm_metrics self
            (where_eq RFM.by_email e (eligible_rows self orders)))
         (RFM._calculate_additional_kpis
            (where_eq RFM.by_email e (eligible_rows self orders)))
         (where_eq RFM.pref_Customer_Email e
            (RFM.merge_preferences
               (RFM.item_lines (map RFM.normalize_item items)
                               (map RFM.normalize_catalog catalog))
               (map RFM.normalize_catalog catalog)
               (eligible_rows self orders)))).
Proof.
  unfold merged_frame.
  now rewrite merge_all_data_local, rfm_metrics_local, additional_kpis_local.
Qed.

Lemma merge_all_data_no_metrics customers df_kpis df_prefs :
  RFM._merge_all_data customers [] df_kpis df_prefs = [].
Proof.
  unfold RFM._merge_all_data, merge_left, merge_inner. simpl.
  apply flat_map_nil_all.
Qed.

(** What the stages compute from the orders [o :: rest] of one
    customer. *)
Lemma rfm_metrics_one self (e : string) (o : RFM.order) (rest : list RFM.order) :
  (forall x, In x (o :: rest) -> RFM.by_email x = e) ->
  exists f r,
    RFM._calculate_rfm_metrics self (o :: rest) = [(f, Some r)]
    /\ RFM.fm_Customer_Email f = e
    /\ RFM.fm_Frecuencia f = Z.of_nat (List.length (o :: rest))
    /\ RFM.fm_LTV_Gasto_Total f = RFM.sumQ (map RFM.Grand_Total (o :: rest))
    /\ RFM.fm_Dias_Como_Cliente f
       = RFM.replace_0_1
           (RFM.days_since self
              (fold_left RFM.earlier (map RFM.Purchase_Date rest)
                         (RFM.Purchase_Date o)))
    /\ RFM.rec_Recencia_Dias r
       = RFM.days_since self
           (fold_left RFM.later (map RFM.Purchase_Date rest)
                      (RFM.Purchase_Date o)).
Proof.
  intros H. unfold RFM._calculate_rfm_metrics.
  rewrite (groupby_one_key RFM.by_email (o :: rest) e H).
  cbn [one_group flat_map RFM.fm_of_group RFM.recency_of_group snd fst].
  rewrite !app_nil_r, merge_left_one.
  cbn [where_eq filter RFM.fm_Customer_Email RFM.rec_Customer_Email].
  rewrite String.eqb_refl. cbn [map].
  eexists. eexists. split; [reflexivity|].
  cbn [RFM.fm_Customer_Email RFM.fm_Frecuencia RFM.fm_LTV_Gasto_Total
       RFM.fm_Dias_Como_Cliente RFM.rec_Recencia_Dias].
  repeat split. cbn [List.length]. now rewrite length_map.
Qed.

Lemma additional_kpis_one (e : string) (o : RFM.order) (rest : list RFM.order) :
  (forall x, In x (o :: rest) -> RFM.by_email x = e) ->
  RFM._calculate_additional_kpis (o :: rest)
  = [RFM.mkKpi e (RFM.calculate_avg_time_between_purchases
                    (map RFM.Purchase_Date (o :: rest)))].
Proof.
  intros H. unfold RFM._calculate_additional_kpis.
  now rewrite (groupby_one_key RFM.by_email (o :: rest) e H).
Qed.

(** The merged rows of the customer with e-mail [e], given the one row of
    metrics and the one row of KPIs: every customer row with that e-mail,
    once for each row of preferences, and once when there are none. *)
Lemma merge_all_data_one customers f r k prefs (e : string) :
  (forall c, In c customers -> RFM.info_email c = e) ->
  (forall p, In p prefs -> RFM.pref_Customer_Email p = e) ->
  RFM.fm_Customer_Email f = e ->
  RFM.kpi_Customer_Email k = e ->
  RFM._merge_all_data customers [(f, r)] [k] prefs
  = flat_map
      (fun c =>
         match prefs with
         | [] => [RFM.mkMerged c f r (Some k) None]
         | _ => map (fun p => RFM.mkMerged c f r (Some k) (Some p)) prefs
         end)
      customers.
Proof.
  intros Hc Hp Hf Hk. unfold RFM._merge_all_data.
  rewrite (merge_left_one _ RFM.kpi_Customer_Email).
  cbn [where_eq filter fst]. rewrite Hk, Hf, String.eqb_refl. cbn [map].
  rewrite (merge_left_one _ RFM.pref_Customer_Email).
  cbn [fst]. rewrite Hf, (where_eq_all _ _ _ Hp).
  unfold merge_inner.
  induction customers as [|c cs IH]; [reflexivity|].
  cbn [flat_map]. f_equal.
  - rewrite matches_where, (Hc c (or_introl eq_refl)).
    destruct prefs as [|p ps].
    + cbn [where_eq filter fst]. rewrite Hf, String.eqb_refl. reflexivity.
    + rewrite where_eq_all.
      * rewrite map_map. reflexivity.
      * intros x Hx. apply in_map_iff in Hx. destruct Hx as (p' & <- & _).
        exact Hf.
  - apply IH. intros c' Hc'. apply Hc. now right.
Qed.

(** ** The eligible orders of a customer *)

Lemma filter_year_one (self : RFM.RFMProcessor) (o : RFM.raw_order) :
  RFM.filter_year self [RFM.clean_row o]
  = if eligible self o then kept o else [].
Proof.
  unfold RFM.filter_year, eligible, kept, RFM.clean_row, grand_total. simpl.
  destruct (to_datetime (RFM.Purchase_Date o)) as [d|]; [|reflexivity].
  destruct (RFM.min_year self <=? year d); reflexivity.
Qed.

Lemma eligible_rows_cons self (o : RFM.raw_order) (os : list RFM.raw_order) :
  eligible_rows self (o :: os)
  = ((if eligible self o then kept o else []) ++ eligible_rows self os)%list.
Proof.
  rewrite <- filter_year_one. unfold eligible_rows, RFM.filter_year.
  simpl. now rewrite app_nil_r.
Qed.

Lemma kept_eligible self (o : RFM.raw_order) :
  eligible self o = true ->
  exists d,
    to_datetime (RFM.Purchase_Date o) = Some d
    /\ kept o = [RFM.mkOrder (RFM.ID o)
                             (lower (str_of_cell (RFM.Customer_Email o))) d
                             (grand_total o) (RFM.Status o)
                             (RFM.Payment_Method o)].
Proof.
  unfold eligible, kept.
  destruct (to_datetime (RFM.Purchase_Date o)) as [d|]; [|discriminate].
  intros _. now exists d.
Qed.

(** The rows of the filtered frame with e-mail [e] are the rows kept for
    the eligible orders whose e-mail is [e] in lower case. *)
Lemma where_eligible_rows self (orders : list RFM.raw_order) (e : string) :
  where_eq RFM.by_email e (eligible_rows self orders)
  = flat_map kept (eligible_with_email self orders e).
Proof.
  induction orders as [|o os IH]; [reflexivity|].
  rewrite eligible_rows_cons, where_eq_app, IH.
  unfold eligible_with_email. cbn [filter].
  destruct (eligible self o) eqn:E; cbn [andb]; [|reflexivity].
  destruct (kept_eligible self o E) as (d & _ & K). rewrite K.
  cbn [where_eq filter RFM.by_email RFM.Customer_Email].
  destruct (String.eqb _ e); [|reflexivity].
  cbn [flat_map]. now rewrite K.
Qed.

Lemma kept_all self (l : list RFM.raw_order) :
  (forall o, In o l -> eligible self o = true) ->
  List.length (flat_map kept l) = List.length l
  /\ map RFM.Grand_Total (flat_map kept l) = map grand_total l
  /\ map (fun x => Some (RFM.Purchase_Date x)) (flat_map kept l)
     = map (fun o => to_datetime (RFM.Purchase_Date o)) l.
Proof.
  induction l as [|o l IH]; intros H; [repeat split|].
  destruct (kept_eligible self o (H o (or_introl eq_refl))) as (d & E & K).
  destruct IH as (I1 & I2 & I3); [intros o' Ho'; apply H; now right|].
  cbn [flat_map]. rewrite K. simpl.
  rewrite I1, I2, I3, E. repeat split.
Qed.

Lemma eligible_with_email_all self orders e o :
  In o (eligible_with_email self orders e) -> eligible self o = true.
Proof.
  intros H. apply filter_In in H. destruct H as [_ H].
  now apply andb_prop in H.
Qed.

Lemma eligible_with_lower_email self orders (e : string) :
  lower e = e ->
  eligible_with_email self orders e = eligible_orders self orders e.
Proof.
  intros E. unfold eligible_with_email, eligible_orders, same_email.
  now rewrite E.
Qed.

Lemma eligible_rows_email self orders x :
  In x (eligible_rows self orders) -> lower (RFM.by_email x) = RFM.by_email x.
Proof.
  induction orders as [|o os IH]; [intros []|].
  rewrite eligible_rows_cons. intros H. apply in_app_or in H.
  destruct H as [H|H]; [|now apply IH].
  destruct (eligible self o) eqn:E; [|destruct H].
  destruct (kept_eligible self o E) as (d & _ & K). rewrite K in H.
  destruct H as [<-|[]]. apply lower_idempotent.
Qed.

(** ** The fields of an output row *)

(** An output row belongs to a customer with at least one eligible order,
    and its fields are computed from those orders. *)
Lemma output_row_fields self customers orders catalog items (r : RFM.RFMRecord) :
  In r (RFM._format_output
          (merged_frame self customers orders catalog items)) ->
  exists o rest,
    where_eq RFM.by_email (RFM.Email r) (eligible_rows self orders) = o :: rest
    /\ lower (RFM.Email r) = RFM.Email r
    /\ RFM.Frecuencia r = Z.of_nat (List.length (o :: rest))
    /\ RFM.LTV_Gasto_Total r
       = RFM.money (RFM.sumQ (map RFM.Grand_Total (o :: rest)))
    /\ RFM.Tiempo_Promedio_Entre_Compras r
       = RFM.calculate_avg_time_between_purchases
           (map RFM.Purchase_Date (o :: rest))
    /\ RFM.Dias_Como_Cliente r
       = RFM.replace_0_1
           (RFM.days_since self
              (fold_left RFM.earlier (map RFM.Purchase_Date rest)
                         (RFM.Purchase_Date o))).
Proof.
  intros H.
  assert (H' : In r (where_eq RFM.Email (RFM.Email r)
                       (RFM._format_output
                          (merged_frame self customers orders catalog items)))).
  { apply filter_In. split; [exact H|apply String.eqb_refl]. }
  clear H. rewrite output_local in H'.
  remember (RFM.Email r) as e eqn:Ee.
  destruct (where_eq RFM.by_email e (eligible_rows self orders))
    as [|o rest] eqn:Els.
  { unfold RFM._calculate_rfm_metrics in H'. simpl in H'.
    rewrite merge_all_data_no_metrics in H'. destruct H'. }
  assert (He : forall x, In x (o :: rest) -> RFM.by_email x = e).
  { rewrite <- Els. apply in_where_eq. }
  assert (Hl : lower e = e).
  { rewrite <- (He o (or_introl eq_refl)).
    apply (eligible_rows_email self orders).
    assert (Ho : In o (where_eq RFM.by_email e (eligible_rows self orders)))
      by (rewrite Els; now left).
    now apply filter_In in Ho. }
  destruct (rfm_metrics_one self e o rest He)
    as (f & rc & R & F1 & F2 & F3 & F4 & F5).
  rewrite R in H'.
  rewrite (additional_kpis_one e o rest He) in H'.
  rewrite (merge_all_data_one _ f (Some rc) _ _ e) in H';
    [|apply in_where_eq|apply in_where_eq|exact F1|reflexivity].
  unfold RFM._format_output in H'. apply in_map_iff in H'.
  destruct H' as (m & <- & Hm). apply in_flat_map in Hm.
  destruct Hm as (c & _ & Hm).
  exists o, rest. split; [reflexivity|]. split; [exact Hl|].
  assert (Hf : RFM.m_fm m = f
               /\ RFM.m_kpi m
                  = Some (RFM.mkKpi e (RFM.calculate_avg_time_between_purchases
                                         (map RFM.Purchase_Date (o :: rest))))).
  { destruct (where_eq RFM.pref_Customer_Email e _) as [|p ps].
    - destruct Hm as [Hm|[]]. rewrite <- Hm. now split.
    - apply in_map_iff in Hm. destruct Hm as (p' & Hm & _).
      rewrite <- Hm. now split. }
  destruct Hf as [Hf Hk].
  unfold RFM.format_row.
  cbn [RFM.Frecuencia RFM.LTV_Gasto_Total RFM.Tiempo_Promedio_Entre_Compras
       RFM.Dias_Como_Cliente].
  rewrite Hf, Hk, F2, F3, F4. repeat split.
Qed.

Lemma output_row_orders self customers orders catalog items (r : RFM.RFMRecord) :
  In r (RFM._format_output
          (merged_frame self customers orders catalog items)) ->
  exists o rest,
    flat_map kept (eligible_orders self orders (RFM.Email r)) = o :: rest
    /\ RFM.Frecuencia r = Z.of_nat (List.length (o :: rest))
    /\ RFM.LTV_Gasto_Total r
       = RFM.money (RFM.sumQ (map RFM.Grand_Total (o :: rest)))
    /\ RFM.Tiempo_Promedio_Entre_Compras r
       = RFM.calculate_avg_time_between_purchases
           (map RFM.Purchase_Date (o :: rest))
    /\ RFM.Dias_Como_Cliente r
       = RFM.replace_0_1
           (RFM.days_since self
              (fold_left RFM.earlier (map RFM.Purchase_Date rest)
                         (RFM.Purchase_Date o))).
Proof.
  intros H.
  destruct (output_row_fields _ _ _ _ _ _ H) as (o & rest & E & L & F).
  exists o, rest. split; [|exact F].
  now rewrite <- E, where_eligible_rows, eligible_with_lower_email.
Qed.

Lemma eligible_orders_all self orders e o :
  In o (eligible_orders self orders e) -> eligible self o = true.
Proof.
  intros H. apply filter_In in H. destruct H as [_ H].
  now apply andb_prop in H.
Qed.

(** C1.  In every row of the output, Frecuencia is the number of the
    orders that pass the filter on the year and whose e-mail is the row's
    e-mail up to the case of the letters, and LTV_Gasto_Total is the sum of
    the grand totals of those orders, written with the decimal comma. *)
Theorem frequency_and_ltv (self : RFM.RFMProcessor) (st st' : RFM.store)
        (out : list RFM.RFMRecord) (orders : list RFM.raw_order)
        (r : RFM.RFMRecord) :
  RFM.process self st = (inr out, st') ->
  RFM.orders_df st = RFM.OrdersRaw orders ->
  In r out ->
  RFM.Frecuencia r
  = Z.of_nat (List.length (eligible_orders self orders (RFM.Email r)))
  /\ RFM.LTV_Gasto_Total r
     = format_to_comma_decimal
         (Some (Fin (RFM.sumQ
                       (map grand_total
                            (eligible_orders self orders (RFM.Email r)))))).
Proof.
  intros H Ho Hr.
  destruct (process_success _ _ _ _ H)
    as (customers & orders' & catalog & items & -> & -> & _).
  injection Ho as ->.
  destruct (output_row_orders _ _ _ _ _ _ Hr) as (o & rest & E & F & L & _).
  destruct (kept_all self (eligible_orders self orders (RFM.Email r)))
    as (K1 & K2 & _); [apply eligible_orders_all|].
  rewrite F, L, <- E, K1, K2. split; reflexivity.
Qed.

Lemma frequency_and_ltv_witness :
  RFM.Frecuencia example_row
  = Z.of_nat (List.length
                (eligible_orders example_processor example_orders
                                 (RFM.Email example_row)))
  /\ RFM.LTV_Gasto_Total example_row
     = format_to_comma_decimal
         (Some (Fin (RFM.sumQ
                       (map grand_total
                            (eligible_orders example_processor example_orders
                                             (RFM.Email example_row)))))).
Proof.
  apply (frequency_and_ltv example_processor example_store _ _ _ _
           (process_on_raw_frames example_processor example_customers
              example_orders example_catalog example_items)).
  - reflexivity.
  - vm_compute. left. reflexivity.
Defined.

Lemma days_since_days (self : RFM.RFMProcessor) (d : date) :
  RFM.days_since self d = RFM.current_date self / 86400 - to_days d.
Proof.
  unfold RFM.days_since.
  replace (RFM.current_date self - 86400 * to_days d)
    with (RFM.current_date self + (- to_days d) * 86400) by ring.
  rewrite Z.div_add by discriminate. ring.
Qed.

(** C6.  For a customer with exactly one eligible order,
    Tiempo_Promedio_Entre_Compras is null, and Dias_Como_Cliente is the
    number of whole days since the date of the order with 1 in the place
    of 0: when the order was placed on the day the processor was created,
    it is 1. *)
Theorem single_order_customer (self : RFM.RFMProcessor) (st st' : RFM.store)
        (out : list RFM.RFMRecord) (orders : list RFM.raw_order)
        (r : RFM.RFMRecord) (o : RFM.raw_order) :
  RFM.process self st = (inr out, st') ->
  RFM.orders_df st = RFM.OrdersRaw orders ->
  In r out ->
  eligible_orders self orders (RFM.Email r) = [o] ->
  RFM.Tiempo_Promedio_Entre_Compras r = None
  /\ exists d,
      to_datetime (RFM.Purchase_Date o) = Some d
      /\ RFM.Dias_Como_Cliente r
         = (if RFM.days_since self d =? 0 then 1 else RFM.days_since self d)
      /\ (to_days d = RFM.current_date self / 86400 ->
          RFM.Dias_Como_Cliente r = 1).
Proof.
  intros H Ho Hr Hone.
  destruct (process_success _ _ _ _ H)
    as (customers & orders' & catalog & items & -> & -> & _).
  injection Ho as ->.
  destruct (output_row_orders _ _ _ _ _ _ Hr)
    as (x & rest & E & _ & _ & T & D).
  rewrite Hone in E. cbn [flat_map] in E. rewrite app_nil_r in E.
  assert (El : eligible self o = true).
  { apply (eligible_orders_all self orders (RFM.Email r)).
    rewrite Hone. now left. }
  destruct (kept_eligible self o El) as (d & Ed & K).
  rewrite K in E. injection E as <- <-.
  split; [rewrite T; reflexivity|].
  exists d. split; [exact Ed|].
  cbn [map fold_left RFM.Purchase_Date] in D.
  split; [exact D|].
  intros Same. rewrite D, days_since_days, Same, Z.sub_diag. reflexivity.
Qed.

Lemma single_order_customer_witness :
  RFM.Tiempo_Promedio_Entre_Compras same_day_row = None
  /\ RFM.Dias_Como_Cliente same_day_row = 1.
Proof.
  destruct (single_order_customer example_processor same_day_store _ _
              [same_day_order] same_day_row same_day_order
              (process_on_raw_frames example_processor same_day_customers
                 [same_day_order] [] [])
              eq_refl (or_introl eq_refl) eq_refl)
    as (T & d & Ed & _ & Same).
  split; [exact T|].
  apply Same. injection Ed as <-. reflexivity.
Defined.

(** ** One row per customer *)

Lemma one_group_short {K A : Type} (k : K) (rows : list A) :
  (List.length (one_group k rows) <= 1)%nat.
Proof. destruct rows; simpl; lia. Qed.

Lemma idxmax_in {A : Type} (val : A -> Z) (rows : list A) (r : A) :
  idxmax val rows = Some r -> In r rows.
Proof.
  revert r. induction rows as [|x rows IH]; intros r; [discriminate|].
  simpl. destruct (idxmax val rows) as [b|].
  - destruct (val b <=? val x); intros [= <-]; [now left|].
    right. now apply IH.
  - intros [= <-]. now left.
Qed.

Lemma group_rows_key {A : Type} (key : A -> string) (rows : list A)
      (g : string * list A) (r : A) :
  In g (groupby cmp_str key rows) -> In r (snd g) -> key r = fst g.
Proof.
  intros Hg Hr.
  destruct (groupby_member cmp_str key cmp_str_laws rows g Hg) as [E _].
  rewrite E in Hr. apply filter_In in Hr. destruct Hr as [_ Hr].
  now apply (key_eqb_true cmp_str cmp_str_laws) in Hr.
Qed.

Lemma rows_of_idxmax_local (df_qty : list RFM.qty_row) (e : string) :
  where_eq RFM.qty_email e (RFM.rows_of_idxmax df_qty)
  = RFM.rows_of_idxmax (where_eq RFM.qty_email e df_qty).
Proof.
  unfold RFM.rows_of_idxmax.
  rewrite (where_eq_flat_map fst RFM.qty_email).
  - now rewrite groupby_local.
  - intros g Hg y Hy.
    destruct (idxmax RFM.qty_total (snd g)) as [r|] eqn:E; [|destruct Hy].
    destruct Hy as [<-|[]].
    apply (group_rows_key RFM.qty_email df_qty g r Hg).
    now apply (idxmax_in RFM.qty_total).
Qed.

Lemma preferred_short col (df_items : list RFM.item_line) (e : string) :
  (List.length (where_eq RFM.qty_email e (RFM.preferred col df_items)) <= 1)%nat.
Proof.
  unfold RFM.preferred. rewrite rows_of_idxmax_local.
  unfold RFM.rows_of_idxmax.
  rewrite (groupby_one_key RFM.qty_email _ e) by apply in_where_eq.
  destruct (where_eq RFM.qty_email e _) as [|r rs]; [simpl; lia|].
  cbn [one_group flat_map snd]. rewrite app_nil_r.
  destruct (idxmax RFM.qty_total (r :: rs)); simpl; lia.
Qed.

Lemma nodup_where {A : Type} (k : A -> string) (l : list A) (e : string) :
  NoDup (map k l) -> (List.length (where_eq k e l) <= 1)%nat.
Proof.
  induction l as [|x l IH]; intros N; [simpl; lia|].
  inversion N as [|? ? N1 N2]. subst. simpl.
  destruct (String.eqb_spec (k x) e) as [E|E]; [|now apply IH].
  rewrite where_eq_none; [simpl; lia|].
  intros y Hy Ey. apply N1. rewrite E, <- Ey. now apply in_map.
Qed.

Lemma invoice_short (orders : list RFM.order) (e : string) :
  (List.length (where_eq fst e (RFM._detect_invoice_a orders)) <= 1)%nat.
Proof.
  unfold RFM._detect_invoice_a.
  destruct (RFM.has_payment_method orders); cbn [negb]; [|simpl; lia].
  rewrite (where_eq_map fst fst) by reflexivity.
  rewrite length_map, groupby_where. apply one_group_short.
Qed.

Lemma catalog_where (catalog : list RFM.catalog_row) (s : string) :
  where_eq (fun c => str_of_cell (RFM.catalog_sku c)) s
           (map RFM.normalize_catalog catalog)
  = map RFM.normalize_catalog (where_eq catalog_key s catalog).
Proof. now apply where_eq_map. Qed.

(** With one catalog entry for every normalised SKU, the preferences hold
    at most one row for a customer. *)
Lemma preferences_short (df_items : list RFM.item_line)
      (catalog : list RFM.catalog_row) (orders : list RFM.order) (e : string) :
  NoDup (map catalog_key catalog) ->
  (List.length
     (where_eq RFM.pref_Customer_Email e
        (RFM.merge_preferences df_items (map RFM.normalize_catalog catalog)
                               orders)) <= 1)%nat.
Proof.
  intros N. unfold RFM.merge_preferences.
  rewrite (merge_left_where _ _ _
             (fun x : RFM.qty_row * option RFM.qty_row
                      * option (RFM.qty_row * option string) =>
                RFM.qty_email (fst (fst x))))
    by (intros [[c b] p] a; reflexivity).
  apply merge_left_short; [|intros l; apply invoice_short].
  rewrite (merge_left_where _ _ _
             (fun x : RFM.qty_row * option RFM.qty_row =>
                RFM.qty_email (fst x)))
    by reflexivity.
  apply merge_left_short.
  - rewrite (merge_left_where _ _ _ RFM.qty_email) by reflexivity.
    apply merge_left_short; [apply preferred_short|].
    intros l. apply preferred_short.
  - intros l.
    rewrite (merge_left_where _ _ _ RFM.qty_email
               (fun p : RFM.qty_row * option string => RFM.qty_email (fst p)))
      by reflexivity.
    apply merge_left_short; [apply preferred_short|].
    intros l'. rewrite catalog_where, length_map. now apply nodup_where.
Qed.

Lemma existsb_filter {A : Type} (p : A -> bool) (l : list A) :
  existsb p l = match filter p l with [] => false | _ => true end.
Proof.
  induction l as [|x l IH]; [reflexivity|]. simpl.
  destruct (p x); [reflexivity|exact IH].
Qed.

Lemma flat_map_singletons {A B : Type} (f : A -> list B) (l : list A) :
  (forall x, In x l -> List.length (f x) = 1%nat) ->
  List.length (flat_map f l) = List.length l.
Proof.
  induction l as [|x l IH]; intros H; [reflexivity|].
  cbn [flat_map]. rewrite length_app, IH, (H x (or_introl eq_refl));
    [reflexivity|].
  intros y Hy. apply H. now right.
Qed.

(** The number of output rows with e-mail [e]. *)
Lemma output_count self customers orders catalog items (e : string) :
  NoDup (map catalog_key catalog) ->
  List.length
    (where_eq RFM.Email e
       (RFM._format_output (merged_frame self customers orders catalog items)))
  = if is_eligible_email self orders e
    then List.length (where_eq customer_key e customers)
    else 0%nat.
Proof.
  intros N. rewrite output_local.
  unfold is_eligible_email. rewrite existsb_filter.
  fold (eligible_with_email self orders e).
  pose proof (where_eligible_rows self orders e) as W.
  pose proof (kept_all self (eligible_with_email self orders e)
                (eligible_with_email_all self orders e)) as (K & _).
  destruct (eligible_with_email self orders e) as [|o os] eqn:El.
  - rewrite W. cbn [flat_map].
    unfold RFM._calculate_rfm_metrics. simpl.
    now rewrite merge_all_data_no_metrics.
  - destruct (where_eq RFM.by_email e (eligible_rows self orders))
      as [|x rest] eqn:Els.
    { rewrite <- W in K. discriminate K. }
    assert (He : forall y, In y (x :: rest) -> RFM.by_email y = e).
    { rewrite <- Els. apply in_where_eq. }
    destruct (rfm_metrics_one self e x rest He) as (f & rc & R & F1 & _).
    rewrite R, (additional_kpis_one e x rest He).
    rewrite (merge_all_data_one _ f (Some rc) _ _ e);
      [|apply in_where_eq|apply in_where_eq|exact F1|reflexivity].
    unfold RFM._format_output. rewrite length_map.
    rewrite flat_map_singletons.
    + unfold clean_customers.
      rewrite (where_eq_map customer_key RFM.info_email) by reflexivity.
      now rewrite length_map.
    + intros c _.
      pose proof (preferences_short
                    (RFM.item_lines (map RFM.normalize_item items)
                                    (map RFM.normalize_catalog catalog))
                    catalog (eligible_rows self orders) e N) as P.
      destruct (where_eq RFM.pref_Customer_Email e _) as [|p [|p' ps]];
        simpl in P |- *; try reflexivity; lia.
Qed.

Lemma is_customer_email_where (customers : list RFM.customer) (e : string) :
  is_customer_email customers e
  = match where_eq customer_key e customers with [] => false | _ => true end.
Proof. unfold is_customer_email. now rewrite existsb_filter. Qed.

(** No output row carries an e-mail that no eligible order has. *)
Lemma output_absent self customers orders catalog items (e : string) :
  is_eligible_email self orders e = false ->
  where_eq RFM.Email e
    (RFM._format_output (merged_frame self customers orders catalog items))
  = [].
Proof.
  intros E. rewrite output_local.
  unfold is_eligible_email in E. rewrite existsb_filter in E.
  fold (eligible_with_email self orders e) in E.
  pose proof (where_eligible_rows self orders e) as W.
  destruct (eligible_with_email self orders e) as [|o os]; [|discriminate E].
  rewrite W. cbn [flat_map].
  unfold RFM._calculate_rfm_metrics. simpl.
  now rewrite merge_all_data_no_metrics.
Qed.

(** C2.  A customer without eligible orders has no row in the output,
    whatever the frames hold.  When the customers have distinct e-mails up
    to the case of the letters and the catalog has one entry for every
    normalised SKU, the output holds exactly one row for every e-mail that
    is the e-mail of an eligible order and of a customer of the input, and
    none for any other e-mail. *)
Theorem one_row_per_customer (self : RFM.RFMProcessor) (st st' : RFM.store)
        (out : list RFM.RFMRecord) (customers : list RFM.customer)
        (orders : list RFM.raw_order) (catalog : list RFM.catalog_row)
        (e : string) :
  RFM.process self st = (inr out, st') ->
  RFM.customers_df st = RFM.Frame customers ->
  RFM.orders_df st = RFM.OrdersRaw orders ->
  RFM.catalog_df st = RFM.Frame catalog ->
  (is_eligible_email self orders e = false ->
   forall r, In r out -> RFM.Email r <> e)
  /\ (NoDup (map customer_key customers) ->
      NoDup (map catalog_key catalog) ->
      List.length (where_eq RFM.Email e out)
      = (if is_eligible_email self orders e && is_customer_email customers e
         then 1 else 0)%nat).
Proof.
  intros H Hc Ho Hk.
  destruct (process_success _ _ _ _ H)
    as (customers' & orders' & catalog' & items & -> & -> & _).
  injection Hc as ->. injection Ho as ->. injection Hk as ->.
  split.
  - intros E r Hr Er.
    assert (Hr' : In r (where_eq RFM.Email e
                          (RFM._format_output
                             (merged_frame self customers orders catalog items)))).
    { apply filter_In. split; [exact Hr|]. now apply String.eqb_eq. }
    rewrite (output_absent _ _ _ _ _ _ E) in Hr'. destruct Hr'.
  - intros Nc Nk.
    rewrite (output_count self customers orders catalog items e Nk).
    rewrite is_customer_email_where.
    pose proof (nodup_where customer_key customers e Nc) as S.
    destruct (is_eligible_email self orders e); [|reflexivity].
    destruct (where_eq customer_key e customers) as [|c [|c' cs]];
      simpl in S |- *; try reflexivity; lia.
Qed.

Lemma one_row_per_customer_witness :
  List.length
    (where_eq RFM.Email "ana@x.com"
       (RFM._format_output
          (merged_frame example_processor example_customers example_orders
                        example_catalog example_items))) = 1%nat
  /\ List.length
       (where_eq RFM.Email "bob@x.com"
          (RFM._format_output
             (merged_frame example_processor example_customers example_orders
                           example_catalog example_items))) = 0%nat.
Proof.
  assert (Nc : NoDup (map customer_key example_customers)).
  { repeat constructor; simpl; intuition discriminate. }
  assert (Nk : NoDup (map catalog_key example_catalog)).
  { repeat constructor; simpl; intuition. }
  split.
  - exact (proj2 (one_row_per_customer
                    example_processor example_store _ _ _ _ _ "ana@x.com"
                    (process_on_raw_frames example_processor example_customers
                       example_orders example_catalog example_items)
                    eq_refl eq_refl eq_refl) Nc Nk).
  - exact (proj2 (one_row_per_customer
                    example_processor example_store _ _ _ _ _ "bob@x.com"
                    (process_on_raw_frames example_processor example_customers
                       example_orders example_catalog example_items)
                    eq_refl eq_refl eq_refl) Nc Nk).
Defined.

(** C2, as the specification states it, fails on frames that repeat a key,
    which [process] accepts.  A catalog that lists the SKU 123 and the SKU
    00123, equal once normalised, gives the one customer with eligible
    orders two rows, and so does a customers frame that lists its customer
    twice. *)
Lemma repeated_key_counterexample :
  (exists out st',
      RFM.process example_processor two_spellings_store = (inr out, st')
      /\ is_eligible_email example_processor example_orders "ana@x.com" = true
      /\ is_customer_email example_customers "ana@x.com" = true
      /\ map RFM.Email out = ["ana@x.com"; "ana@x.com"]
      /\ List.length (where_eq RFM.Email "ana@x.com" out) <> 1%nat)
  /\ (exists out st',
         RFM.process example_processor twice_listed_store = (inr out, st')
         /\ is_eligible_email example_processor [same_day_order] "eva@x.com"
            = true
         /\ is_customer_email (same_day_customers ++ same_day_customers)
                              "eva@x.com" = true
         /\ map RFM.Email out = ["eva@x.com"; "eva@x.com"]
         /\ List.length (where_eq RFM.Email "eva@x.com" out) <> 1%nat).
Proof.
  split.
  - unfold two_spellings_store. rewrite process_on_raw_frames.
    eexists. eexists. split; [reflexivity|].
    split; [vm_compute; reflexivity|]. split; [vm_compute; reflexivity|].
    split; [vm_compute; reflexivity|]. vm_compute. discriminate.
  - unfold twice_listed_store. rewrite process_on_raw_frames.
    eexists. eexists. split; [reflexivity|].
    split; [vm_compute; reflexivity|]. split; [vm_compute; reflexivity|].
    split; [vm_compute; reflexivity|]. vm_compute. discriminate.
Qed.

(** ** The preferred value *)

Lemma idxmax_first {A : Type} (val : A -> Z) (rows : list A) (r : A) :
  idxmax val rows = Some r ->
  exists before after,
    rows = (before ++ r :: after)%list
    /\ (forall x, In x before -> val x < val r)
    /\ (forall x, In x after -> val x <= val r).
Proof.
  revert r. induction rows as [|x rows IH]; intros r; [discriminate|].
  simpl. destruct (idxmax val rows) as [b|] eqn:E.
  - destruct (IH b eq_refl) as (pre & post & -> & Hpre & Hpost).
    destruct (Z.leb_spec (val b) (val x)) as [L|L]; intros [= <-].
    + exists [], (pre ++ b :: post)%list. repeat split; [intros ? []|].
      intros y Hy. apply in_app_or in Hy.
      destruct Hy as [Hy|[<-|Hy]].
      * specialize (Hpre y Hy). lia.
      * exact L.
      * specialize (Hpost y Hy). lia.
    + exists (x :: pre), post. repeat split; [|exact Hpost].
      intros y [<-|Hy]; [exact L|now apply Hpre].
  - intros [= <-]. destruct rows; [|simpl in E; destruct (idxmax val rows);
                                      [destruct (_ <=? _)|]; discriminate].
    exists [], []. repeat split; intros ? [].
Qed.

Lemma idxmax_some {A : Type} (val : A -> Z) (x : A) (rows : list A) :
  exists r, idxmax val (x :: rows) = Some r.
Proof.
  simpl. destruct (idxmax val rows) as [b|]; [|now exists x].
  destruct (val b <=? val x); eauto.
Qed.

Section Increasing.
Context {K B : Type}.
Variable cmp : K -> K -> comparison.

Lemma increasing_map {B' : Type} (h : K * B -> B') (gs : list (K * B)) :
  increasing cmp gs -> increasing cmp (map (fun g => (fst g, h g)) gs).
Proof.
  induction 1 as [|g gs F I IH]; [constructor|].
  simpl. constructor; [|exact IH].
  rewrite Forall_forall in *. intros g' Hg'.
  apply in_map_iff in Hg'. destruct Hg' as (g0 & <- & H0). now apply F.
Qed.

Lemma increasing_filter (p : K * B -> bool) (gs : list (K * B)) :
  increasing cmp gs -> increasing cmp (filter p gs).
Proof.
  induction 1 as [|g gs F I IH]; [constructor|].
  simpl. destruct (p g); [|exact IH].
  constructor; [|exact IH].
  rewrite Forall_forall in *. intros g' Hg'.
  apply filter_In in Hg'. now apply F.
Qed.

Lemma increasing_after (before after : list (K * B)) (r : K * B) :
  increasing cmp (before ++ r :: after) ->
  forall x, In x after -> cmp (fst r) (fst x) = Lt.
Proof.
  induction before as [|b before IH]; simpl; intros I.
  - inversion I as [|? ? F _]. subst. now apply Forall_forall.
  - inversion I. subst. now apply IH.
Qed.

End Increasing.

(** The frame of summed quantities lists every pair of customer and value
    once, in the order of the pairs, with the quantity bought. *)
Lemma summed_quantities_spec col (df_items : list RFM.item_line) :
  increasing cmp_pair (RFM.summed_quantities col df_items)
  /\ (forall r, In r (RFM.summed_quantities col df_items) ->
      RFM.qty_total r
      = bought col (RFM.qty_email r) (RFM.qty_value r) df_items
      /\ exists l, In l df_items
                   /\ RFM.line_Customer_Email l = RFM.qty_email r
                   /\ col l = RFM.qty_value r)
  /\ (forall l, In l df_items ->
      exists r, In r (RFM.summed_quantities col df_items)
                /\ RFM.qty_email r = RFM.line_Customer_Email l
                /\ RFM.qty_value r = col l).
Proof.
  set (key := fun l => (RFM.line_Customer_Email l, col l)).
  destruct (groupby_spec cmp_pair key cmp_pair_laws df_items) as (I & N & G).
  assert (Hf : forall e v,
             filter (fun l => key_eqb cmp_pair (key l) (e, v)) df_items
             = filter (fun l => (String.eqb (RFM.line_Customer_Email l) e
                                 && String.eqb (col l) v)%bool) df_items).
  { intros e v. apply filter_ext. intros l. apply key_eqb_pair. }
  unfold RFM.summed_quantities. fold key. repeat split.
  - apply (increasing_map cmp_pair (fun g => RFM.sumZ (map RFM.qty_of (snd g)))).
    exact I.
  - apply in_map_iff in H. destruct H as (g & <- & Hg).
    destruct (groupby_member cmp_pair key cmp_pair_laws df_items g Hg)
      as [E _].
    destruct g as [[e v] rs]. simpl in *.
    unfold bought, RFM.qty_total, RFM.qty_email, RFM.qty_value. simpl.
    now rewrite E, Hf.
  - apply in_map_iff in H. destruct H as (g & <- & Hg).
    destruct (groupby_member cmp_pair key cmp_pair_laws df_items g Hg)
      as [E Ne].
    destruct g as [[e v] rs]. simpl in *.
    destruct rs as [|l rs]; [congruence|].
    assert (Hl : In l (filter (fun l => key_eqb cmp_pair (key l) (e, v))
                              df_items))
      by (rewrite <- E; now left).
    apply filter_In in Hl. destruct Hl as [Hl1 Hl2].
    apply (key_eqb_true cmp_pair cmp_pair_laws) in Hl2.
    injection Hl2 as <- <-. exists l. auto.
  - intros l Hl.
    assert (Hg : In (key l, group_of cmp_pair (key l)
                                     (groupby cmp_pair key df_items))
                    (groupby cmp_pair key df_items)).
    { assert (Hn : group_of cmp_pair (key l) (groupby cmp_pair key df_items)
                   <> []).
      { rewrite G. intros Hn.
        assert (Hin : In l (filter (fun r => key_eqb cmp_pair (key r) (key l))
                                   df_items)).
        { apply filter_In. split; [exact Hl|].
          apply (key_eqb_refl cmp_pair cmp_pair_laws). }
        rewrite Hn in Hin. destruct Hin. }
      pose proof (groups_with_key cmp_pair cmp_pair_laws
                    (groupby cmp_pair key df_items) (key l) I N) as W.
      destruct (group_of cmp_pair (key l) (groupby cmp_pair key df_items))
        as [|x xs] eqn:Eg; [congruence|].
      assert (Hm : In (key l, x :: xs)
                      (filter (fun g => key_eqb cmp_pair (fst g) (key l))
                              (groupby cmp_pair key df_items)))
        by (rewrite W; now left).
      now apply filter_In in Hm. }
    eexists. split; [apply in_map; exact Hg|]. split; reflexivity.
Qed.

Lemma cmp_pair_same (e v v' : string) :
  cmp_pair (e, v) (e, v') = cmp_str v v'.
Proof. unfold cmp_pair. simpl. now rewrite cmp_str_refl. Qed.

(** What [preferred] returns for one customer. *)
Lemma preferred_row col (df_items : list RFM.item_line) (r : RFM.qty_row) :
  In r (RFM.preferred col df_items) ->
  idxmax RFM.qty_total
         (where_eq RFM.qty_email (RFM.qty_email r)
                   (RFM.summed_quantities col df_items)) = Some r.
Proof.
  intros H.
  assert (H' : In r (where_eq RFM.qty_email (RFM.qty_email r)
                              (RFM.preferred col df_items))).
  { apply filter_In. split; [exact H|apply String.eqb_refl]. }
  unfold RFM.preferred in H'. rewrite rows_of_idxmax_local in H'.
  unfold RFM.rows_of_idxmax in H'.
  rewrite (groupby_one_key RFM.qty_email _ (RFM.qty_email r)) in H'
    by apply in_where_eq.
  destruct (where_eq RFM.qty_email (RFM.qty_email r) _) as [|x xs];
    [destruct H'|].
  cbn [one_group flat_map snd] in H'. rewrite app_nil_r in H'.
  destruct (idxmax RFM.qty_total (x :: xs)) as [b|]; [|destruct H'].
  destruct H' as [<-|[]]. reflexivity.
Qed.

(** C4, as the code has it.  The row that [preferred] returns for a
    customer holds the quantity that the customer bought of its value, no
    value of the customer has a larger quantity, and among the values that
    tie for the largest quantity it is the smallest in the order of the
    texts, wherever the rows of the values stand in the frame.  This is the
    computation of the preferred category, of the preferred brand and of
    the favourite product. *)
Theorem preferred_is_smallest_tied_value
        (col : RFM.item_line -> string) (df_items : list RFM.item_line)
        (r : RFM.qty_row) :
  In r (RFM.preferred col df_items) ->
  RFM.qty_total r = bought col (RFM.qty_email r) (RFM.qty_value r) df_items
  /\ (exists l, In l df_items
                /\ RFM.line_Customer_Email l = RFM.qty_email r
                /\ col l = RFM.qty_value r)
  /\ forall l,
      In l df_items ->
      RFM.line_Customer_Email l = RFM.qty_email r ->
      bought col (RFM.qty_email r) (col l) df_items <= RFM.qty_total r
      /\ (bought col (RFM.qty_email r) (col l) df_items = RFM.qty_total r ->
          cmp_str (RFM.qty_value r) (col l) <> Gt).
Proof.
  intros H.
  destruct (summed_quantities_spec col df_items) as (I & S1 & S2).
  pose proof (preferred_row col df_items r H) as M.
  destruct (idxmax_first _ _ _ M) as (pre & post & W & Hpre & Hpost).
  assert (Hr : In r (RFM.summed_quantities col df_items)).
  { assert (Hr : In r (where_eq RFM.qty_email (RFM.qty_email r)
                                (RFM.summed_quantities col df_items)))
      by (rewrite W; apply in_or_app; right; now left).
    now apply filter_In in Hr. }
  destruct (S1 r Hr) as [T L]. split; [exact T|]. split; [exact L|].
  intros l Hl El.
  destruct (S2 l Hl) as (x & Hx & Ex & Vx).
  destruct (S1 x Hx) as [Tx _]. rewrite Ex, Vx, El in Tx. rewrite <- Tx.
  assert (Hw : In x (pre ++ r :: post)).
  { rewrite <- W. apply filter_In. split; [exact Hx|].
    apply String.eqb_eq. congruence. }
  apply in_app_or in Hw. destruct Hw as [Hw|[<-|Hw]].
  - specialize (Hpre x Hw). split; lia.
  - split; [lia|]. intros _. rewrite <- Vx, cmp_str_refl. discriminate.
  - split; [now apply Hpost|]. intros _.
    assert (Inc : increasing cmp_pair (pre ++ r :: post)).
    { rewrite <- W. now apply increasing_filter. }
    pose proof (increasing_after cmp_pair pre post r Inc x Hw) as C.
    destruct r as [[e v] q], x as [[e' v'] q'].
    unfold RFM.qty_email, RFM.qty_value in *. simpl in *. subst.
    rewrite cmp_pair_same in C. rewrite C. discriminate.
Qed.

Lemma preferred_is_smallest_tied_value_witness :
  RFM.qty_total ("ana@x.com", "Alfa", 1)
  = bought RFM.Categoria_Limpia "ana@x.com" "Alfa" tied_lines
  /\ forall l,
      In l tied_lines ->
      RFM.line_Customer_Email l = "ana@x.com" ->
      bought RFM.Categoria_Limpia "ana@x.com" (RFM.Categoria_Limpia l)
             tied_lines <= 1
      /\ (bought RFM.Categoria_Limpia "ana@x.com" (RFM.Categoria_Limpia l)
                 tied_lines = 1 ->
          cmp_str "Alfa" (RFM.Categoria_Limpia l) <> Gt).
Proof.
  destruct (preferred_is_smallest_tied_value
              RFM.Categoria_Limpia tied_lines ("ana@x.com", "Alfa", 1)
              (or_introl eq_refl)) as (T & _ & F).
  split; [exact T|exact F].
Defined.

(** Every customer with an order line has a preferred value. *)
Lemma preferred_exists (col : RFM.item_line -> string)
      (df_items : list RFM.item_line) (l : RFM.item_line) :
  In l df_items ->
  exists r, In r (RFM.preferred col df_items)
            /\ RFM.qty_email r = RFM.line_Customer_Email l.
Proof.
  intros Hl.
  destruct (summed_quantities_spec col df_items) as (_ & _ & S2).
  destruct (S2 l Hl) as (x & Hx & Ex & _).
  assert (Hw : In x (where_eq RFM.qty_email (RFM.line_Customer_Email l)
                              (RFM.summed_quantities col df_items))).
  { apply filter_In. split; [exact Hx|]. now apply String.eqb_eq. }
  assert (P : where_eq RFM.qty_email (RFM.line_Customer_Email l)
                       (RFM.preferred col df_items)
              = RFM.rows_of_idxmax
                  (where_eq RFM.qty_email (RFM.line_Customer_Email l)
                            (RFM.summed_quantities col df_items)))
    by apply rows_of_idxmax_local.
  unfold RFM.rows_of_idxmax in P.
  rewrite (groupby_one_key RFM.qty_email _ (RFM.line_Customer_Email l)) in P
    by apply in_where_eq.
  destruct (where_eq RFM.qty_email (RFM.line_Customer_Email l)
                     (RFM.summed_quantities col df_items)) as [|y ys];
    [destruct Hw|].
  cbn [one_group flat_map snd] in P. rewrite app_nil_r in P.
  destruct (idxmax_some RFM.qty_total y ys) as (r & Er). rewrite Er in P.
  exists r.
  assert (Hr : In r (where_eq RFM.qty_email (RFM.line_Customer_Email l)
                              (RFM.preferred col df_items)))
    by (rewrite P; now left).
  apply filter_In in Hr. destruct Hr as [Hr1 Hr2].
  split; [exact Hr1|]. now apply String.eqb_eq.
Qed.

(** C4, as the specification states it, fails on two lines of one customer
    that tie: the category, the brand and the product of the first line
    come first in the frame, and [preferred] returns those of the second
    line, which come first in the order of the texts. *)
Lemma first_occurrence_counterexample :
  (RFM.preferred RFM.Categoria_Limpia tied_lines = [("ana@x.com", "Alfa", 1)]
   /\ spec_first_occurrence RFM.Categoria_Limpia "ana@x.com" tied_lines
      = Some "Zeta")
  /\ (RFM.preferred RFM.line_brand tied_lines = [("ana@x.com", "Martillo", 1)]
      /\ spec_first_occurrence RFM.line_brand "ana@x.com" tied_lines
         = Some "Yunque")
  /\ (RFM.preferred RFM.line_sku tied_lines = [("ana@x.com", "00001", 1)]
      /\ spec_first_occurrence RFM.line_sku "ana@x.com" tied_lines
         = Some "00002")
  /\ map (fun p => (RFM.pref_Categoria_Preferida p, RFM.pref_Marca_Preferida p,
                    RFM.pref_Producto_Favorito_SKU p))
         (RFM.merge_preferences tied_lines [] [])
     = [("Alfa", Some "Martillo", Some "00001")].
Proof. vm_compute. repeat split. Qed.

(** ** Texts of digits and separators *)

Lemma all_digits_all_chars (s : string) : all_digits s = all_chars is_digit s.
Proof. induction s as [|c s IH]; simpl; congruence. Qed.

Lemma all_chars_append (p : ascii -> bool) (a b : string) :
  all_chars p (a ++ b) = (all_chars p a && all_chars p b)%bool.
Proof.
  induction a as [|c a IH]; simpl; [reflexivity|].
  now rewrite IH, andb_assoc.
Qed.

Lemma all_chars_imp (p q : ascii -> bool) (s : string) :
  (forall c, p c = true -> q c = true) ->
  all_chars p s = true -> all_chars q s = true.
Proof.
  intros H. induction s as [|c s IH]; simpl; [reflexivity|].
  intros E. apply andb_prop in E. destruct E as [E1 E2].
  now rewrite (H c E1), IH.
Qed.

Lemma digits_absent (a : ascii) (s : string) :
  is_digit a = false -> all_digits s = true -> absent a s = true.
Proof.
  intros Ha. rewrite all_digits_all_chars. apply all_chars_imp.
  intros c Hc. destruct (Ascii.eqb_spec c a) as [->|]; [congruence|reflexivity].
Qed.

Lemma append_assoc (a b c : string) : (a ++ b) ++ c = a ++ (b ++ c).
Proof. induction a as [|x a IH]; simpl; congruence. Qed.

Lemma append_nil_r (a : string) : a ++ EmptyString = a.
Proof. induction a as [|x a IH]; simpl; congruence. Qed.

Lemma replace_append (a : ascii) (b s t : string) :
  replace a b (s ++ t) = replace a b s ++ replace a b t.
Proof.
  induction s as [|c s IH]; simpl; [reflexivity|].
  rewrite IH. destruct (Ascii.eqb c a); [|reflexivity].
  now rewrite append_assoc.
Qed.

Lemma replace_absent (a : ascii) (b s : string) :
  absent a s = true -> replace a b s = s.
Proof.
  unfold absent. induction s as [|c s IH]; simpl; [reflexivity|].
  intros E. apply andb_prop in E. destruct E as [E1 E2].
  apply negb_true_iff in E1. now rewrite E1, IH.
Qed.

Lemma group3_tail (sep : string) (c : ascii) (rest : string) :
  group3 sep (String c rest)
  = String c (match rest with
              | EmptyString => EmptyString
              | _ => if (String.length rest mod 3 =? 0)%nat
                     then sep ++ group3 sep rest
                     else group3 sep rest
              end).
Proof. reflexivity. Qed.

(** Replacing the separator of a grouped text of other characters. *)
Lemma replace_group3 (a : ascii) (b s : string) :
  absent a s = true ->
  replace a b (group3 (String a EmptyString) s) = group3 b s.
Proof.
  unfold absent. induction s as [|c s IH]; [reflexivity|].
  cbn [all_chars]. intros E. apply andb_prop in E. destruct E as [E1 E2].
  apply negb_true_iff in E1. specialize (IH E2).
  rewrite !group3_tail. cbn [replace]. rewrite E1. f_equal.
  destruct s as [|c' s']; [reflexivity|].
  destruct (_ =? 0)%nat; [|exact IH].
  cbn [append replace]. rewrite Ascii.eqb_refl. now rewrite IH.
Qed.

Lemma group3_no_separator (s : string) : group3 EmptyString s = s.
Proof.
  induction s as [|c s IH]; [reflexivity|].
  rewrite group3_tail. f_equal.
  destruct s as [|c' s']; [reflexivity|].
  destruct (_ =? 0)%nat; exact IH.
Qed.

Lemma all_chars_group3 (p : ascii -> bool) (sep s : string) :
  all_chars p sep = true -> all_chars p s = true ->
  all_chars p (group3 sep s) = true.
Proof.
  intros Hsep. induction s as [|c s IH]; [reflexivity|].
  cbn [all_chars]. intros E. apply andb_prop in E. destruct E as [E1 E2].
  rewrite group3_tail. cbn [all_chars]. rewrite E1. cbn [andb].
  destruct s as [|c' s']; [reflexivity|].
  destruct (_ =? 0)%nat; [|now apply IH].
  rewrite all_chars_append, Hsep. now apply IH.
Qed.

Lemma rstrip_no_space (s : string) :
  all_chars (fun c => negb (is_space c)) s = true -> rstrip s = s.
Proof.
  induction s as [|c s IH]; [reflexivity|].
  cbn [all_chars]. intros E. apply andb_prop in E. destruct E as [E1 E2].
  apply negb_true_iff in E1. cbn [rstrip]. rewrite (IH E2), E1.
  now destruct s.
Qed.

Lemma strip_no_space (s : string) :
  all_chars (fun c => negb (is_space c)) s = true -> strip s = s.
Proof.
  intros H. unfold strip.
  assert (L : lstrip s = s).
  { destruct s as [|c s]; [reflexivity|]. cbn [all_chars] in H.
    apply andb_prop in H. destruct H as [H _]. apply negb_true_iff in H.
    cbn [lstrip]. now rewrite H. }
  rewrite L. now apply rstrip_no_space.
Qed.

Lemma uint_digits (d : Decimal.uint) :
  all_digits (NilEmpty.string_of_uint d) = true.
Proof. induction d; simpl; auto. Qed.

Lemma digits_all_digits (n : Z) : all_digits (digits n) = true.
Proof. apply uint_digits. Qed.

Lemma digits_first (n : Z) :
  exists c rest, digits n = String c rest /\ is_digit c = true.
Proof.
  pose proof (digits_all_digits n) as H. unfold digits in *.
  destruct (NilEmpty.string_of_uint (N.to_uint (Z.to_N n))) as [|c rest] eqn:E.
  - exfalso. destruct (Z.to_N n) as [|p]; [discriminate E|].
    simpl in E. apply (DecimalPos.Unsigned.to_uint_nonnil p).
    destruct (Pos.to_uint p); try discriminate E. reflexivity.
  - exists c, rest. split; [reflexivity|].
    simpl in H. now apply andb_prop in H.
Qed.

Lemma digit_char_digit (d : Z) : 0 <= d < 10 -> is_digit (digit_char d) = true.
Proof.
  intros H.
  assert (C : d = 0 \/ d = 1 \/ d = 2 \/ d = 3 \/ d = 4 \/ d = 5 \/ d = 6
              \/ d = 7 \/ d = 8 \/ d = 9) by lia.
  repeat (destruct C as [->|C]; [reflexivity|]). now subst.
Qed.

Lemma two_digits_all_digits (m : Z) :
  0 <= m < 100 -> all_digits (two_digits m) = true.
Proof.
  intros H. unfold two_digits. cbn [all_digits].
  rewrite !digit_char_digit; [reflexivity| |].
  - apply Z.mod_pos_bound. lia.
  - split; [apply Z.div_pos; lia|apply Z.div_lt_upper_bound; lia].
Qed.

(** ** Reading a number back *)

Lemma split_first_spec (c : ascii) (s l : string) (r : option string) :
  split_first c s = (l, r) ->
  s = l ++ match r with Some t => String c t | None => EmptyString end.
Proof.
  revert l r. induction s as [|a s IH]; simpl; intros l r.
  - intros [= <- <-]. reflexivity.
  - destruct (Ascii.eqb_spec a c) as [->|N].
    + intros [= <- <-]. reflexivity.
    + destruct (split_first c s) as [l' r']. intros [= <- <-].
      simpl. f_equal. now apply IH.
Qed.

Lemma split_first_absent (c : ascii) (l r : string) :
  absent c l = true -> split_first c (l ++ String c r) = (l, Some r).
Proof.
  unfold absent. induction l as [|a l IH]; simpl.
  - now rewrite Ascii.eqb_refl.
  - intros E. apply andb_prop in E. destruct E as [E1 E2].
    apply negb_true_iff in E1. now rewrite E1, (IH E2).
Qed.

Lemma uint_of_string_digits (s : string) d :
  NilEmpty.uint_of_string s = Some d -> all_digits s = true.
Proof.
  revert d. induction s as [|a s IH]; [reflexivity|]. simpl. intros d.
  destruct (NilEmpty.uint_of_string s) as [d'|]; [|discriminate].
  intros H. rewrite (IH d' eq_refl), andb_true_r.
  apply uint_of_char_spec in H.
  repeat (destruct H as [[-> _]|H]; [reflexivity|]).
  destruct H as [-> _]. reflexivity.
Qed.

Lemma nat_of_digits_some (s : string) (n : N) :
  nat_of_digits s = Some n -> all_digits s = true.
Proof.
  unfold nat_of_digits.
  destruct (NilEmpty.uint_of_string s) as [d|] eqn:E; [|discriminate].
  intros _. exact (uint_of_string_digits s d E).
Qed.

Lemma unsigned_decimal_comma (s : string) :
  absent "," s = false -> unsigned_decimal s = None.
Proof.
  intros H. unfold unsigned_decimal.
  destruct (split_first "." s) as [ip fp] eqn:E.
  apply split_first_spec in E.
  destruct (nat_of_digits ip) as [i|] eqn:Ei;
    [|now destruct ip, fp as [[|]|]].
  destruct (nat_of_digits
              (match fp with Some t => t | None => EmptyString end))
    as [f|] eqn:Ef; [|now destruct ip, fp as [[|]|]].
  exfalso. apply nat_of_digits_some in Ei, Ef.
  assert (A : absent "," s = true).
  { rewrite E. unfold absent. rewrite all_chars_append.
    fold (absent "," ip). rewrite (digits_absent "," ip eq_refl Ei).
    destruct fp as [t|]; [|reflexivity].
    cbn. exact (digits_absent "," t eq_refl Ef). }
  congruence.
Qed.

Lemma float_of_str_comma (s : string) :
  absent "," s = false -> float_of_str s = None.
Proof.
  destruct s as [|c rest]; [discriminate|].
  destruct c as [[] [] [] [] [] [] [] []]; intros H;
    cbn [float_of_str];
    try (now apply unsigned_decimal_comma);
    rewrite unsigned_decimal_comma; auto.
Qed.

Lemma float_of_str_digit (c : ascii) (rest : string) :
  is_digit c = true ->
  float_of_str (String c rest) = unsigned_decimal (String c rest).
Proof.
  destruct c as [[] [] [] [] [] [] [] []]; intros H;
    try reflexivity; discriminate H.
Qed.

Lemma nat_of_digits_digits (n : Z) :
  nat_of_digits (digits n) = Some (Z.to_N n).
Proof.
  unfold nat_of_digits, digits.
  rewrite NilEmpty.usu. cbn [option_map].
  now rewrite DecimalN.Unsigned.of_to.
Qed.

Lemma nat_of_two_digits (m : Z) :
  0 <= m < 100 -> nat_of_digits (two_digits m) = Some (Z.to_N m).
Proof.
  intros H. unfold two_digits.
  assert (A : 0 <= m / 10 < 10)
    by (split; [apply Z.div_pos; lia|apply Z.div_lt_upper_bound; lia]).
  assert (B : 0 <= m mod 10 < 10) by (apply Z.mod_pos_bound; lia).
  rewrite (Z.div_mod m 10) at 3 by lia.
  generalize dependent (m / 10). generalize dependent (m mod 10).
  intros b Hb a Ha.
  assert (Ca : a = 0 \/ a = 1 \/ a = 2 \/ a = 3 \/ a = 4 \/ a = 5 \/ a = 6
               \/ a = 7 \/ a = 8 \/ a = 9) by lia.
  assert (Cb : b = 0 \/ b = 1 \/ b = 2 \/ b = 3 \/ b = 4 \/ b = 5 \/ b = 6
               \/ b = 7 \/ b = 8 \/ b = 9) by lia.
  clear Ha Hb.
  repeat (destruct Ca as [->|Ca]);
    repeat (destruct Cb as [->|Cb]); subst; reflexivity.
Qed.

Lemma unsigned_decimal_shown (i m : Z) :
  0 <= i -> 0 <= m < 100 ->
  unsigned_decimal (digits i ++ "." ++ two_digits m)
  = Some (Qplus (inject_Z i) (m # 100)).
Proof.
  intros Hi Hm. unfold unsigned_decimal.
  change ("." ++ two_digits m) with (String "." (two_digits m)).
  rewrite split_first_absent
    by (apply digits_absent; [reflexivity|apply digits_all_digits]).
  rewrite nat_of_digits_digits, nat_of_two_digits by exact Hm.
  rewrite !Z2N.id by lia.
  destruct (digits_first i) as (c & rest & -> & _). reflexivity.
Qed.

(** ** Rounding to hundredths *)

Lemma round_half_even_Z (n d : Z) :
  0 <= n -> 0 < d ->
  let f := n / d in
  let r := n mod d in
  let m := match (2 * r ?= d) with
           | Lt => f
           | Gt => f + 1
           | Eq => if Z.even f then f else f + 1
           end in
  0 <= m /\ Z.abs (m * d - n) * 2 <= d.
Proof.
  intros Hn Hd f r m.
  assert (E : n = d * f + r) by (apply Z.div_mod; lia).
  assert (R : 0 <= r < d) by (apply Z.mod_pos_bound; lia).
  assert (F : 0 <= f) by (apply Z.div_pos; lia).
  assert (A : f * d - n = - r) by (rewrite E; ring).
  assert (B : (f + 1) * d - n = d - r) by (rewrite E; ring).
  subst m. destruct (Z.compare_spec (2 * r) d) as [C|C|C].
  - destruct (Z.even f); [rewrite A|rewrite B]; lia.
  - rewrite A. lia.
  - rewrite B. lia.
Qed.

Lemma cents_spec (q : Q) :
  0 <= cents q
  /\ Z.abs (cents q * Zpos (Qden q) - Z.abs (Qnum q) * 100) * 2
     <= Zpos (Qden q).
Proof.
  destruct q as [num den]. unfold cents, round_half_even.
  change (Qnum (Qabs (num # den) * 100)) with (Z.abs num * 100).
  change (Qden (Qabs (num # den) * 100)) with (den * 1)%positive.
  rewrite Pos.mul_1_r. cbn [Qnum Qden].
  apply round_half_even_Z; [|reflexivity].
  pose proof (Z.abs_nonneg num). lia.
Qed.

Lemma shown_value_close (q : Q) : (Qabs (shown_value q - q) <= 1 # 200)%Q.
Proof.
  destruct (cents_spec q) as [_ H]. destruct q as [num den].
  unfold shown_value, Qltb, Qle_bool. cbn [Qnum Qden] in *.
  rewrite Z.mul_0_l, Z.mul_1_r.
  destruct (Z.leb_spec 0 num) as [L|L]; cbn [negb];
    unfold Qle, Qabs, Qminus, Qplus, Qopp; cbn [Qnum Qden];
    rewrite Pos2Z.inj_mul.
  - rewrite (Z.abs_eq num) in H by exact L.
    replace (cents (num # den) * Z.pos den + - num * 100)
      with (cents (num # den) * Z.pos den - num * 100) by ring.
    lia.
  - rewrite (Z.abs_neq num) in H by lia.
    replace (- cents (num # den) * Z.pos den + - num * 100)
      with (- (cents (num # den) * Z.pos den - - num * 100)) by ring.
    rewrite Z.abs_opp. lia.
Qed.

Lemma hundredths (c : Z) :
  (inject_Z (c / 100) + (c mod 100 # 100) == c # 100)%Q.
Proof.
  unfold Qeq, Qplus, inject_Z. cbn [Qnum Qden].
  pose proof (Z.div_mod c 100). lia.
Qed.

(** ** Formatting and parsing *)

Lemma sign_text (q : Q) (a : ascii) :
  Ascii.eqb a "-" = false ->
  absent a (if Qltb q 0 then "-" else EmptyString) = true.
Proof.
  intros H. destruct (Qltb q 0); [|reflexivity].
  unfold absent, all_chars. rewrite Ascii.eqb_sym, H. reflexivity.
Qed.

(** The text that [format_to_comma_decimal] returns for a number: the
    sign, the digits of the units in groups of three with dots between
    them, a comma and the two digits of the hundredths. *)
Lemma format_shape (q : Q) :
  format_to_comma_decimal (Some (Fin q))
  = (if Qltb q 0 then "-" else EmptyString)
      ++ group3 "." (digits (cents q / 100))
      ++ "," ++ two_digits (cents q mod 100).
Proof.
  unfold format_to_comma_decimal, format_2f_grouped.
  set (ds := digits (cents q / 100)).
  set (dd := two_digits (cents q mod 100)).
  assert (Hds : forall a, is_digit a = false -> absent a ds = true)
    by (intros a Ha; apply digits_absent; [exact Ha|apply digits_all_digits]).
  assert (Hdd : forall a, is_digit a = false -> absent a dd = true).
  { intros a Ha. apply digits_absent; [exact Ha|].
    apply two_digits_all_digits. apply Z.mod_pos_bound. lia. }
  rewrite !replace_append.
  rewrite (replace_absent "," "X") by (now apply sign_text).
  rewrite (replace_absent "." ",") by (now apply sign_text).
  rewrite (replace_absent "X" ".") by (now apply sign_text).
  rewrite (replace_group3 "," "X") by (now apply Hds).
  rewrite (replace_absent "." "," (group3 "X" ds))
    by (apply all_chars_group3; [reflexivity|now apply Hds]).
  change (group3 "X" ds) with (group3 (String "X" EmptyString) ds).
  rewrite (replace_group3 "X" ".") by (now apply Hds).
  change (replace "," "X" ".") with ".".
  change (replace "." "," ".") with ",".
  change (replace "X" "." ",") with ",".
  rewrite (replace_absent "," "X" dd) by (now apply Hdd).
  rewrite (replace_absent "." "," dd) by (now apply Hdd).
  rewrite (replace_absent "X" "." dd) by (now apply Hdd).
  reflexivity.
Qed.

Lemma parse_text (s : string) :
  s <> EmptyString ->
  parse_comma_decimal (PStr s)
  = match float_of_str (strip s) with
    | Some q => Fin q
    | None =>
        match float_of_str
                (replace "," "." (replace "." EmptyString (strip s))) with
        | Some q => Fin q
        | None => Fin 0
        end
    end.
Proof. destruct s; [congruence|reflexivity]. Qed.

Lemma digit_no_space (c : ascii) :
  is_digit c = true -> negb (is_space c) = true.
Proof. destruct c as [[] [] [] [] [] [] [] []]; vm_compute; congruence. Qed.

(** Parsing what the formatter wrote gives the shown value. *)
Lemma parse_formatted (q : Q) :
  parse_comma_decimal (PStr (format_to_comma_decimal (Some (Fin q))))
  = Fin (if Qltb q 0
         then Qopp (Qplus (inject_Z (cents q / 100)) (cents q mod 100 # 100))
         else Qplus (inject_Z (cents q / 100)) (cents q mod 100 # 100)).
Proof.
  rewrite format_shape.
  destruct (cents_spec q) as [C _].
  assert (Hi : 0 <= cents q / 100) by (apply Z.div_pos; lia).
  assert (Hm : 0 <= cents q mod 100 < 100) by (apply Z.mod_pos_bound; lia).
  pose proof (unsigned_decimal_shown _ _ Hi Hm) as U.
  pose proof (digits_all_digits (cents q / 100)) as Dd.
  pose proof (two_digits_all_digits _ Hm) as Td.
  destruct (digits_first (cents q / 100)) as (c & rest & Eds & Hc).
  set (ds := digits (cents q / 100)) in *.
  set (dd := two_digits (cents q mod 100)) in *.
  set (sgn := if Qltb q 0 then "-" else EmptyString).
  assert (Hs : forall a, Ascii.eqb a "-" = false -> absent a sgn = true)
    by (intros a Ha; now apply sign_text).
  assert (Hds : forall a, is_digit a = false -> absent a ds = true)
    by (intros a Ha; now apply digits_absent).
  assert (Hdd : forall a, is_digit a = false -> absent a dd = true)
    by (intros a Ha; now apply digits_absent).
  assert (Ne : sgn ++ group3 "." ds ++ "," ++ dd <> EmptyString).
  { subst sgn. destruct (Qltb q 0); [discriminate|].
    rewrite Eds, group3_tail. discriminate. }
  assert (Sp : strip (sgn ++ group3 "." ds ++ "," ++ dd)
               = sgn ++ group3 "." ds ++ "," ++ dd).
  { apply strip_no_space. rewrite !all_chars_append.
    assert (S1 : all_chars (fun c => negb (is_space c)) sgn = true)
      by (subst sgn; now destruct (Qltb q 0)).
    assert (S2 : forall t, all_digits t = true ->
                           all_chars (fun c => negb (is_space c)) t = true).
    { intros t Ht. rewrite all_digits_all_chars in Ht.
      revert Ht. apply all_chars_imp. apply digit_no_space. }
    rewrite S1, all_chars_group3, (S2 dd Td); auto. }
  rewrite (parse_text _ Ne), Sp.
  rewrite float_of_str_comma.
  2:{ unfold absent. rewrite !all_chars_append. cbn [all_chars].
      rewrite Ascii.eqb_refl. cbn [negb andb].
      now rewrite !andb_false_r. }
  rewrite !replace_append.
  rewrite (replace_absent "." EmptyString sgn) by (now apply Hs).
  rewrite (replace_group3 "." EmptyString) by (now apply Hds).
  rewrite group3_no_separator.
  change (replace "." EmptyString ",") with ",".
  rewrite (replace_absent "." EmptyString dd) by (now apply Hdd).
  rewrite (replace_absent "," "." sgn) by (now apply Hs).
  rewrite (replace_absent "," "." ds) by (now apply Hds).
  change (replace "," "." ",") with ".".
  rewrite (replace_absent "," "." dd) by (now apply Hdd).
  subst sgn. destruct (Qltb q 0).
  - change ("-" ++ ds ++ "." ++ dd) with (String "-" (ds ++ "." ++ dd)).
    cbn [float_of_str]. now rewrite U.
  - change (EmptyString ++ ds ++ "." ++ dd) with (ds ++ "." ++ dd).
    assert (F : float_of_str (ds ++ "." ++ dd) = unsigned_decimal (ds ++ "." ++ dd)).
    { rewrite Eds.
      change (String c rest ++ "." ++ dd) with (String c (rest ++ "." ++ dd)).
      apply (float_of_str_digit c _ Hc). }
    rewrite F, U. reflexivity.
Qed.

(** A value that is a whole number of hundredths is shown as it is. *)
Lemma shown_value_exact (q : Q) (k : Z) :
  (q == k # 100)%Q -> (shown_value q == q)%Q.
Proof.
  intros H. destruct (cents_spec q) as [C0 C]. destruct q as [n d].
  unfold Qeq in H. cbn [Qnum Qden] in H, C.
  assert (A : Z.abs n * 100 = Z.abs k * Z.pos d).
  { change 100 with (Z.abs 100) at 1.
    rewrite <- Z.abs_mul, H, Z.abs_mul. reflexivity. }
  rewrite A in C.
  assert (E : cents (n # d) = Z.abs k).
  { replace (cents (n # d) * Z.pos d - Z.abs k * Z.pos d)
      with ((cents (n # d) - Z.abs k) * Z.pos d) in C by ring.
    rewrite Z.abs_mul, (Z.abs_eq (Z.pos d)) in C by lia.
    destruct (Z.eq_dec (cents (n # d)) (Z.abs k)) as [e|e]; [exact e|].
    assert (1 <= Z.abs (cents (n # d) - Z.abs k)) by lia.
    nia. }
  unfold shown_value, Qltb, Qle_bool. cbn [Qnum Qden]. rewrite E.
  rewrite Z.mul_0_l, Z.mul_1_r.
  destruct (Z.leb_spec 0 n) as [L|L]; cbn [negb];
    unfold Qeq, Qopp; cbn [Qnum Qden]; nia.
Qed.

(** C8.  The formatter writes 1234.56, also as the float nearest to it, as
    1.234,56 and writes None and NaN as 0,00; for every finite [q], parsing
    what the formatter wrote gives the value of [q] rounded to hundredths,
    half-way cases to the even neighbour: a value within half a hundredth
    of [q], and [q] itself when [q] is a whole number of hundredths. *)
Theorem format_then_parse (q : Q) :
  format_to_comma_decimal (Some (Fin (123456 # 100))) = "1.234,56"
  /\ format_to_comma_decimal
       (Some (Fin (2714826150374277 # 2199023255552))) = "1.234,56"
  /\ format_to_comma_decimal None = "0,00"
  /\ format_to_comma_decimal (Some NaN) = "0,00"
  /\ exists r,
      parse_comma_decimal (PStr (format_to_comma_decimal (Some (Fin q))))
      = Fin r
      /\ (r == shown_value q)%Q
      /\ (Qabs (r - q) <= 1 # 200)%Q
      /\ forall k : Z, (q == k # 100)%Q -> (r == q)%Q.
Proof.
  do 4 (split; [vm_compute; reflexivity|]).
  eexists. split; [apply parse_formatted|].
  assert (E : ((if Qltb q 0
                then Qopp (Qplus (inject_Z (cents q / 100))
                                 (cents q mod 100 # 100))
                else Qplus (inject_Z (cents q / 100)) (cents q mod 100 # 100))
               == shown_value q)%Q).
  { unfold shown_value. destruct (Qltb q 0); rewrite hundredths; reflexivity. }
  split; [exact E|]. split; [rewrite E; apply shown_value_close|].
  intros k H. rewrite E. now apply (shown_value_exact q k).
Qed.

(** C8, as the specification states it, fails on the float 1/256, which
    the formatter writes as 0,00: the parser returns 0, which is not close
    to 0.00390625. *)
Lemma roundtrip_counterexample :
  format_to_comma_decimal (Some (Fin (1 # 256))) = "0,00"
  /\ parse_comma_decimal (PStr (format_to_comma_decimal (Some (Fin (1 # 256)))))
     = Fin (0 # 100)
  /\ ~ isclose (0 # 100) (1 # 256).
Proof.
  split; [vm_compute; reflexivity|]. split; [vm_compute; reflexivity|].
  intros [H|H]; vm_compute in H; apply H; reflexivity.
Qed.

(** ** Texts without whitespace at their ends *)

Lemma lstrip_starts_clean (s : string) : starts_clean (lstrip s) = true.
Proof.
  induction s as [|c s IH]; [reflexivity|]. simpl.
  destruct (is_space c) eqn:E; [exact IH|]. simpl. now rewrite E.
Qed.

Lemma lstrip_id (s : string) : starts_clean s = true -> lstrip s = s.
Proof.
  destruct s as [|c s]; [reflexivity|]. simpl.
  now destruct (is_space c).
Qed.

Lemma ends_clean_cons (c d : ascii) (r : string) :
  ends_clean (String c (String d r)) = ends_clean (String d r).
Proof. reflexivity. Qed.

Lemma rstrip_cons (c : ascii) (s : string) :
  rstrip (String c s)
  = match rstrip s with
    | EmptyString => if is_space c then EmptyString else String c EmptyString
    | r => String c r
    end.
Proof. reflexivity. Qed.

Lemma rstrip_ends_clean (s : string) : ends_clean (rstrip s) = true.
Proof.
  induction s as [|c s IH]; [reflexivity|]. rewrite rstrip_cons.
  destruct (rstrip s) as [|d r].
  - destruct (is_space c) eqn:E; [reflexivity|]. simpl. now rewrite E.
  - rewrite ends_clean_cons. exact IH.
Qed.

Lemma rstrip_id (s : string) : ends_clean s = true -> rstrip s = s.
Proof.
  induction s as [|c s IH]; [reflexivity|]. destruct s as [|d r].
  - simpl. intros H. destruct (is_space c); [discriminate|reflexivity].
  - rewrite ends_clean_cons. intros H. rewrite rstrip_cons, (IH H).
    reflexivity.
Qed.

Lemma rstrip_starts_clean (s : string) :
  starts_clean s = true -> starts_clean (rstrip s) = true.
Proof.
  destruct s as [|c s]; [reflexivity|]. rewrite rstrip_cons.
  cbn [starts_clean]. intros H.
  destruct (is_space c) eqn:E; [discriminate|].
  destruct (rstrip s); cbn [starts_clean]; now rewrite E.
Qed.

Lemma strip_clean (s : string) :
  starts_clean (strip s) = true /\ ends_clean (strip s) = true.
Proof.
  unfold strip. split.
  - apply rstrip_starts_clean, lstrip_starts_clean.
  - apply rstrip_ends_clean.
Qed.

Lemma strip_id (s : string) :
  starts_clean s = true -> ends_clean s = true -> strip s = s.
Proof.
  intros H1 H2. unfold strip. rewrite (lstrip_id _ H1). now apply rstrip_id.
Qed.

Lemma strip_idempotent (s : string) : strip (strip s) = strip s.
Proof. destruct (strip_clean s). now apply strip_id. Qed.

Lemma all_chars_lstrip (p : ascii -> bool) (s : string) :
  all_chars p s = true -> all_chars p (lstrip s) = true.
Proof.
  induction s as [|c s IH]; [reflexivity|]. simpl.
  intros H. apply andb_true_iff in H. destruct H as [H1 H2].
  destruct (is_space c); [now apply IH|]. simpl. now rewrite H1, H2.
Qed.

Lemma all_chars_rstrip (p : ascii -> bool) (s : string) :
  all_chars p s = true -> all_chars p (rstrip s) = true.
Proof.
  induction s as [|c s IH]; [reflexivity|]. rewrite rstrip_cons.
  cbn [all_chars]. intros H. apply andb_true_iff in H. destruct H as [H1 H2].
  specialize (IH H2). destruct (rstrip s) as [|d r].
  - destruct (is_space c); [reflexivity|]. simpl. now rewrite H1.
  - cbn [all_chars] in *. now rewrite H1, IH.
Qed.

Lemma all_chars_strip (p : ascii -> bool) (s : string) :
  all_chars p s = true -> all_chars p (strip s) = true.
Proof. intros H. now apply all_chars_rstrip, all_chars_lstrip. Qed.

(** ** The last part of a category path *)

Lemma split_first_none (c : ascii) (s l : string) :
  split_first c s = (l, None) -> absent c s = true.
Proof.
  revert l. induction s as [|a s IH]; intros l; [reflexivity|]. simpl.
  unfold absent. cbn [all_chars].
  destruct (Ascii.eqb a c); [discriminate|].
  destruct (split_first c s) as [l' [r|]]; [discriminate|].
  intros _. apply (IH l' eq_refl).
Qed.

Lemma split_first_found (c : ascii) (s : string) :
  absent c s = true -> snd (split_first c s) = None.
Proof.
  induction s as [|a s IH]; [reflexivity|]. unfold absent. cbn [all_chars].
  intros H. apply andb_true_iff in H. destruct H as [H1 H2].
  simpl. destruct (Ascii.eqb a c); [discriminate|].
  specialize (IH H2). destruct (split_first c s) as [l r]. exact IH.
Qed.

Lemma last_segment_cons (c a : ascii) (rest : string) :
  last_segment c (String a rest)
  = match split_first c (String a rest) with
    | (_, None) => String a rest
    | (_, Some _) => last_segment c rest
    end.
Proof. reflexivity. Qed.

Lemma last_segment_absent (c : ascii) (s : string) :
  absent c (last_segment c s) = true.
Proof.
  induction s as [|a s IH]; [reflexivity|]. rewrite last_segment_cons.
  destruct (split_first c (String a s)) as [l [r|]] eqn:E; [exact IH|].
  now apply (split_first_none c _ l).
Qed.

Lemma last_segment_id (c : ascii) (s : string) :
  absent c s = true -> last_segment c s = s.
Proof.
  destruct s as [|a s]; [reflexivity|]. intros H.
  rewrite last_segment_cons. pose proof (split_first_found c _ H) as F.
  destruct (split_first c (String a s)) as [l r]. simpl in F. now subst r.
Qed.

Lemma all_chars_last_segment (p : ascii -> bool) (c : ascii) (s : string) :
  all_chars p s = true -> all_chars p (last_segment c s) = true.
Proof.
  induction s as [|a s IH]; [reflexivity|]. rewrite last_segment_cons.
  intros H. destruct (split_first c (String a s)) as [l [r|]]; [|exact H].
  cbn [all_chars] in H. apply andb_true_iff in H. now apply IH.
Qed.

(** The part of a path that [clean_category] keeps. *)
Lemma category_part (s : string) :
  let t := strip (last_segment "/" (last_segment "," s)) in
  absent "," t = true /\ absent "/" t = true /\ strip t = t.
Proof.
  cbv zeta. split; [|split].
  - apply all_chars_strip, all_chars_last_segment, last_segment_absent.
  - apply all_chars_strip, last_segment_absent.
  - apply strip_idempotent.
Qed.

(** X1.  [clean_category] never returns the empty text; what it returns
    holds no comma and no slash and no whitespace at its ends, and is
    returned as it is when it is cleaned again. *)
Theorem clean_category_normal_form (category_string : option string) :
  clean_category category_string <> EmptyString
  /\ absent "," (clean_category category_string) = true
  /\ absent "/" (clean_category category_string) = true
  /\ strip (clean_category category_string) = clean_category category_string
  /\ clean_category (Some (clean_category category_string))
     = clean_category category_string.
Proof.
  assert (K : forall t,
             t <> EmptyString -> absent "," t = true -> absent "/" t = true ->
             strip t = t -> clean_category (Some t) = t).
  { intros t N A B C. unfold clean_category.
    rewrite (last_segment_id "," t A), (last_segment_id "/" t B), C.
    destruct t; [now elim N|reflexivity]. }
  assert (S0 : forall r, r = "Sin Categoria" ->
                r <> EmptyString /\ absent "," r = true /\ absent "/" r = true
                /\ strip r = r /\ clean_category (Some r) = r).
  { intros r ->. repeat split. discriminate. }
  destruct category_string as [s|]; [|now apply S0].
  destruct (category_part s) as (A & B & C).
  assert (R : clean_category (Some s)
              = match strip (last_segment "/" (last_segment "," s)) with
                | EmptyString => "Sin Categoria"
                | _ => strip (last_segment "/" (last_segment "," s))
                end) by reflexivity.
  destruct (strip (last_segment "/" (last_segment "," s))) as [|c t] eqn:E.
  - now apply S0.
  - rewrite R. split; [discriminate|]. repeat split; try assumption.
    now apply K.
Qed.

(** ** SKUs *)

Lemma replace_space_absent (s : string) :
  absent " " (replace " " EmptyString s) = true.
Proof.
  induction s as [|c s IH]; [reflexivity|]. simpl.
  destruct (Ascii.eqb c " ") eqn:E; [exact IH|].
  unfold absent. cbn [all_chars]. now rewrite E.
Qed.

Lemma space_is_space (c : ascii) : Ascii.eqb c " " = true -> is_space c = true.
Proof. intros H. apply Ascii.eqb_eq in H. now subst c. Qed.

Lemma replace_space_starts_clean (s : string) :
  starts_clean s = true ->
  starts_clean (replace " " EmptyString s) = true.
Proof.
  destruct s as [|c s]; [reflexivity|]. simpl. intros H.
  destruct (Ascii.eqb c " ") eqn:E.
  - rewrite (space_is_space c E) in H. discriminate.
  - exact H.
Qed.

Lemma replace_space_ends_clean (s : string) :
  ends_clean s = true ->
  ends_clean (replace " " EmptyString s) = true
  /\ (s <> EmptyString -> replace " " EmptyString s <> EmptyString).
Proof.
  induction s as [|c s IH]; [now split|]. destruct s as [|d r].
  - simpl. intros H. destruct (Ascii.eqb c " ") eqn:E.
    + rewrite (space_is_space c E) in H. discriminate.
    + simpl. rewrite H. split; [reflexivity|discriminate].
  - rewrite ends_clean_cons. intros H. destruct (IH H) as [I1 I2].
    assert (N : replace " " EmptyString (String d r) <> EmptyString)
      by (apply I2; discriminate).
    change (replace " " EmptyString (String c (String d r)))
      with (if Ascii.eqb c " "
            then EmptyString ++ replace " " EmptyString (String d r)
            else String c (replace " " EmptyString (String d r))).
    destruct (Ascii.eqb c " ").
    + split; [exact I1|intros _; exact N].
    + split; [|discriminate].
      destruct (replace " " EmptyString (String d r)); [now elim N|exact I1].
Qed.

Lemma cleaned_sku_fixed (s : string) :
  replace " " EmptyString (strip (cleaned_sku s)) = cleaned_sku s.
Proof.
  unfold cleaned_sku. destruct (strip_clean s) as [A B].
  rewrite strip_id.
  - apply replace_absent, replace_space_absent.
  - now apply replace_space_starts_clean.
  - now apply replace_space_ends_clean.
Qed.

Lemma all_digits_zeros (n : nat) : all_digits (zeros n) = true.
Proof. induction n; [reflexivity|exact IHn]. Qed.

Lemma isdigit_all_digits (s : string) : isdigit s = true -> all_digits s = true.
Proof. destruct s; [discriminate|trivial]. Qed.

Lemma isdigit_nonempty (s : string) :
  s <> EmptyString -> isdigit s = all_digits s.
Proof. destruct s; [congruence|reflexivity]. Qed.

(** X2.  [normalize_sku] returns a text without spaces, and returns it as
    it is when it is normalised again. *)
Theorem normalize_sku_idempotent (sku : option string) :
  normalize_sku (Some (normalize_sku sku)) = normalize_sku sku
  /\ absent " " (normalize_sku sku) = true.
Proof.
  destruct sku as [s|]; [|split; reflexivity].
  unfold normalize_sku at 2 3 4. fold (cleaned_sku s).
  destruct (isdigit (cleaned_sku s)) eqn:D.
  - pose proof (isdigit_all_digits _ D) as AD.
    assert (Z5 : all_digits (zfill 5 (cleaned_sku s)) = true).
    { rewrite (zfill_digits _ D), all_digits_all_chars, all_chars_append,
        <- !all_digits_all_chars, all_digits_zeros, AD. reflexivity. }
    assert (NE : zfill 5 (cleaned_sku s) <> EmptyString).
    { rewrite (zfill_digits _ D). destruct (cleaned_sku s); [discriminate D|].
      destruct (zeros _); discriminate. }
    assert (NS : all_chars (fun c => negb (is_space c))
                           (zfill 5 (cleaned_sku s)) = true).
    { rewrite all_digits_all_chars in Z5. revert Z5.
      apply all_chars_imp, digit_no_space. }
    assert (AB : absent " " (zfill 5 (cleaned_sku s)) = true).
    { revert NS. apply all_chars_imp. intros c Hc.
      destruct (Ascii.eqb c " ") eqn:E; [|reflexivity].
      rewrite (space_is_space c E) in Hc. discriminate. }
    split; [|exact AB].
    unfold normalize_sku. rewrite (strip_no_space _ NS), (replace_absent _ _ _ AB).
    rewrite (isdigit_nonempty _ NE), Z5.
    unfold zfill at 1.
    assert (L : (5 <= String.length (zfill 5 (cleaned_sku s)))%nat).
    { rewrite (zfill_digits _ D), length_append, length_zeros. lia. }
    apply Nat.leb_le in L. now rewrite L.
  - split; [|apply replace_space_absent].
    unfold normalize_sku. rewrite cleaned_sku_fixed, D. reflexivity.
Qed.

(** ** E-mails *)

Lemma lower_from_cons (b : bool) (c : ascii) (rest : string) :
  lower_from b (String c rest)
  = String (if b && latin1_upper_tail c
            then ascii_of_N (code c + 32) else lower_ascii c)
           (lower_from (if b && latin1_upper_tail c
                        then false else (code c =? 195)%N) rest).
Proof. simpl. now destruct (b && latin1_upper_tail c). Qed.

Lemma lower_char_space (b : bool) (c : ascii) :
  is_space (if b && latin1_upper_tail c
            then ascii_of_N (code c + 32) else lower_ascii c)
  = is_space c.
Proof.
  destruct b; destruct c as [[] [] [] [] [] [] [] []]; reflexivity.
Qed.

Lemma lower_from_starts (b : bool) (s : string) :
  starts_clean (lower_from b s) = starts_clean s.
Proof.
  destruct s as [|c s]; [reflexivity|]. rewrite lower_from_cons.
  cbn [starts_clean]. now rewrite lower_char_space.
Qed.

Lemma lower_from_ends (b : bool) (s : string) :
  ends_clean (lower_from b s) = ends_clean s.
Proof.
  revert b. induction s as [|c s IH]; intros b; [reflexivity|].
  rewrite lower_from_cons. destruct s as [|d r].
  - cbn [lower_from ends_clean]. now rewrite lower_char_space.
  - rewrite ends_clean_cons, <- (IH (if b && latin1_upper_tail c
                                       then false else (code c =? 195)%N)).
    rewrite (lower_from_cons _ d r). reflexivity.
Qed.

(** X3.  [clean_email] returns a text in lower case without whitespace at
    its ends, and returns it as it is when it is cleaned again; a null
    e-mail and an empty e-mail give the empty text, and any other e-mail its
    stripped text in lower case. *)
Theorem clean_email_normal_form (email : option string) :
  lower (clean_email email) = clean_email email
  /\ strip (clean_email email) = clean_email email
  /\ clean_email (Some (clean_email email)) = clean_email email
  /\ clean_email None = EmptyString
  /\ clean_email (Some EmptyString) = EmptyString
  /\ (forall s, email = Some s -> clean_email email = lower (strip s)).
Proof.
  cut (lower (clean_email email) = clean_email email
       /\ strip (clean_email email) = clean_email email
       /\ clean_email (Some (clean_email email)) = clean_email email).
  { intros (A & B & C). repeat split; try assumption.
    intros s ->. now destruct s. }
  assert (K : forall s, lower (lower (strip s)) = lower (strip s)
                        /\ strip (lower (strip s)) = lower (strip s)).
  { intros s. split; [apply lower_idempotent|].
    destruct (strip_clean s) as [A B]. apply strip_id; unfold lower.
    - now rewrite lower_from_starts.
    - now rewrite lower_from_ends. }
  destruct email as [[|c s]|]; try (repeat split; reflexivity).
  assert (R : clean_email (Some (String c s)) = lower (strip (String c s)))
    by reflexivity.
  rewrite R. destruct (K (String c s)) as [L S].
  split; [exact L|]. split; [exact S|].
  unfold clean_email.
  destruct (lower (strip (String c s))) as [|d t]; [reflexivity|].
  rewrite S. exact L.
Qed.

(** ** Runs of whitespace *)

Lemma sub_whitespace_idempotent (b : bool) (s : string) :
  sub_whitespace b (sub_whitespace b s) = sub_whitespace b s.
Proof.
  revert b. induction s as [|c s IH]; intros b; [reflexivity|].
  cbn [sub_whitespace]. destruct (is_space c) eqn:E.
  - destruct b; [apply IH|].
    cbn [sub_whitespace]. change (is_space " ") with true. cbv iota.
    now rewrite IH.
  - cbn [sub_whitespace]. rewrite E. now rewrite IH.
Qed.

Lemma sub_whitespace_starts (s : string) :
  starts_clean s = true -> starts_clean (sub_whitespace false s) = true.
Proof.
  destruct s as [|c s]; [reflexivity|]. cbn [starts_clean sub_whitespace].
  destruct (is_space c) eqn:E; [discriminate|].
  cbn [starts_clean]. now rewrite E.
Qed.

Lemma sub_whitespace_ends (s : string) :
  ends_clean s = true ->
  forall b,
    ends_clean (sub_whitespace b s) = true
    /\ (s <> EmptyString -> sub_whitespace b s <> EmptyString).
Proof.
  induction s as [|c s IH]; [now split|]. destruct s as [|d r].
  - cbn [ends_clean sub_whitespace]. intros H b.
    destruct (is_space c) eqn:E; [discriminate|].
    cbn [ends_clean]. rewrite E. split; [reflexivity|discriminate].
  - rewrite ends_clean_cons. intros H b.
    assert (N : forall b', sub_whitespace b' (String d r) <> EmptyString)
      by (intros b'; apply (IH H b'); discriminate).
    change (sub_whitespace b (String c (String d r)))
      with (if is_space c
            then if b then sub_whitespace true (String d r)
                 else String " " (sub_whitespace true (String d r))
            else String c (sub_whitespace false (String d r))).
    destruct (is_space c); [destruct b|].
    + split; [apply (IH H true)|intros _; apply N].
    + split; [|discriminate]. specialize (N true).
      destruct (sub_whitespace true (String d r)) eqn:E; [now elim N|].
      rewrite ends_clean_cons, <- E. apply (IH H true).
    + split; [|discriminate]. specialize (N false).
      destruct (sub_whitespace false (String d r)) eqn:E; [now elim N|].
      rewrite ends_clean_cons, <- E. apply (IH H false).
Qed.

Lemma no_space_runs_cons (a b : ascii) (r : string) :
  no_space_runs (String a (String b r))
  = negb (is_space a && is_space b) && no_space_runs (String b r).
Proof. reflexivity. Qed.

Lemma sub_whitespace_runs (s : string) (b : bool) :
  no_space_runs (sub_whitespace b s) = true
  /\ (b = true -> starts_clean (sub_whitespace b s) = true).
Proof.
  revert b. induction s as [|c s IH]; intros b; [now split|].
  cbn [sub_whitespace]. destruct (is_space c) eqn:E.
  - destruct b; [apply IH|]. split; [|discriminate].
    destruct (IH true) as [R S]. specialize (S eq_refl).
    destruct (sub_whitespace true s) as [|d t]; [reflexivity|].
    rewrite no_space_runs_cons. cbn [starts_clean] in S.
    apply negb_true_iff in S. rewrite S, andb_false_r. exact R.
  - destruct (IH false) as [R _]. split.
    + destruct (sub_whitespace false s) as [|d t]; [reflexivity|].
      rewrite no_space_runs_cons, E. exact R.
    + intros _. cbn [starts_clean]. now rewrite E.
Qed.

Lemma sub_whitespace_chars (s : string) (b : bool) :
  all_chars (fun c => negb (is_space c) || Ascii.eqb c " ")
            (sub_whitespace b s) = true.
Proof.
  revert b. induction s as [|c s IH]; intros b; [reflexivity|].
  cbn [sub_whitespace]. destruct (is_space c) eqn:E.
  - destruct b; [apply IH|]. cbn [all_chars]. now rewrite IH.
  - cbn [all_chars]. now rewrite E, IH.
Qed.

(** X4.  In the text that [clean_text] returns the only whitespace is the
    space, no two spaces stand side by side and none stands at an end; the
    text is returned as it is when it is cleaned again. *)
Theorem clean_text_normal_form (text : option string) :
  all_chars (fun c => negb (is_space c) || Ascii.eqb c " ")
            (clean_text text) = true
  /\ no_space_runs (clean_text text) = true
  /\ strip (clean_text text) = clean_text text
  /\ clean_text (Some (clean_text text)) = clean_text text.
Proof.
  destruct text as [[|c s]|]; try (repeat split; reflexivity).
  assert (R : clean_text (Some (String c s))
              = sub_whitespace false (strip (String c s))) by reflexivity.
  rewrite R. destruct (strip_clean (String c s)) as [A B].
  assert (S : strip (sub_whitespace false (strip (String c s)))
              = sub_whitespace false (strip (String c s))).
  { apply strip_id; [now apply sub_whitespace_starts|].
    now apply sub_whitespace_ends. }
  split; [apply sub_whitespace_chars|].
  split; [apply sub_whitespace_runs|]. split; [exact S|].
  pose proof (sub_whitespace_idempotent false (strip (String c s))) as I.
  unfold clean_text.
  destruct (sub_whitespace false (strip (String c s))) as [|d t];
    [reflexivity|].
  rewrite S. exact I.
Qed.

(** ** Batches *)

Lemma firstn_add_skipn {A : Type} (n m : nat) (l : list A) :
  firstn (n + m) l = (firstn n l ++ firstn m (skipn n l))%list.
Proof.
  revert l. induction n as [|n IH]; intros l; [reflexivity|].
  destruct l as [|x l]; [now rewrite !firstn_nil|].
  simpl. now rewrite IH.
Qed.

Lemma slice_batch {A : Type} (i size : nat) (l : list A) :
  slice i (i + size) l = firstn size (skipn i l).
Proof. unfold slice. now replace (i + size - i)%nat with size by lia. Qed.

Lemma concat_slices {A : Type} (size m : nat) (l : list A) :
  List.concat (map (fun k => firstn size (skipn (k * size) l)) (seq 0 m))
  = firstn (m * size) l.
Proof.
  induction m as [|m IH]; [reflexivity|].
  rewrite seq_S, map_app, concat_app, IH. cbn [map List.concat plus].
  rewrite app_nil_r.
  replace (S m * size)%nat with (m * size + size)%nat by lia.
  now rewrite firstn_add_skipn.
Qed.

Lemma batch_count (n size : nat) :
  (0 < size)%nat ->
  let m := ((n + size - 1) / size)%nat in
  (n <= m * size)%nat
  /\ (0 < n -> 0 < m /\ (m - 1) * size < n)%nat
  /\ (n = 0 -> m = 0)%nat.
Proof.
  intros H m.
  pose proof (Nat.div_mod_eq (n + size - 1) size) as D.
  pose proof (Nat.mod_upper_bound (n + size - 1) size ltac:(lia)) as U.
  fold m in D. split; [nia|]. split.
  - intros Hn. assert (0 < m)%nat by (destruct m; [nia|lia]).
    split; [assumption|]. nia.
  - intros ->. subst m. apply Nat.div_small. lia.
Qed.

Lemma batches_eq {A : Type} (items : list A) (batch_size : Z) :
  0 < batch_size ->
  batch_items items batch_size
  = inr (map (fun k => firstn (Z.to_nat batch_size)
                              (skipn (k * Z.to_nat batch_size) items))
             (seq 0 ((List.length items + Z.to_nat batch_size - 1)
                     / Z.to_nat batch_size))).
Proof.
  intros H. unfold batch_items, range_step.
  destruct (Z.eqb_spec batch_size 0); [lia|].
  destruct (Z.ltb_spec batch_size 0); [lia|].
  rewrite map_map. f_equal. apply map_ext. intros k. apply slice_batch.
Qed.

(** X5.  [batch_items] raises the [ValueError] of [range] exactly when
    the size is 0.  With a negative size it yields no batch at all, whatever
    the list holds.  With a positive size the batches, put end to end, are
    the list; every batch but the last has exactly the size, the last holds
    between one item and the size, and an empty list has no batch. *)
Theorem batch_items_partition {A : Type} (items : list A) (batch_size : Z) :
  match batch_items items batch_size with
  | inl e =>
      batch_size = 0 /\ e = ValueError "range() arg 3 must not be zero"
  | inr batches =>
      batch_size <> 0
      /\ (batch_size < 0 -> batches = [])
      /\ (0 < batch_size ->
          List.concat batches = items
          /\ (items = [] -> batches = [])
          /\ (items <> [] ->
              exists front last,
                batches = (front ++ [last])%list
                /\ Forall (fun b => List.length b = Z.to_nat batch_size) front
                /\ (1 <= List.length last <= Z.to_nat batch_size)%nat))
  end.
Proof.
  destruct (Z.lt_trichotomy batch_size 0) as [H|[->|H]].
  - unfold batch_items.
    destruct (Z.eqb_spec batch_size 0); [lia|].
    destruct (Z.ltb_spec batch_size 0); [|lia].
    split; [lia|]. split; [reflexivity|lia].
  - now split.
  - rewrite (batches_eq items batch_size H).
    split; [lia|]. split; [lia|]. intros _.
    set (size := Z.to_nat batch_size).
    assert (Hs : (0 < size)%nat) by (subst size; lia).
    destruct (batch_count (List.length items) size Hs) as (C1 & C2 & C3).
    set (m := ((List.length items + size - 1) / size)%nat) in *.
    split; [|split].
    + rewrite concat_slices. now apply firstn_all2.
    + intros ->. now rewrite (C3 eq_refl).
    + intros N.
      assert (Hn : (0 < List.length items)%nat)
        by (destruct items; [congruence|simpl; lia]).
      destruct (C2 Hn) as [M1 M2].
      replace m with (S (m - 1)) by lia. rewrite seq_S, map_app.
      eexists. eexists. split; [reflexivity|]. split.
      * apply Forall_forall. intros b Hb. apply in_map_iff in Hb.
        destruct Hb as (k & <- & Hk). apply in_seq in Hk.
        rewrite length_firstn, length_skipn. nia.
      * rewrite length_firstn, length_skipn. cbn [plus]. nia.
Qed.

Lemma batch_items_partition_witness :
  batch_items [1; 2; 3; 4; 5] 2 = inr [[1; 2]; [3; 4]; [5]]
  /\ List.concat [[1; 2]; [3; 4]; [5]] = [1; 2; 3; 4; 5]
  /\ batch_items [1; 2; 3] (-2) = inr []
  /\ batch_items [1; 2; 3] 0
     = inl (ValueError "range() arg 3 must not be zero").
Proof.
  pose proof (batch_items_partition [1; 2; 3; 4; 5] 2) as P.
  pose proof (batch_items_partition [1; 2; 3] (-2)) as Q.
  pose proof (batch_items_partition [1; 2; 3] 0) as R.
  destruct (batch_items [1; 2; 3; 4; 5] 2) as [e|batches] eqn:E;
    [discriminate E|].
  destruct (batch_items [1; 2; 3] (-2)) as [e|none] eqn:E';
    [discriminate E'|].
  destruct (batch_items [1; 2; 3] 0) as [e|some] eqn:E'';
    [|discriminate E''].
  destruct P as (_ & _ & P). destruct (P ltac:(lia)) as (C & _).
  destruct Q as (_ & Q & _). destruct R as (_ & ->).
  injection E as <-. rewrite (Q ltac:(lia)). repeat split.
Defined.

(** ** The text of a formatted number *)

Lemma cents_opp (q : Q) : cents (- q) = cents q.
Proof.
  destruct q as [n d]. unfold cents, Qopp, Qabs. cbn [Qnum Qden].
  now rewrite Z.abs_opp.
Qed.

Lemma Qltb_negative (q : Q) :
  (q < 0)%Q -> Qltb q 0 = true /\ Qltb (- q) 0 = false.
Proof.
  intros H. unfold Qltb. split.
  - apply negb_true_iff. destruct (Qle_bool 0 q) eqn:E; [|reflexivity].
    apply Qle_bool_iff in E. exfalso. apply (Qlt_not_le _ _ H E).
  - apply negb_false_iff. apply Qle_bool_iff.
    apply Qlt_le_weak in H. apply Qopp_le_compat in H. exact H.
Qed.

(** X6.  The text that [format_to_comma_decimal] returns for a number
    ends with a comma and two digits, which are the hundredths of the
    rounded value, and holds no other comma; what stands before the comma,
    once its dots are taken out, is the minus sign of a negative number
    followed by the digits of the units of the rounded value. *)
Theorem format_to_comma_decimal_shape (q : Q) :
  exists body decimals,
    format_to_comma_decimal (Some (Fin q)) = body ++ "," ++ decimals
    /\ String.length decimals = 2%nat
    /\ nat_of_digits decimals = Some (Z.to_N (cents q mod 100))
    /\ absent "," body = true
    /\ replace "." EmptyString body
       = (if Qltb q 0 then "-" else EmptyString) ++ digits (cents q / 100).
Proof.
  exists ((if Qltb q 0 then "-" else EmptyString)
          ++ group3 "." (digits (cents q / 100))),
         (two_digits (cents q mod 100)).
  assert (Hm : 0 <= cents q mod 100 < 100) by (apply Z.mod_pos_bound; lia).
  assert (Hds : forall a, is_digit a = false ->
                          absent a (digits (cents q / 100)) = true)
    by (intros a Ha; apply digits_absent; [exact Ha|apply digits_all_digits]).
  split; [rewrite format_shape; now rewrite append_assoc|].
  split; [reflexivity|]. split; [now apply nat_of_two_digits|]. split.
  - unfold absent. rewrite all_chars_append.
    fold (absent "," (if Qltb q 0 then "-" else EmptyString)).
    rewrite sign_text by reflexivity.
    apply all_chars_group3; [reflexivity|now apply Hds].
  - rewrite replace_append, (replace_absent "." EmptyString _)
      by (now apply sign_text).
    rewrite (replace_group3 "." EmptyString) by (now apply Hds).
    now rewrite group3_no_separator.
Qed.

(** X7.  The text of a negative number is the minus sign followed by the
    text of its opposite, also when the number rounds to zero: a small
    negative number is written as minus zero. *)
Theorem format_to_comma_decimal_negative (q : Q) :
  (q < 0)%Q ->
  format_to_comma_decimal (Some (Fin q))
  = "-" ++ format_to_comma_decimal (Some (Fin (- q))).
Proof.
  intros H. rewrite !format_shape, cents_opp.
  destruct (Qltb_negative q H) as [-> ->]. reflexivity.
Qed.

Lemma format_to_comma_decimal_negative_witness :
  format_to_comma_decimal (Some (Fin (- 1 # 1000))) = "-0,00".
Proof.
  rewrite (format_to_comma_decimal_negative (- 1 # 1000)); reflexivity.
Defined.

(** ** Texts that [float] reads at once *)

(** X8.  A text made of digits, a dot and digits is read by
    [parse_comma_decimal] as Python reads it, the dot being the decimal
    point: the dots are taken for thousands separators only in a text that
    [float] refuses, so 1.234 is read as one and 234 thousandths. *)
Theorem parse_comma_decimal_reads_point (i : Z) (f : string) (n : N) :
  0 <= i ->
  nat_of_digits f = Some n ->
  parse_comma_decimal (PStr (digits i ++ "." ++ f))
  = Fin (Qplus (inject_Z i) (Z.of_N n # Pos.of_nat (10 ^ String.length f))).
Proof.
  intros Hi Hf.
  pose proof (nat_of_digits_some _ _ Hf) as Df.
  pose proof (digits_all_digits i) as Di.
  destruct (digits_first i) as (c & rest & E & Hc).
  assert (T : digits i ++ "." ++ f = String c (rest ++ "." ++ f))
    by (now rewrite E).
  rewrite parse_text by (rewrite T; discriminate).
  rewrite strip_no_space.
  2:{ rewrite !all_chars_append.
      assert (S : forall t, all_digits t = true ->
                            all_chars (fun c => negb (is_space c)) t = true).
      { intros t Ht. rewrite all_digits_all_chars in Ht. revert Ht.
        apply all_chars_imp, digit_no_space. }
      now rewrite (S _ Di), (S _ Df). }
  assert (U : unsigned_decimal (digits i ++ "." ++ f)
              = Some (Qplus (inject_Z i)
                            (Z.of_N n # Pos.of_nat (10 ^ String.length f)))).
  { unfold unsigned_decimal.
    change ("." ++ f) with (String "." f).
    rewrite split_first_absent by (apply digits_absent; [reflexivity|exact Di]).
    rewrite nat_of_digits_digits, Hf. rewrite Z2N.id by lia.
    rewrite E. now destruct f. }
  rewrite T, (float_of_str_digit c _ Hc), <- T, U. reflexivity.
Qed.

Lemma parse_comma_decimal_reads_point_witness :
  parse_comma_decimal (PStr "1.234") = Fin (Qplus (inject_Z 1) (234 # 1000))
  /\ parse_comma_decimal (PStr "1.234,00") = Fin (123400 # 100).
Proof.
  split; [|reflexivity].
  exact (parse_comma_decimal_reads_point 1 "234" 234 ltac:(lia) eq_refl).
Defined.

(** ** The score under any thresholds *)

(** The score is the sum of four amounts, one for each signal. *)
Lemma calculate_sum (thresholds : Scoring.ScoringThresholds) (r : Scoring.row) :
  Scoring.calculate thresholds r
  = (let ltv := Scoring.float_or 0 (Scoring.LTV_Gasto_Total r) in
     if Scoring.fgt ltv (Scoring.high_value thresholds) then 30
     else if Scoring.fgt ltv (Scoring.medium_value thresholds) then 20
     else if Scoring.fgt ltv 0 then 10 else 0)
    + (let frecuencia := Scoring.int_or 0 (Scoring.Frecuencia r) in
       if frecuencia >=? Scoring.high_frequency thresholds then 30
       else if frecuencia >=? Scoring.medium_frequency thresholds then 20
       else if frecuencia >=? 1 then 10 else 0)
    + (let recencia := Scoring.float_or 9999 (Scoring.Recencia_Dias r) in
       if Scoring.fle recencia (Scoring.recent_days thresholds) then 20
       else if Scoring.fle recencia (Scoring.medium_days thresholds) then 10
       else 0)
    + (let subtotal := Scoring.float_or 0 (Scoring.Subtotal r) in
       if Scoring.fge subtotal (Scoring.high_cart_value thresholds) then 20
       else if Scoring.fge subtotal (Scoring.medium_cart_value thresholds)
            then 10
            else 0).
Proof.
  unfold Scoring.calculate. cbv zeta.
  repeat match goal with
         | |- context [if ?b then _ else _] => destruct b
         end; reflexivity.
Qed.

(** X9.  Whatever the thresholds of the strategy are, the score of a row
    is a multiple of ten between 0 and 100. *)
Theorem calculate_range (thresholds : Scoring.ScoringThresholds)
        (r : Scoring.row) :
  0 <= Scoring.calculate thresholds r <= 100
  /\ Scoring.calculate thresholds r mod 10 = 0.
Proof.
  rewrite calculate_sum. cbv zeta.
  repeat match goal with
         | |- context [if ?b then _ else _] => destruct b
         end; split; (lia || reflexivity).
Qed.

(** ** The score grows with the signals *)

Lemma Qltb_monotone (t a a' : Q) :
  (a <= a')%Q -> Qltb t a = true -> Qltb t a' = true.
Proof.
  unfold Qltb. intros H E. apply negb_true_iff in E. apply negb_true_iff.
  destruct (Qle_bool a' t) eqn:E'; [|reflexivity].
  apply Qle_bool_iff in E'. assert (L : (a <= t)%Q) by (now apply (Qle_trans _ a')).
  apply Qle_bool_iff in L. congruence.
Qed.

Lemma Qle_bool_trans_l (d d' t : Q) :
  (d' <= d)%Q -> Qle_bool d t = true -> Qle_bool d' t = true.
Proof.
  intros H E. apply Qle_bool_iff in E. apply Qle_bool_iff.
  now apply (Qle_trans _ d).
Qed.

Lemma Qle_bool_trans_r (t c c' : Q) :
  (c <= c')%Q -> Qle_bool t c = true -> Qle_bool t c' = true.
Proof.
  intros H E. apply Qle_bool_iff in E. apply Qle_bool_iff.
  now apply (Qle_trans _ c).
Qed.

Lemma recency_read_monotone (d d' t : Q) :
  (d' <= d)%Q -> ~ (d' == 0)%Q ->
  Scoring.fle (Scoring.float_or 9999 (Val (Fin d))) t = true ->
  Scoring.fle (Scoring.float_or 9999 (Val (Fin d'))) t = true.
Proof.
  intros H N. cbn [Scoring.float_or].
  destruct (Qeq_bool d' 0) eqn:E'; [apply Qeq_bool_iff in E'; contradiction|].
  destruct (Qeq_bool d 0) eqn:E; cbn [Scoring.fle].
  - apply Qeq_bool_iff in E. apply Qle_bool_trans_l.
    rewrite E in H. apply (Qle_trans _ 0); [exact H|discriminate].
  - now apply Qle_bool_trans_l.
Qed.

(** X10.  Whatever the thresholds are, a row that has at least the value,
    at least the frequency and at least the cart subtotal of another row,
    and a recency that is not larger and not exactly 0 days, scores at
    least as much. *)
Theorem calculate_monotone (thresholds : Scoring.ScoringThresholds)
        (r r' : Scoring.row) (a a' : Q) (f f' : Z) (d d' c c' : Q) :
  Scoring.LTV_Gasto_Total r = Val (Fin a) ->
  Scoring.LTV_Gasto_Total r' = Val (Fin a') ->
  Scoring.Frecuencia r = Val f ->
  Scoring.Frecuencia r' = Val f' ->
  Scoring.Recencia_Dias r = Val (Fin d) ->
  Scoring.Recencia_Dias r' = Val (Fin d') ->
  Scoring.Subtotal r = Val (Fin c) ->
  Scoring.Subtotal r' = Val (Fin c') ->
  (a <= a')%Q -> f <= f' -> (d' <= d)%Q -> ~ (d' == 0)%Q -> (c <= c')%Q ->
  Scoring.calculate thresholds r <= Scoring.calculate thresholds r'.
Proof.
  intros La La' Lf Lf' Ld Ld' Lc Lc' Ha Hf Hd Nd Hc.
  rewrite !calculate_sum, La, La', Lf, Lf', Ld, Ld', Lc, Lc'. cbv zeta.
  rewrite !int_or_0. cbn [Scoring.count_signal].
  assert (A : forall t, Scoring.fgt (Scoring.float_or 0 (Val (Fin a))) t = true ->
                        Scoring.fgt (Scoring.float_or 0 (Val (Fin a'))) t = true).
  { intros t. rewrite !fgt_float_or_0. cbn [Scoring.signal Scoring.fgt].
    now apply Qltb_monotone. }
  assert (C : forall t, Scoring.fge (Scoring.float_or 0 (Val (Fin c))) t = true ->
                        Scoring.fge (Scoring.float_or 0 (Val (Fin c'))) t = true).
  { intros t. rewrite !fge_float_or_0. cbn [Scoring.signal Scoring.fge].
    now apply Qle_bool_trans_r. }
  pose proof (recency_read_monotone d d') as D.
  generalize dependent (Scoring.float_or 0 (Val (Fin a))).
  generalize dependent (Scoring.float_or 0 (Val (Fin a'))).
  generalize dependent (Scoring.float_or 0 (Val (Fin c))).
  generalize dependent (Scoring.float_or 0 (Val (Fin c'))).
  generalize dependent (Scoring.float_or 9999 (Val (Fin d))).
  generalize dependent (Scoring.float_or 9999 (Val (Fin d'))).
  intros y' y D x' x C z' z A.
  assert (P1 : (if Scoring.fgt z (Scoring.high_value thresholds) then 30
                else if Scoring.fgt z (Scoring.medium_value thresholds) then 20
                else if Scoring.fgt z 0 then 10 else 0)
               <= (if Scoring.fgt z' (Scoring.high_value thresholds) then 30
                   else if Scoring.fgt z' (Scoring.medium_value thresholds)
                        then 20
                        else if Scoring.fgt z' 0 then 10 else 0)).
  { destruct (Scoring.fgt z (Scoring.high_value thresholds)) eqn:E1;
      [rewrite (A _ E1); lia|].
    destruct (Scoring.fgt z (Scoring.medium_value thresholds)) eqn:E2;
      [rewrite (A _ E2); destruct (Scoring.fgt z' _); lia|].
    destruct (Scoring.fgt z 0) eqn:E3;
      [rewrite (A _ E3);
       destruct (Scoring.fgt z' (Scoring.high_value thresholds)),
         (Scoring.fgt z' (Scoring.medium_value thresholds)); lia|].
    destruct (Scoring.fgt z' (Scoring.high_value thresholds)),
      (Scoring.fgt z' (Scoring.medium_value thresholds)),
      (Scoring.fgt z' 0); lia. }
  assert (P2 : (if f >=? Scoring.high_frequency thresholds then 30
                else if f >=? Scoring.medium_frequency thresholds then 20
                else if f >=? 1 then 10 else 0)
               <= (if f' >=? Scoring.high_frequency thresholds then 30
                   else if f' >=? Scoring.medium_frequency thresholds then 20
                   else if f' >=? 1 then 10 else 0)).
  { rewrite !Z.geb_leb.
    repeat match goal with
           | |- context [?u <=? ?v] => destruct (Z.leb_spec u v)
           end; lia. }
  assert (P3 : (if Scoring.fle y (Scoring.recent_days thresholds) then 20
                else if Scoring.fle y (Scoring.medium_days thresholds) then 10
                else 0)
               <= (if Scoring.fle y' (Scoring.recent_days thresholds) then 20
                   else if Scoring.fle y' (Scoring.medium_days thresholds)
                        then 10 else 0)).
  { destruct (Scoring.fle y (Scoring.recent_days thresholds)) eqn:E1;
      [rewrite (D _ Hd Nd E1); lia|].
    destruct (Scoring.fle y (Scoring.medium_days thresholds)) eqn:E2;
      [rewrite (D _ Hd Nd E2); destruct (Scoring.fle y' _); lia|].
    destruct (Scoring.fle y' (Scoring.recent_days thresholds)),
      (Scoring.fle y' (Scoring.medium_days thresholds)); lia. }
  assert (P4 : (if Scoring.fge x (Scoring.high_cart_value thresholds) then 20
                else if Scoring.fge x (Scoring.medium_cart_value thresholds)
                     then 10 else 0)
               <= (if Scoring.fge x' (Scoring.high_cart_value thresholds) then 20
                   else if Scoring.fge x' (Scoring.medium_cart_value thresholds)
                        then 10 else 0)).
  { destruct (Scoring.fge x (Scoring.high_cart_value thresholds)) eqn:E1;
      [rewrite (C _ E1); lia|].
    destruct (Scoring.fge x (Scoring.medium_cart_value thresholds)) eqn:E2;
      [rewrite (C _ E2); destruct (Scoring.fge x' _); lia|].
    destruct (Scoring.fge x' (Scoring.high_cart_value thresholds)),
      (Scoring.fge x' (Scoring.medium_cart_value thresholds)); lia. }
  lia.
Qed.

Lemma calculate_monotone_witness :
  Scoring.calculate Scoring.default_thresholds
    (Scoring.mkRow (Val (Fin 200000)) (Val 2) (Val (Fin 40)) (Val (Fin 0))
                   Missing Missing Missing Missing Missing)
  <= Scoring.calculate Scoring.default_thresholds
       (Scoring.mkRow (Val (Fin 400000)) (Val 3) (Val (Fin 5))
                      (Val (Fin 150000)) Missing Missing Missing Missing
                      Missing).
Proof.
  apply (calculate_monotone _ _ _ 200000 400000 2 3 40 5 0 150000);
    try reflexivity; try discriminate; try lia.
Defined.

(** ** The stages of the scorer *)

Lemma calculate_inputs (thresholds : Scoring.ScoringThresholds)
      (r r' : Scoring.row) :
  Scoring.LTV_Gasto_Total r' = Scoring.LTV_Gasto_Total r ->
  Scoring.Frecuencia r' = Scoring.Frecuencia r ->
  Scoring.Recencia_Dias r' = Scoring.Recencia_Dias r ->
  Scoring.Subtotal r' = Scoring.Subtotal r ->
  Scoring.calculate thresholds r' = Scoring.calculate thresholds r.
Proof. unfold Scoring.calculate. now intros -> -> -> ->. Qed.

Lemma get_customer_type_inputs (r r' : Scoring.row) :
  Scoring.Tiene_Factura_A r' = Scoring.Tiene_Factura_A r ->
  Scoring.LTV_Gasto_Total r' = Scoring.LTV_Gasto_Total r ->
  Scoring.Frecuencia r' = Scoring.Frecuencia r ->
  Scoring.get_customer_type r' = Scoring.get_customer_type r.
Proof. unfold Scoring.get_customer_type. now intros -> -> ->. Qed.

Lemma missing_column {A : Type} (col : Scoring.row -> cell A)
      (df : list Scoring.row) (r : Scoring.row) :
  In r df -> col r = Missing -> MarketingScorer.has_column col df = false.
Proof.
  intros H E. unfold MarketingScorer.has_column.
  destruct (forallb _ df) eqn:F; [|reflexivity].
  rewrite forallb_forall in F. specialize (F r H). now rewrite E in F.
Qed.

Lemma present_column {A : Type} (col : Scoring.row -> cell A)
      (f : Scoring.row -> Scoring.row) (df : list Scoring.row) :
  (forall r, col (f r) <> Missing) ->
  MarketingScorer.has_column col (map f df) = true.
Proof.
  intros H. unfold MarketingScorer.has_column. apply forallb_forall.
  intros x Hx. apply in_map_iff in Hx. destruct Hx as (r & <- & _).
  specialize (H r). now destruct (col (f r)).
Qed.

Lemma apply_rows_map (f : Scoring.row -> MarketingScorer.exn + Scoring.row)
      (g : Scoring.row -> Scoring.row) (df : list Scoring.row) :
  (forall r, In r df -> f r = inr (g r)) ->
  MarketingScorer.apply_rows f df = inr (map g df).
Proof.
  induction df as [|r df IH]; intros H; [reflexivity|].
  cbn [MarketingScorer.apply_rows map].
  rewrite (H r (or_introl eq_refl)), IH; [reflexivity|].
  intros x Hx. apply H. now right.
Qed.

Lemma segment_of_scored (df : list Scoring.row) :
  MarketingScorer.segment (Scoring.score df)
  = inr (map (fun r =>
                MarketingScorer.set_Segmento
                  (Scoring.get_segment
                     (Scoring.calculate Scoring.default_thresholds r))
                  (Scoring.set_Score_Intencion
                     (Scoring.calculate Scoring.default_thresholds r) r))
             df).
Proof.
  unfold MarketingScorer.segment, Scoring.score.
  rewrite present_column by (intros r; discriminate).
  rewrite (apply_rows_map _
             (fun x => match Scoring.Score_Intencion x with
                       | Val s =>
                           MarketingScorer.set_Segmento (Scoring.get_segment s) x
                       | _ => x
                       end)).
  - now rewrite map_map.
  - intros x Hx. apply in_map_iff in Hx. destruct Hx as (r & <- & _).
    reflexivity.
Qed.

(** What [process] returns: every row goes through the four stages on its
    own, and no stage raises. *)
Lemma scorer_process_map (df : list Scoring.row) :
  MarketingScorer.process df = inr (map MarketingScorer.processed df).
Proof.
  unfold MarketingScorer.process. rewrite segment_of_scored.
  unfold MarketingScorer.add_recommendations.
  rewrite present_column by (intros r; discriminate).
  unfold Scoring.classify_customers. rewrite !map_map. reflexivity.
Qed.

Lemma segment_by_score (s : Z) :
  Scoring.get_segment s
  = (if 70 <=? s then "Alta" else if 50 <=? s then "Media" else "Baja")
  /\ Scoring.get_action (Scoring.get_segment s)
     = (if 70 <=? s then "WhatsApp + Cupón personalizado"
        else if 50 <=? s then "Email remarketing"
        else "Automatización suave").
Proof.
  unfold Scoring.get_segment, Scoring.HIGH_THRESHOLD, Scoring.MEDIUM_THRESHOLD.
  rewrite !Z.geb_leb.
  destruct (70 <=? s); [split; reflexivity|].
  destruct (50 <=? s); split; reflexivity.
Qed.

(** X11.  Whenever [process] of the scorer returns a frame, the frame
    holds the rows of the input in their order, each with the columns it
    read unchanged, with its score, with the segment Alta from 70 points,
    Media from 50 and Baja below, with the action that goes with the
    segment, and with its customer type. *)
Theorem scorer_process_rows (df out : list Scoring.row) :
  MarketingScorer.process df = inr out ->
  List.length out = List.length df
  /\ forall i r,
      nth_error df i = Some r ->
      exists r',
        nth_error out i = Some r'
        /\ Scoring.LTV_Gasto_Total r' = Scoring.LTV_Gasto_Total r
        /\ Scoring.Frecuencia r' = Scoring.Frecuencia r
        /\ Scoring.Recencia_Dias r' = Scoring.Recencia_Dias r
        /\ Scoring.Subtotal r' = Scoring.Subtotal r
        /\ Scoring.Tiene_Factura_A r' = Scoring.Tiene_Factura_A r
        /\ let s := Scoring.calculate Scoring.default_thresholds r in
           Scoring.Score_Intencion r' = Val s
           /\ Scoring.Segmento r'
              = Val (if 70 <=? s then "Alta"
                     else if 50 <=? s then "Media" else "Baja")
           /\ Scoring.Accion_Sugerida r'
              = Val (if 70 <=? s then "WhatsApp + Cupón personalizado"
                     else if 50 <=? s then "Email remarketing"
                     else "Automatización suave")
           /\ Scoring.Tipo_Cliente r' = Val (Scoring.get_customer_type r).
Proof.
  rewrite scorer_process_map. intros [= <-].
  split; [apply length_map|].
  intros i r H. exists (MarketingScorer.processed r).
  split; [rewrite nth_error_map, H; reflexivity|].
  destruct (segment_by_score (Scoring.calculate Scoring.default_thresholds r))
    as [S A].
  repeat split; cbn [MarketingScorer.processed Scoring.Segmento
                     Scoring.Accion_Sugerida]; congruence.
Qed.

Lemma scorer_process_rows_witness :
  exists out,
    MarketingScorer.process
      [Scoring.mkRow (Val (Fin 1200000)) (Val 6) (Val (Fin 3))
                     (Val (Fin 0)) (Val "No") Missing Missing Missing Missing;
       Scoring.mkRow (Val (Fin 1000)) (Val 1) (Val (Fin 400))
                     Missing Missing Missing Missing Missing Missing]
    = inr out
    /\ map Scoring.Segmento out = [Val "Alta"; Val "Baja"].
Proof.
  eexists. split; [apply scorer_process_map|].
  destruct (scorer_process_rows
              [Scoring.mkRow (Val (Fin 1200000)) (Val 6) (Val (Fin 3))
                             (Val (Fin 0)) (Val "No") Missing Missing Missing
                             Missing;
               Scoring.mkRow (Val (Fin 1000)) (Val 1) (Val (Fin 400))
                             Missing Missing Missing Missing Missing Missing]
              _ (scorer_process_map _))
    as (_ & R).
  destruct (R 0%nat _ eq_refl) as (a & Na & _ & _ & _ & _ & _ & _ & Sa & _).
  destruct (R 1%nat _ eq_refl) as (b & Nb & _ & _ & _ & _ & _ & _ & Sb & _).
  injection Na as <-. injection Nb as <-.
  cbn [map]. rewrite Sa, Sb. reflexivity.
Defined.

(** X12.  The frame that [process] of the scorer returns goes through
    [process] unchanged: the four columns it wrote are written again with
    the same values. *)
Theorem scorer_process_idempotent (df out : list Scoring.row) :
  MarketingScorer.process df = inr out ->
  MarketingScorer.process out = inr out.
Proof.
  rewrite scorer_process_map. intros [= <-].
  rewrite scorer_process_map, map_map. apply f_equal, map_ext. intros r.
  unfold MarketingScorer.processed at 1.
  rewrite (calculate_inputs _ r (MarketingScorer.processed r))
    by reflexivity.
  rewrite (get_customer_type_inputs r (MarketingScorer.processed r))
    by reflexivity.
  reflexivity.
Qed.

Lemma scorer_process_idempotent_witness :
  MarketingScorer.process
    (map MarketingScorer.processed
         [Scoring.mkRow (Val (Fin 500000)) (Val 2) (Val (Fin 0)) Missing
                        (Val "No") Missing Missing Missing Missing])
  = inr (map MarketingScorer.processed
             [Scoring.mkRow (Val (Fin 500000)) (Val 2) (Val (Fin 0)) Missing
                            (Val "No") Missing Missing Missing Missing]).
Proof.
  apply (scorer_process_idempotent
           [Scoring.mkRow (Val (Fin 500000)) (Val 2) (Val (Fin 0)) Missing
                          (Val "No") Missing Missing Missing Missing]).
  apply scorer_process_map.
Defined.

(** X13.  A row without value and without orders, such as the cart of a
    visitor who never bought, scores at most 40 points; unless its invoice
    flag is set it leaves [process] in the segment Baja with the action for
    that segment and with the type Nuevo, whatever its recency and its
    cart are. *)
Theorem scorer_without_history (r : Scoring.row) :
  Scoring.fgt (Scoring.float_or 0 (Scoring.LTV_Gasto_Total r)) 0 = false ->
  Scoring.int_or 0 (Scoring.Frecuencia r) <= 0 ->
  Scoring.calculate Scoring.default_thresholds r <= 40
  /\ Scoring.Segmento (MarketingScorer.processed r) = Val "Baja"
  /\ Scoring.Accion_Sugerida (MarketingScorer.processed r)
     = Val "Automatización suave"
  /\ (Scoring.invoice_flag_set r = false ->
      Scoring.Tipo_Cliente (MarketingScorer.processed r) = Val "Nuevo").
Proof.
  intros L F.
  assert (S : Scoring.calculate Scoring.default_thresholds r <= 40).
  { rewrite calculate_sum. cbv zeta.
    cbn [Scoring.high_value Scoring.medium_value Scoring.high_frequency
         Scoring.medium_frequency Scoring.default_thresholds].
    assert (G : forall t, (0 <= t)%Q ->
                          Scoring.fgt (Scoring.float_or 0
                                         (Scoring.LTV_Gasto_Total r)) t
                          = false).
    { intros t Ht.
      destruct (Scoring.float_or 0 (Scoring.LTV_Gasto_Total r)) as [q|];
        [|reflexivity].
      cbn [Scoring.fgt] in *. unfold Qltb in *.
      apply negb_false_iff in L. apply negb_false_iff.
      apply Qle_bool_iff in L. apply Qle_bool_iff.
      now apply (Qle_trans _ 0). }
    rewrite !G by discriminate. rewrite !Z.geb_leb.
    destruct (Z.leb_spec 5 (Scoring.int_or 0 (Scoring.Frecuencia r))); [lia|].
    destruct (Z.leb_spec 3 (Scoring.int_or 0 (Scoring.Frecuencia r))); [lia|].
    destruct (Z.leb_spec 1 (Scoring.int_or 0 (Scoring.Frecuencia r))); [lia|].
    repeat match goal with
           | |- context [if ?b then _ else _] => destruct b
           end; lia. }
  destruct (segment_by_score (Scoring.calculate Scoring.default_thresholds r))
    as [Sg Ac].
  cbn [MarketingScorer.processed Scoring.Segmento Scoring.Accion_Sugerida
       Scoring.Tipo_Cliente].
  rewrite Ac, Sg.
  destruct (Z.leb_spec 70 (Scoring.calculate Scoring.default_thresholds r));
    [lia|].
  destruct (Z.leb_spec 50 (Scoring.calculate Scoring.default_thresholds r));
    [lia|].
  split; [exact S|]. split; [reflexivity|]. split; [reflexivity|].
  intros Fl. f_equal. unfold Scoring.get_customer_type.
  unfold Scoring.invoice_flag_set in Fl. cbv zeta in Fl |- *. rewrite Fl.
  assert (V : Scoring.fge (Scoring.float_or 0 (Scoring.LTV_Gasto_Total r))
                          Scoring.VIP_LTV_THRESHOLD = false).
  { destruct (Scoring.float_or 0 (Scoring.LTV_Gasto_Total r)) as [q|];
      [|reflexivity].
    cbn [Scoring.fgt Scoring.fge] in *. unfold Qltb in L.
    apply negb_false_iff in L. apply Qle_bool_iff in L.
    destruct (Qle_bool Scoring.VIP_LTV_THRESHOLD q) eqn:E; [|reflexivity].
    apply Qle_bool_iff in E. exfalso.
    assert (B : (Scoring.VIP_LTV_THRESHOLD <= 0)%Q)
      by (now apply (Qle_trans _ q)).
    now apply B. }
  rewrite V, !Z.geb_leb. unfold Scoring.VIP_FREQUENCY_THRESHOLD,
    Scoring.RECURRENT_THRESHOLD.
  destruct (Z.leb_spec 5 (Scoring.int_or 0 (Scoring.Frecuencia r))); [lia|].
  destruct (Z.leb_spec 2 (Scoring.int_or 0 (Scoring.Frecuencia r))); [lia|].
  reflexivity.
Qed.

Lemma scorer_without_history_witness :
  Scoring.calculate Scoring.default_thresholds
    (Scoring.mkRow (Val (Fin 0)) (Val 0) (Val (Fin 0)) (Val (Fin 350000))
                   (Val "No") Missing Missing Missing Missing) <= 40
  /\ Scoring.Tipo_Cliente
       (MarketingScorer.processed
          (Scoring.mkRow (Val (Fin 0)) (Val 0) (Val (Fin 0)) (Val (Fin 350000))
                         (Val "No") Missing Missing Missing Missing))
     = Val "Nuevo".
Proof.
  destruct (scorer_without_history
              (Scoring.mkRow (Val (Fin 0)) (Val 0) (Val (Fin 0))
                             (Val (Fin 350000)) (Val "No") Missing Missing
                             Missing Missing))
    as (S & _ & _ & T); [reflexivity|simpl; lia|].
  split; [exact S|]. apply T. reflexivity.
Defined.

(** X14.  The stages of the scorer work in the order of [process] only:
    on a frame that has a row and none of the columns they write,
    [segment] and [add_recommendations] raise a [KeyError] for the column
    they read, [add_recommendations] still raises it after [score], and
    [segment] after [score] returns a frame. *)
Theorem scorer_stages_order (df : list Scoring.row) (r : Scoring.row) :
  In r df ->
  Scoring.Score_Intencion r = Missing ->
  Scoring.Segmento r = Missing ->
  MarketingScorer.segment df
  = inl (MarketingScorer.KeyError "Score_Intencion")
  /\ MarketingScorer.add_recommendations df
     = inl (MarketingScorer.KeyError "Segmento")
  /\ MarketingScorer.add_recommendations (Scoring.score df)
     = inl (MarketingScorer.KeyError "Segmento")
  /\ exists out, MarketingScorer.segment (Scoring.score df) = inr out.
Proof.
  intros H S G. split; [|split; [|split]].
  - unfold MarketingScorer.segment. now rewrite (missing_column _ df r H S).
  - unfold MarketingScorer.add_recommendations.
    now rewrite (missing_column _ df r H G).
  - unfold MarketingScorer.add_recommendations.
    rewrite (missing_column
               _ _ (Scoring.set_Score_Intencion
                      (Scoring.calculate Scoring.default_thresholds r) r));
      [reflexivity| |exact G].
    unfold Scoring.score. apply in_map_iff. now exists r.
  - eexists. apply segment_of_scored.
Qed.

Lemma scorer_stages_order_witness :
  MarketingScorer.segment
    [Scoring.mkRow (Val (Fin 500000)) (Val 2) (Val (Fin 9)) Missing
                   (Val "No") Missing Missing Missing Missing]
  = inl (MarketingScorer.KeyError "Score_Intencion").
Proof.
  exact (proj1 (scorer_stages_order
                  [Scoring.mkRow (Val (Fin 500000)) (Val 2) (Val (Fin 9))
                                 Missing (Val "No") Missing Missing Missing
                                 Missing]
                  _ (or_introl eq_refl) eq_refl eq_refl)).
Defined.

(** ** A second run on the same frames *)

Lemma relower_clean_row (o : RFM.raw_order) :
  RFM.relower_row (RFM.clean_row o) = RFM.clean_row o.
Proof.
  unfold RFM.relower_row, RFM.clean_row.
  cbn [RFM.ID RFM.Customer_Email RFM.Purchase_Date RFM.Grand_Total RFM.Status
       RFM.Payment_Method].
  now rewrite lower_idempotent.
Qed.

(** X15.  The frames that went through [process] cannot go through it
    again, with the same processor or with another: the date column of the
    orders no longer holds text, [process] raises its error for that, and
    the frames stay as the first run left them. *)
Theorem process_not_repeatable (self self' : RFM.RFMProcessor)
        (st st' : RFM.store) (out : list RFM.RFMRecord) :
  RFM.process self st = (inr out, st') ->
  RFM.process self' st'
  = (inl (DataProcessingError
            "RFM processing failed: Can only use .str accessor with string values!"
            (Some "process")),
     st').
Proof.
  intros H.
  destruct (process_success _ _ _ _ H)
    as (customers & orders & catalog & items & _ & _ & ->).
  unfold_process. rewrite map_map.
  rewrite (map_ext _ RFM.clean_row) by apply relower_clean_row.
  reflexivity.
Qed.

Lemma process_not_repeatable_witness :
  RFM.process example_processor
    (snd (RFM.process example_processor example_store))
  = (inl (DataProcessingError
            "RFM processing failed: Can only use .str accessor with string values!"
            (Some "process")),
     snd (RFM.process example_processor example_store)).
Proof.
  apply (process_not_repeatable
           example_processor example_processor example_store _
           (RFM._format_output
              (merged_frame example_processor example_customers example_orders
                            example_catalog example_items))).
  unfold example_store. rewrite process_on_raw_frames. reflexivity.
Defined.

(** ** The names of the customers *)

(** X16.  On a customers frame that has the columns it reads,
    [_extract_customer_fields] keeps the customers in their order and gives
    each the text of its [id] and a name that is not empty and has no
    whitespace at its ends: the first and the last name joined by a blank
    and stripped, or Sin Nombre.  On a frame without columns, as one built
    from an empty list is, it raises the [KeyError] of [firstname]. *)
Theorem extract_customer_fields_names (rows : list RFM.customer) :
  RFM._extract_customer_fields RFM.NoColumns = inl (KeyError "firstname")
  /\ exists out,
      RFM._extract_customer_fields (RFM.Frame rows) = inr out
      /\ map (fun x : RFM.customer * string * string => fst (fst x)) out = rows
      /\ forall c name ident,
          In (c, name, ident) out ->
          name <> EmptyString /\ strip name = name
          /\ ident = RFM.str_of_Z (RFM.id c)
          /\ (name = strip (RFM.fillna_str (RFM.firstname c) ++ " "
                            ++ RFM.fillna_str (RFM.lastname c))
              \/ name = "Sin Nombre"
                 /\ strip (RFM.fillna_str (RFM.firstname c) ++ " "
                           ++ RFM.fillna_str (RFM.lastname c))
                    = EmptyString).
Proof.
  split; [reflexivity|]. cbn [RFM._extract_customer_fields].
  eexists. split; [reflexivity|]. split.
  - rewrite map_map. cbn [fst]. now rewrite map_id.
  - intros c name ident H. apply in_map_iff in H.
    destruct H as (c' & [= <- <- <-] & _).
    match goal with
    | |- context [match strip ?x with _ => _ end] =>
        pose proof (strip_idempotent x) as I;
        destruct (strip x) as [|a t] eqn:E
    end.
    + split; [discriminate|]. split; [reflexivity|].
      split; [reflexivity|]. right. split; [reflexivity|exact E].
    + split; [discriminate|]. split; [exact I|].
      split; [reflexivity|]. left. symmetry. exact E.
Qed.

(** ** The order of the output *)

Lemma merged_frame_cons self (c : RFM.customer) (cs : list RFM.customer)
      orders catalog items :
  merged_frame self (c :: cs) orders catalog items
  = (merged_frame self [c] orders catalog items
     ++ merged_frame self cs orders catalog items)%list.
Proof.
  unfold merged_frame, RFM._merge_all_data, merge_inner. cbv zeta.
  cbn [clean_customers map flat_map]. now rewrite app_nil_r.
Qed.

Lemma merged_frame_email self (c : RFM.customer) orders catalog items
      (r : RFM.RFMRecord) :
  In r (RFM._format_output (merged_frame self [c] orders catalog items)) ->
  RFM.Email r = customer_key c.
Proof.
  unfold RFM._format_output, merged_frame, RFM._merge_all_data, merge_inner.
  cbv zeta. cbn [clean_customers map flat_map]. rewrite app_nil_r.
  intros H. apply in_map_iff in H. destruct H as (m & <- & H).
  apply in_map_iff in H. destruct H as ([[[f rc] k] p] & <- & H).
  unfold matches in H. apply filter_In in H. destruct H as [_ H].
  apply String.eqb_eq in H. exact H.
Qed.

Lemma all_equal_list (e : string) (l : list string) :
  (forall x, In x l -> x = e) -> l = repeat e (List.length l).
Proof.
  induction l as [|x l IH]; intros H; [reflexivity|].
  cbn [List.length repeat]. rewrite (H x (or_introl eq_refl)). f_equal.
  apply IH. intros y Hy. apply H. now right.
Qed.

Lemma single_customer_rows self (c : RFM.customer) orders catalog items :
  NoDup (map catalog_key catalog) ->
  map RFM.Email
      (RFM._format_output (merged_frame self [c] orders catalog items))
  = if is_eligible_email self orders (customer_key c)
    then [customer_key c] else [].
Proof.
  intros N.
  pose proof (output_count self [c] orders catalog items (customer_key c) N)
    as L.
  rewrite where_eq_all in L by apply merged_frame_email.
  rewrite (all_equal_list (customer_key c)
             (map RFM.Email
                  (RFM._format_output
                     (merged_frame self [c] orders catalog items)))).
  - rewrite length_map, L.
    destruct (is_eligible_email self orders (customer_key c)); [|reflexivity].
    unfold where_eq. cbn [filter]. now rewrite String.eqb_refl.
  - intros x Hx. apply in_map_iff in Hx. destruct Hx as (r & <- & Hr).
    now apply merged_frame_email in Hr.
Qed.

(** X17.  When the catalog has one entry for every normalised SKU, the
    e-mails of the rows that [process] returns are the e-mails, in lower
    case, of the customers that have an eligible order, in the order and
    with the repetitions of the customers frame. *)
Theorem output_follows_customers (self : RFM.RFMProcessor)
        (st st' : RFM.store) (out : list RFM.RFMRecord)
        (customers : list RFM.customer) (orders : list RFM.raw_order)
        (catalog : list RFM.catalog_row) :
  RFM.process self st = (inr out, st') ->
  RFM.customers_df st = RFM.Frame customers ->
  RFM.orders_df st = RFM.OrdersRaw orders ->
  RFM.catalog_df st = RFM.Frame catalog ->
  NoDup (map catalog_key catalog) ->
  map RFM.Email out
  = filter (is_eligible_email self orders) (map customer_key customers).
Proof.
  intros H Hc Ho Hk N.
  destruct (process_success _ _ _ _ H)
    as (customers' & orders' & catalog' & items & -> & -> & _).
  injection Hc as ->. injection Ho as ->. injection Hk as ->. clear H.
  induction customers as [|c cs IH].
  - reflexivity.
  - rewrite merged_frame_cons. unfold RFM._format_output in *.
    rewrite map_app, map_app. rewrite IH.
    fold (RFM._format_output (merged_frame self [c] orders catalog items)).
    rewrite (single_customer_rows self c orders catalog items N).
    cbn [map filter].
    destruct (is_eligible_email self orders (customer_key c)); reflexivity.
Qed.

Lemma output_follows_customers_witness :
  map RFM.Email
      (RFM._format_output
         (merged_frame example_processor example_customers example_orders
                       example_catalog example_items))
  = filter (is_eligible_email example_processor example_orders)
           (map customer_key example_customers).
Proof.
  apply (output_follows_customers
           example_processor example_store _ _ example_customers
           example_orders example_catalog
           (process_on_raw_frames example_processor example_customers
              example_orders example_catalog example_items)
           eq_refl eq_refl eq_refl).
  repeat constructor; simpl; intuition.
Defined.

(** ** The invoice flag *)

Lemma has_payment_method_spec (orders : list RFM.order) :
  RFM.has_payment_method orders = true
  <-> forall o, In o orders -> RFM.Payment_Method o <> Missing.
Proof.
  unfold RFM.has_payment_method. rewrite forallb_forall.
  split; intros H o Ho; specialize (H o Ho);
    destruct (RFM.Payment_Method o); congruence.
Qed.

Lemma names_invoice_a_read (c : cell string) :
  RFM.contains (lower "Factura A") (lower (RFM.method_text c))
  = names_invoice_a c.
Proof. destruct c; reflexivity. Qed.

Lemma existsb_names_invoice_a (l : list RFM.order) :
  existsb (fun o => RFM.contains (lower "Factura A")
                      (lower (RFM.method_text (RFM.Payment_Method o)))) l
  = existsb (fun o => names_invoice_a (RFM.Payment_Method o)) l.
Proof.
  induction l as [|o l IH]; [reflexivity|].
  cbn [existsb]. now rewrite names_invoice_a_read, IH.
Qed.

(** The rows of [_detect_invoice_a] for one e-mail, when the orders have the
    column. *)
Lemma detect_invoice_a_where (orders : list RFM.order) (e : string) :
  (forall o, In o orders -> RFM.Payment_Method o <> Missing) ->
  where_eq fst e (RFM._detect_invoice_a orders)
  = map (fun g : string * list RFM.order =>
           (fst g,
            if existsb (fun o => names_invoice_a (RFM.Payment_Method o)) (snd g)
            then "Sí" else "No"))
        (one_group e (where_eq RFM.by_email e orders)).
Proof.
  intros P. apply has_payment_method_spec in P.
  unfold RFM._detect_invoice_a. rewrite P. cbn [negb].
  rewrite (where_eq_map fst fst) by reflexivity.
  rewrite groupby_where. apply map_ext. intros g.
  now rewrite existsb_names_invoice_a.
Qed.

Lemma detect_invoice_a_no_column (orders : list RFM.order) :
  (exists o, In o orders /\ RFM.Payment_Method o = Missing) ->
  RFM._detect_invoice_a orders = [].
Proof.
  intros (o & Ho & Mo). unfold RFM._detect_invoice_a.
  destruct (RFM.has_payment_method orders) eqn:P; [|reflexivity].
  now elim (proj1 (has_payment_method_spec orders) P o Ho).
Qed.

(** X18.  When the orders have the column [Payment_Method],
    [_detect_invoice_a] returns one row for every e-mail of the orders and
    no other row; the flag of the row is Sí when the payment method of some
    order with that e-mail holds the words factura a, in whatever case its
    letters are, and No otherwise, so that an empty payment method never
    counts.  When the orders do not have the column, it returns no row at
    all. *)
Theorem detect_invoice_a_rows (orders : list RFM.order) (e flag : string) :
  ((forall o, In o orders -> RFM.Payment_Method o <> Missing) ->
   (In (e, flag) (RFM._detect_invoice_a orders)
    <-> (exists o, In o orders /\ RFM.by_email o = e)
        /\ flag
           = if existsb (fun o => names_invoice_a (RFM.Payment_Method o))
                        (where_eq RFM.by_email e orders)
             then "Sí" else "No")
   /\ (List.length (where_eq fst e (RFM._detect_invoice_a orders)) <= 1)%nat)
  /\ ((exists o, In o orders /\ RFM.Payment_Method o = Missing) ->
      RFM._detect_invoice_a orders = [])
  /\ names_invoice_a Null = false
  /\ names_invoice_a (Val "Transferencia - FACTURA A") = true.
Proof.
  split; [|split; [|split; reflexivity]].
  - intros P. split; [|apply invoice_short].
    pose proof (detect_invoice_a_where orders e P) as W.
    assert (M : In (e, flag) (RFM._detect_invoice_a orders)
                <-> In (e, flag) (where_eq fst e (RFM._detect_invoice_a orders))).
    { unfold where_eq. rewrite filter_In. cbn [fst].
      rewrite String.eqb_refl. tauto. }
    rewrite M, W. clear M W.
    destruct (where_eq RFM.by_email e orders) as [|o os] eqn:E.
    + cbn [one_group map In]. split; [tauto|].
      intros [(o & Ho & He) _].
      assert (Hw : In o (where_eq RFM.by_email e orders)).
      { apply filter_In. split; [exact Ho|]. now apply String.eqb_eq. }
      rewrite E in Hw. destruct Hw.
    + cbn [one_group map In fst snd]. split.
      * intros [[= <-]|[]]. split; [|reflexivity].
        exists o.
        assert (Hw : In o (where_eq RFM.by_email e orders))
          by (rewrite E; now left).
        apply filter_In in Hw. destruct Hw as [Hw He].
        split; [exact Hw|]. now apply String.eqb_eq.
      * intros [_ ->]. now left.
  - apply detect_invoice_a_no_column.
Qed.

(** ** The dates of a customer in their order *)

Lemma insert_sorted_in (d x : date) (l : list date) :
  In x (RFM.insert_sorted d l) <-> x = d \/ In x l.
Proof.
  induction l as [|y l IH]; cbn [RFM.insert_sorted In]; [intuition|].
  destruct (to_days d <? to_days y); cbn [In]; [intuition|].
  rewrite IH. intuition.
Qed.

Lemma insert_sorted_length (d : date) (l : list date) :
  List.length (RFM.insert_sorted d l) = S (List.length l).
Proof.
  induction l as [|y l IH]; [reflexivity|]. cbn [RFM.insert_sorted].
  destruct (to_days d <? to_days y); cbn [List.length]; [reflexivity|].
  now rewrite IH.
Qed.

Lemma insert_sorted_sorted (d : date) (l : list date) :
  StronglySorted (fun a b => to_days a <= to_days b) l ->
  StronglySorted (fun a b => to_days a <= to_days b) (RFM.insert_sorted d l).
Proof.
  induction l as [|y l IH]; intros S; cbn [RFM.insert_sorted].
  - constructor; constructor.
  - apply StronglySorted_inv in S. destruct S as [S F].
    destruct (Z.ltb_spec (to_days d) (to_days y)) as [L|L].
    + constructor; [constructor; assumption|].
      constructor; [lia|]. revert F. apply Forall_impl. intros a Ha. lia.
    + constructor; [now apply IH|].
      apply Forall_forall. intros a Ha. apply insert_sorted_in in Ha.
      destruct Ha as [->|Ha]; [exact L|].
      rewrite Forall_forall in F. now apply F.
Qed.

Lemma sort_values_acc (l acc : list date) :
  StronglySorted (fun a b => to_days a <= to_days b) acc ->
  let s := fold_left (fun acc d => RFM.insert_sorted d acc) l acc in
  StronglySorted (fun a b => to_days a <= to_days b) s
  /\ List.length s = (List.length l + List.length acc)%nat
  /\ forall x, In x s <-> In x l \/ In x acc.
Proof.
  revert acc. induction l as [|d l IH]; intros acc S; cbn [fold_left].
  - cbv zeta. split; [exact S|]. split; [reflexivity|].
    intros x. cbn [In]. intuition.
  - destruct (IH _ (insert_sorted_sorted d acc S)) as (A & B & C).
    cbv zeta. split; [exact A|]. split.
    + rewrite B, insert_sorted_length. cbn [List.length]. lia.
    + intros x. rewrite C, insert_sorted_in. cbn [In]. intuition.
Qed.

Lemma sort_values_spec (l : list date) :
  StronglySorted (fun a b => to_days a <= to_days b) (RFM.sort_values l)
  /\ List.length (RFM.sort_values l) = List.length l
  /\ forall x, In x (RFM.sort_values l) <-> In x l.
Proof.
  destruct (sort_values_acc l [] (SSorted_nil _)) as (A & B & C).
  unfold RFM.sort_values. split; [exact A|]. split.
  - rewrite B. cbn [List.length]. lia.
  - intros x. rewrite C. cbn [In]. intuition.
Qed.

Lemma gaps_cons (a b : date) (t : list date) :
  RFM.gaps (a :: b :: t) = (to_days b - to_days a) :: RFM.gaps (b :: t).
Proof. reflexivity. Qed.

Lemma gaps_sum (a : date) (l : list date) (d0 : date) :
  RFM.sumZ (RFM.gaps (a :: l)) = to_days (last (a :: l) d0) - to_days a.
Proof.
  revert a. induction l as [|b t IH]; intros a.
  - cbn. lia.
  - rewrite gaps_cons. cbn [RFM.sumZ fold_right]. fold (RFM.sumZ (RFM.gaps (b :: t))).
    rewrite IH. change (last (a :: b :: t) d0) with (last (b :: t) d0). lia.
Qed.

Lemma gaps_length (a : date) (l : list date) :
  List.length (RFM.gaps (a :: l)) = List.length l.
Proof.
  revert a. induction l as [|b t IH]; intros a; [reflexivity|].
  rewrite gaps_cons. cbn [List.length]. now rewrite IH.
Qed.

Lemma sorted_last (l : list date) (a d0 : date) :
  StronglySorted (fun a b => to_days a <= to_days b) (a :: l) ->
  In (last (a :: l) d0) (a :: l)
  /\ forall x, In x (a :: l) ->
               to_days a <= to_days x <= to_days (last (a :: l) d0).
Proof.
  revert a. induction l as [|b t IH]; intros a S.
  - cbn. split; [now left|]. intros x [->|[]]. lia.
  - apply StronglySorted_inv in S. destruct S as [S F].
    destruct (IH b S) as [I B].
    change (last (a :: b :: t) d0) with (last (b :: t) d0).
    split; [now right|]. rewrite Forall_forall in F.
    intros x [->|Hx].
    + split; [lia|]. now apply F.
    + split; [now apply F|]. now apply B.
Qed.

Lemma fold_earlier_min (rest : list date) (o : date) :
  In (fold_left RFM.earlier rest o) (o :: rest)
  /\ forall x, In x (o :: rest) ->
               to_days (fold_left RFM.earlier rest o) <= to_days x.
Proof.
  revert o. induction rest as [|b t IH]; intros o; cbn [fold_left].
  - split; [now left|]. intros x [->|[]]. lia.
  - destruct (IH (RFM.earlier o b)) as [I B]. split.
    + destruct I as [I|I]; [|right; now right].
      rewrite <- I. unfold RFM.earlier.
      destruct (to_days b <? to_days o); [right; now left|now left].
    + assert (E : to_days (RFM.earlier o b) <= to_days o
                  /\ to_days (RFM.earlier o b) <= to_days b).
      { unfold RFM.earlier.
        destruct (Z.ltb_spec (to_days b) (to_days o)); lia. }
      pose proof (B _ (or_introl eq_refl)) as B0.
      intros x [->|[->|Hx]]; [lia|lia|]. apply B. now right.
Qed.

Lemma fold_later_max (rest : list date) (o : date) :
  In (fold_left RFM.later rest o) (o :: rest)
  /\ forall x, In x (o :: rest) ->
               to_days x <= to_days (fold_left RFM.later rest o).
Proof.
  revert o. induction rest as [|b t IH]; intros o; cbn [fold_left].
  - split; [now left|]. intros x [->|[]]. lia.
  - destruct (IH (RFM.later o b)) as [I B]. split.
    + destruct I as [I|I]; [|right; now right].
      rewrite <- I. unfold RFM.later.
      destruct (to_days o <? to_days b); [right; now left|now left].
    + assert (E : to_days o <= to_days (RFM.later o b)
                  /\ to_days b <= to_days (RFM.later o b)).
      { unfold RFM.later.
        destruct (Z.ltb_spec (to_days o) (to_days b)); lia. }
      pose proof (B _ (or_introl eq_refl)) as B0.
      intros x [->|[->|Hx]]; [lia|lia|]. apply B. now right.
Qed.

(** The mean of the gaps between the purchases of a customer: the days
    from the first purchase to the last, over the number of gaps. *)
Lemma avg_time_value (o : date) (rest : list date) :
  RFM.calculate_avg_time_between_purchases (o :: rest)
  = match rest with
    | [] => None
    | _ =>
        Some (inject_Z (to_days (fold_left RFM.later rest o)
                        - to_days (fold_left RFM.earlier rest o))
              / inject_Z (Z.of_nat (List.length rest)))%Q
    end.
Proof.
  unfold RFM.calculate_avg_time_between_purchases.
  destruct (sort_values_spec (o :: rest)) as (Srt & L & I).
  destruct (RFM.sort_values (o :: rest)) as [|a s] eqn:E;
    [discriminate L|].
  cbn [List.length] in L. injection L as L.
  destruct rest as [|b t].
  - destruct s; [reflexivity|discriminate L].
  - cbn [List.length]. replace (S (List.length s) <=? 1)%nat with false
      by (symmetry; apply Nat.leb_gt; rewrite L; cbn; lia).
    rewrite (gaps_sum a s o), gaps_length, L.
    destruct (sorted_last s a o Srt) as [Il Bl].
    destruct (fold_earlier_min (b :: t) o) as [Ie Be].
    destruct (fold_later_max (b :: t) o) as [Im Bm].
    assert (Ha : In a (o :: b :: t)) by (apply I; now left).
    assert (Hl : In (last (a :: s) o) (o :: b :: t)) by (now apply I).
    apply I in Ie. apply I in Im.
    pose proof (Be _ Ha). pose proof (Bm _ Hl).
    pose proof (proj1 (Bl _ Ie)). pose proof (proj2 (Bl _ Im)).
    replace (to_days (last (a :: s) o) - to_days a)
      with (to_days (fold_left RFM.later (b :: t) o)
            - to_days (fold_left RFM.earlier (b :: t) o)) by lia.
    reflexivity.
Qed.

(** ** The days in a row of the output *)

Lemma output_row_recency self customers orders catalog items
      (r : RFM.RFMRecord) :
  In r (RFM._format_output
          (merged_frame self customers orders catalog items)) ->
  exists o rest,
    where_eq RFM.by_email (RFM.Email r) (eligible_rows self orders) = o :: rest
    /\ RFM.Recencia_Dias r
       = Some (RFM.days_since self
                 (fold_left RFM.later (map RFM.Purchase_Date rest)
                            (RFM.Purchase_Date o))).
Proof.
  intros H.
  assert (H' : In r (where_eq RFM.Email (RFM.Email r)
                       (RFM._format_output
                          (merged_frame self customers orders catalog items)))).
  { apply filter_In. split; [exact H|apply String.eqb_refl]. }
  clear H. rewrite output_local in H'.
  remember (RFM.Email r) as e eqn:Ee.
  destruct (where_eq RFM.by_email e (eligible_rows self orders))
    as [|o rest] eqn:Els.
  { unfold RFM._calculate_rfm_metrics in H'. simpl in H'.
    rewrite merge_all_data_no_metrics in H'. destruct H'. }
  assert (He : forall x, In x (o :: rest) -> RFM.by_email x = e).
  { rewrite <- Els. apply in_where_eq. }
  destruct (rfm_metrics_one self e o rest He)
    as (f & rc & R & F1 & F2 & F3 & F4 & F5).
  rewrite R in H'.
  rewrite (additional_kpis_one e o rest He) in H'.
  rewrite (merge_all_data_one _ f (Some rc) _ _ e) in H';
    [|apply in_where_eq|apply in_where_eq|exact F1|reflexivity].
  unfold RFM._format_output in H'. apply in_map_iff in H'.
  destruct H' as (m & <- & Hm). apply in_flat_map in Hm.
  destruct Hm as (c & _ & Hm).
  exists o, rest. split; [reflexivity|].
  assert (Hf : RFM.m_recency m = Some rc).
  { destruct (where_eq RFM.pref_Customer_Email e _) as [|p ps].
    - destruct Hm as [Hm|[]]. now rewrite <- Hm.
    - apply in_map_iff in Hm. destruct Hm as (p' & Hm & _).
      now rewrite <- Hm. }
  unfold RFM.format_row. cbn [RFM.Recencia_Dias].
  rewrite Hf. cbn [option_map]. now rewrite F5.
Qed.

(** The days of a row of the output, counted from the day of the
    processor: the first and the last purchase of the customer. *)
Lemma output_row_days self customers orders catalog items (r : RFM.RFMRecord) :
  In r (RFM._format_output
          (merged_frame self customers orders catalog items)) ->
  exists (first last : Z) (n : nat),
    first <= last
    /\ RFM.Frecuencia r = Z.of_nat (S n)
    /\ RFM.Dias_Como_Cliente r
       = RFM.replace_0_1 (RFM.current_date self / 86400 - first)
    /\ RFM.Recencia_Dias r = Some (RFM.current_date self / 86400 - last)
    /\ RFM.Tiempo_Promedio_Entre_Compras r
       = match n with
         | O => None
         | _ => Some (inject_Z (last - first) / inject_Z (Z.of_nat n))%Q
         end.
Proof.
  intros H.
  destruct (output_row_fields _ _ _ _ _ _ H)
    as (o & rest & W & _ & Fr & _ & Tp & Dc).
  destruct (output_row_recency _ _ _ _ _ _ H) as (o' & rest' & W' & Rc).
  rewrite W in W'. injection W' as <- <-.
  exists (to_days (fold_left RFM.earlier (map RFM.Purchase_Date rest)
                             (RFM.Purchase_Date o))),
         (to_days (fold_left RFM.later (map RFM.Purchase_Date rest)
                             (RFM.Purchase_Date o))),
         (List.length rest).
  split.
  - destruct (fold_earlier_min (map RFM.Purchase_Date rest)
                               (RFM.Purchase_Date o)) as [_ B].
    destruct (fold_later_max (map RFM.Purchase_Date rest)
                             (RFM.Purchase_Date o)) as [I _].
    now apply B.
  - split; [exact Fr|]. rewrite <- !days_since_days.
    split; [exact Dc|]. split; [exact Rc|].
    rewrite Tp. cbn [map]. rewrite avg_time_value, length_map.
    now destruct rest.
Qed.

(** X19.  In every row that [process] returns the frequency is at least
    1, the days as a customer are never 0, and the days since the last
    purchase are present and are not more than the days as a customer. *)
Theorem output_days_ordered (self : RFM.RFMProcessor) (st st' : RFM.store)
        (out : list RFM.RFMRecord) (r : RFM.RFMRecord) :
  RFM.process self st = (inr out, st') ->
  In r out ->
  1 <= RFM.Frecuencia r
  /\ RFM.Dias_Como_Cliente r <> 0
  /\ exists d, RFM.Recencia_Dias r = Some d /\ d <= RFM.Dias_Como_Cliente r.
Proof.
  intros H Hr.
  destruct (process_success _ _ _ _ H)
    as (customers & orders & catalog & items & _ & -> & _).
  destruct (output_row_days _ _ _ _ _ _ Hr)
    as (first & last & n & L & Fr & Dc & Rc & _).
  rewrite Fr, Dc, Rc. unfold RFM.replace_0_1.
  split; [lia|]. split.
  - destruct (Z.eqb_spec (RFM.current_date self / 86400 - first) 0); lia.
  - eexists. split; [reflexivity|].
    destruct (Z.eqb_spec (RFM.current_date self / 86400 - first) 0); lia.
Qed.

Lemma output_days_ordered_witness :
  1 <= RFM.Frecuencia example_row
  /\ RFM.Dias_Como_Cliente example_row <> 0
  /\ exists d,
      RFM.Recencia_Dias example_row = Some d
      /\ d <= RFM.Dias_Como_Cliente example_row.
Proof.
  apply (output_days_ordered example_processor example_store _ _ _
           (process_on_raw_frames example_processor example_customers
              example_orders example_catalog example_items)).
  vm_compute. left. reflexivity.
Defined.

(** X20.  In every row that [process] returns the mean time between
    purchases is null exactly when the frequency is 1; otherwise it is not
    negative and, unless the days as a customer are 1, it is the
    difference between the days as a customer and the days since the last
    purchase, divided by the frequency less one. *)
Theorem output_mean_gap (self : RFM.RFMProcessor) (st st' : RFM.store)
        (out : list RFM.RFMRecord) (r : RFM.RFMRecord) :
  RFM.process self st = (inr out, st') ->
  In r out ->
  (RFM.Tiempo_Promedio_Entre_Compras r = None <-> RFM.Frecuencia r = 1)
  /\ forall q d,
      RFM.Tiempo_Promedio_Entre_Compras r = Some q ->
      RFM.Recencia_Dias r = Some d ->
      (0 <= q)%Q
      /\ (RFM.Dias_Como_Cliente r <> 1 ->
          (q == inject_Z (RFM.Dias_Como_Cliente r - d)
                / inject_Z (RFM.Frecuencia r - 1))%Q).
Proof.
  intros H Hr.
  destruct (process_success _ _ _ _ H)
    as (customers & orders & catalog & items & _ & -> & _).
  destruct (output_row_days _ _ _ _ _ _ Hr)
    as (first & last & n & L & Fr & Dc & Rc & Tp).
  rewrite Fr, Dc, Rc, Tp. split.
  - destruct n; [split; reflexivity|]. split; [discriminate|lia].
  - intros q d Hq [= <-]. destruct n as [|n]; [discriminate|].
    injection Hq as <-. split.
    + apply Qle_shift_div_l; [reflexivity|].
      rewrite Qmult_0_l. change 0%Q with (inject_Z 0).
      rewrite <- Zle_Qle. lia.
    + intros N. unfold RFM.replace_0_1 in *.
      destruct (Z.eqb_spec (RFM.current_date self / 86400 - first) 0);
        [congruence|].
      replace (RFM.current_date self / 86400 - first
               - (RFM.current_date self / 86400 - last))
        with (last - first) by lia.
      replace (Z.of_nat (S (S n)) - 1) with (Z.of_nat (S n)) by lia.
      reflexivity.
Qed.

Lemma output_mean_gap_witness :
  (RFM.Tiempo_Promedio_Entre_Compras example_row = None
   <-> RFM.Frecuencia example_row = 1)
  /\ forall q d,
      RFM.Tiempo_Promedio_Entre_Compras example_row = Some q ->
      RFM.Recencia_Dias example_row = Some d ->
      (0 <= q)%Q
      /\ (RFM.Dias_Como_Cliente example_row <> 1 ->
          (q == inject_Z (RFM.Dias_Como_Cliente example_row - d)
                / inject_Z (RFM.Frecuencia example_row - 1))%Q).
Proof.
  apply (output_mean_gap example_processor example_store _ _ _
           (process_on_raw_frames example_processor example_customers
              example_orders example_catalog example_items)).
  vm_compute. left. reflexivity.
Defined.

(** ** The preferred weekday *)

Lemma Z_compare_laws : order_laws Z.compare.
Proof.
  constructor.
  - intros x y. apply Z.compare_eq_iff.
  - intros x y. apply Z.compare_antisym.
  - intros x y z. rewrite !Z.compare_lt_iff. lia.
Qed.

Lemma key_eqb_Z (r k : Z) : key_eqb Z.compare r k = Z.eqb k r.
Proof.
  unfold key_eqb.
  destruct (Z.compare_spec r k); destruct (Z.eqb_spec k r);
    try reflexivity; lia.
Qed.

Lemma occurrences_filter (k : Z) (x : list Z) :
  filter (fun r => key_eqb Z.compare r k) x = filter (Z.eqb k) x.
Proof. apply filter_ext. intros r. apply key_eqb_Z. Qed.

(** The value that [mode_0] returns occurs in the series; no value occurs
    more often, and the values that occur as often are larger. *)
Lemma mode_0_spec (v : Z) (rest : list Z) :
  let w := KPIs.mode_0 v rest in
  In w (v :: rest)
  /\ forall w',
      (occurrences w' (v :: rest) <= occurrences w (v :: rest))%nat
      /\ (occurrences w' (v :: rest) = occurrences w (v :: rest) -> w <= w').
Proof.
  set (x := v :: rest).
  destruct (groupby_spec Z.compare (fun r : Z => r) Z_compare_laws x)
    as (I & N & G).
  assert (Hin : forall k, filter (Z.eqb k) x <> [] ->
                          In (k, filter (Z.eqb k) x) (KPIs.value_counts x)).
  { intros k Hk.
    pose proof (groupby_with_key Z.compare (fun r : Z => r) Z_compare_laws x k)
      as W.
    rewrite occurrences_filter in W.
    destruct (filter (Z.eqb k) x) as [|a l] eqn:E; [congruence|].
    assert (Hg : In (k, a :: l)
                    (filter (fun g => key_eqb Z.compare (fst g) k)
                            (groupby Z.compare (fun r : Z => r) x)))
      by (rewrite W; now left).
    apply filter_In in Hg. exact (proj1 Hg). }
  assert (Hv : filter (Z.eqb v) x <> []).
  { subst x. cbn [filter]. now rewrite Z.eqb_refl. }
  cbv zeta. unfold KPIs.mode_0. fold x.
  destruct (KPIs.value_counts x) as [|g0 gs] eqn:Ev;
    [destruct (Hin v Hv)|].
  destruct (idxmax_some (fun g : Z * list Z => Z.of_nat (List.length (snd g)))
                        g0 gs) as (g & Eg).
  rewrite Eg.
  destruct (idxmax_first _ _ _ Eg) as (before & after & Sp & Hb & Ha).
  assert (Hg : In g (KPIs.value_counts x))
    by (rewrite Ev, Sp; apply in_or_app; right; now left).
  destruct (groupby_member Z.compare (fun r : Z => r) Z_compare_laws x g Hg)
    as [Es Ns].
  rewrite occurrences_filter in Es.
  assert (Oc : occurrences (fst g) x = List.length (snd g))
    by (unfold occurrences; now rewrite Es).
  assert (Pos : (1 <= List.length (snd g))%nat)
    by (destruct (snd g); [congruence|cbn; lia]).
  split.
  - destruct (snd g) as [|a l] eqn:E; [congruence|].
    assert (Hm : In a (filter (Z.eqb (fst g)) x)) by (rewrite <- Es; now left).
    apply filter_In in Hm. destruct Hm as [Hm Hk].
    apply Z.eqb_eq in Hk. now rewrite Hk.
  - intros w'. rewrite Oc.
    destruct (filter (Z.eqb w') x) as [|a l] eqn:E.
    + unfold occurrences. rewrite E. cbn [List.length]. split; lia.
    + assert (Hw : In (w', filter (Z.eqb w') x) (g0 :: gs))
        by (apply Hin; rewrite E; discriminate).
      assert (Ow : occurrences w' x = List.length (a :: l))
        by (unfold occurrences; now rewrite E).
      rewrite Ow. rewrite E, Sp in Hw.
      apply in_app_or in Hw. destruct Hw as [Hw|[Hw|Hw]].
      * specialize (Hb _ Hw). cbn [snd] in Hb. split; lia.
      * rewrite Hw. cbn [fst snd]. split; lia.
      * specialize (Ha _ Hw). cbn [snd] in Ha. split; [lia|]. intros _.
        assert (Inc : increasing Z.compare (before ++ g :: after))
          by (rewrite <- Sp, <- Ev; exact I).
        pose proof (increasing_after Z.compare before after g Inc _ Hw) as C.
        cbn [fst] in C. rewrite Z.compare_lt_iff in C. lia.
Qed.

Lemma day_map_named (w : Z) : 0 <= w <= 6 -> KPIs.day_map w <> "N/A".
Proof.
  intros H.
  assert (C : w = 0 \/ w = 1 \/ w = 2 \/ w = 3 \/ w = 4 \/ w = 5 \/ w = 6)
    by lia.
  repeat (destruct C as [->|C]; [discriminate|]). subst w. discriminate.
Qed.

(** X21.  A row of [df_day_freq] names a weekday of an order of its
    customer, never N/A: no weekday holds more orders of the customer, and
    among the weekdays that hold as many, the named one comes first in the
    week that begins on Monday. *)
Theorem preferred_weekday (orders : list RFM.order) (e day : string) :
  In (e, day) (KPIs.df_day_freq orders) ->
  exists w,
    day = KPIs.day_map w /\ 0 <= w <= 6 /\ day <> "N/A"
    /\ let days := map (fun o => KPIs.dayofweek (RFM.Purchase_Date o))
                       (where_eq RFM.by_email e orders) in
       In w days
       /\ forall w',
           (occurrences w' days <= occurrences w days)%nat
           /\ (occurrences w' days = occurrences w days -> w <= w').
Proof.
  intros H. unfold KPIs.df_day_freq in H. apply in_flat_map in H.
  destruct H as (g & Hg & H).
  destruct (groupby_member cmp_str RFM.by_email cmp_str_laws orders g Hg)
    as [Es _].
  assert (Ew : snd g = where_eq RFM.by_email (fst g) orders).
  { rewrite Es. apply filter_ext. intros o. apply key_eqb_str. }
  unfold KPIs.day_of_group in H. rewrite Ew in H.
  destruct (map (fun o => KPIs.dayofweek (RFM.Purchase_Date o))
                (where_eq RFM.by_email (fst g) orders)) as [|v rest] eqn:Ed;
    [destruct H|].
  destruct H as [[= <- <-]|[]]. rewrite Ed.
  destruct (mode_0_spec v rest) as [Iw Mw].
  exists (KPIs.mode_0 v rest).
  assert (R : 0 <= KPIs.mode_0 v rest <= 6).
  { rewrite <- Ed in Iw. apply in_map_iff in Iw.
    destruct Iw as (o & <- & _). unfold KPIs.dayofweek.
    pose proof (Z.mod_pos_bound (to_days (RFM.Purchase_Date o) + 3) 7).
    lia. }
  split; [reflexivity|]. split; [exact R|].
  split; [now apply day_map_named|]. cbv zeta. split; [exact Iw|exact Mw].
Qed.

Lemma preferred_weekday_witness :
  exists w,
    "Lunes" = KPIs.day_map w /\ 0 <= w <= 6.
Proof.
  destruct (preferred_weekday
              (eligible_rows example_processor example_orders)
              "ana@x.com" "Lunes") as (w & E & R & _).
  - vm_compute. left. reflexivity.
  - exists w. now split.
Defined.

(** ** The preferences of a customer and the order lines *)

Section MergeRows.
Context {L R C : Type}.
Variable left_on : L -> string.
Variable right_on : R -> string.

Lemma merge_left_in (combine : L -> option R -> C) (left : list L)
      (right : list R) (c : C) :
  In c (merge_left left_on right_on combine left right) ->
  exists l,
    In l left
    /\ ((where_eq right_on (left_on l) right = [] /\ c = combine l None)
        \/ exists r, In r (where_eq right_on (left_on l) right)
                     /\ c = combine l (Some r)).
Proof.
  unfold merge_left. intros H. apply in_flat_map in H.
  destruct H as (l & Hl & H). exists l. split; [exact Hl|].
  rewrite matches_where in H.
  destruct (where_eq right_on (left_on l) right) as [|r rs] eqn:E.
  - left. destruct H as [<-|[]]. now split.
  - right. apply in_map_iff in H. destruct H as (r' & <- & Hr).
    now exists r'.
Qed.

Lemma merge_left_covers (combine : L -> option R -> C) (left : list L)
      (right : list R) (l : L) :
  In l left ->
  exists r, In (combine l r) (merge_left left_on right_on combine left right).
Proof.
  intros H. unfold merge_left.
  destruct (matches left_on right_on l right) as [|r rs] eqn:E.
  - exists None. apply in_flat_map. exists l. split; [exact H|].
    rewrite E. now left.
  - exists (Some r). apply in_flat_map. exists l. split; [exact H|].
    rewrite E. now left.
Qed.
End MergeRows.

Lemma preferred_line col (lines : list RFM.item_line) (r : RFM.qty_row) :
  In r (RFM.preferred col lines) ->
  exists l, In l lines /\ RFM.line_Customer_Email l = RFM.qty_email r.
Proof.
  intros H. apply preferred_row in H. apply idxmax_in in H.
  apply filter_In in H. destruct H as [H _].
  destruct (summed_quantities_spec col lines) as (_ & S & _).
  destruct (S r H) as (_ & l & Hl & El & _). now exists l.
Qed.

(** A row of [df_prefs] belongs to a customer with an order line, and its
    invoice flag is the flag of that customer in [df_invoice_a], null when
    the customer has none. *)
Lemma preferences_row (lines : list RFM.item_line)
      (catalog : list RFM.catalog_row) (orders : list RFM.order)
      (p : RFM.pref_row) :
  In p (RFM.merge_preferences lines catalog orders) ->
  (exists l, In l lines
             /\ RFM.line_Customer_Email l = RFM.pref_Customer_Email p)
  /\ ((where_eq fst (RFM.pref_Customer_Email p)
                (RFM._detect_invoice_a orders) = []
       /\ RFM.pref_Tiene_Factura_A p = None)
      \/ exists a,
          In a (where_eq fst (RFM.pref_Customer_Email p)
                         (RFM._detect_invoice_a orders))
          /\ RFM.pref_Tiene_Factura_A p = Some (snd a)).
Proof.
  unfold RFM.merge_preferences. intros H.
  apply merge_left_in in H. destruct H as ([[c b] pf] & Hx & H).
  apply merge_left_in in Hx. destruct Hx as ([c' b'] & Hy & Hx).
  apply merge_left_in in Hy. destruct Hy as (c'' & Hc & Hy).
  assert (Ec : c = c'').
  { destruct Hx as [[_ Hx]|(r & _ & Hx)]; injection Hx as -> _ _;
      destruct Hy as [[_ Hy]|(r' & _ & Hy)]; now injection Hy as ->. }
  subst c''. cbn [fst] in H.
  assert (Ep : RFM.pref_Customer_Email p = RFM.qty_email c)
    by (destruct H as [[_ ->]|(a & _ & ->)]; reflexivity).
  rewrite Ep. split.
  - now apply (preferred_line RFM.Categoria_Limpia).
  - destruct H as [[E ->]|(a & Ha & ->)].
    + left. now split.
    + right. exists a. now split.
Qed.

Lemma preferences_some (lines : list RFM.item_line)
      (catalog : list RFM.catalog_row) (orders : list RFM.order)
      (l : RFM.item_line) :
  In l lines ->
  exists p, In p (RFM.merge_preferences lines catalog orders)
            /\ RFM.pref_Customer_Email p = RFM.line_Customer_Email l.
Proof.
  intros H.
  destruct (preferred_exists RFM.Categoria_Limpia lines l H) as (c & Hc & Ec).
  unfold RFM.merge_preferences.
  destruct (merge_left_covers
              RFM.qty_email RFM.qty_email
              (fun (c : RFM.qty_row) (b : option RFM.qty_row) => (c, b))
              _ (RFM.preferred RFM.line_brand lines) c Hc) as (b & H1).
  match goal with
  | |- context [merge_left ?lo ?ro ?cb
                  (merge_left RFM.qty_email RFM.qty_email _ _ _) ?right] =>
      destruct (merge_left_covers lo ro cb _ right (c, b) H1) as (pf & H2)
  end.
  match goal with
  | |- context [merge_left ?lo ?ro ?cb (merge_left ?a1 ?a2 ?a3 ?a4 ?a5)
                  (RFM._detect_invoice_a orders)] =>
      destruct (merge_left_covers lo ro cb _ (RFM._detect_invoice_a orders)
                                  (c, b, pf) H2) as (a & H3)
  end.
  eexists. split; [exact H3|]. exact Ec.
Qed.

Lemma item_lines_emails (items : list RFM.item_row)
      (catalog : list RFM.catalog_row) (e : string) :
  (exists l, In l (RFM.item_lines items catalog)
             /\ RFM.line_Customer_Email l = e)
  <-> exists i x, In i items /\ RFM.customer_email i = Some x /\ lower x = e.
Proof.
  unfold RFM.item_lines. split.
  - intros (l & Hl & El). apply in_flat_map in Hl.
    destruct Hl as ([i c] & Hic & Hl).
    apply merge_left_in in Hic. destruct Hic as (i' & Hi & Hic).
    assert (Ei : i = i')
      by (destruct Hic as [[_ Hic]|(r & _ & Hic)]; now injection Hic as ->).
    subst i'. destruct (RFM.customer_email i) as [x|] eqn:Ex; [|destruct Hl].
    destruct Hl as [<-|[]]. exists i, x. now repeat split.
  - intros (i & x & Hi & Ex & El).
    destruct (merge_left_covers
                (fun i => str_of_cell (RFM.sku i))
                (fun c => str_of_cell (RFM.catalog_sku c))
                (fun i c => (i, c)) items catalog i Hi) as (c & Hc).
    eexists. split.
    + apply in_flat_map. exists (i, c). split; [exact Hc|].
      rewrite Ex. now left.
    + exact El.
Qed.

(** The preference columns of a row of the output: all null, or those of a
    row of [df_prefs] with the e-mail of the row. *)
Lemma output_row_pref self customers orders catalog items (r : RFM.RFMRecord) :
  In r (RFM._format_output
          (merged_frame self customers orders catalog items)) ->
  let prefs :=
    RFM.merge_preferences
      (RFM.item_lines (map RFM.normalize_item items)
                      (map RFM.normalize_catalog catalog))
      (map RFM.normalize_catalog catalog) (eligible_rows self orders) in
  (where_eq RFM.pref_Customer_Email (RFM.Email r) prefs = []
   /\ RFM.Categoria_Preferida r = None
   /\ RFM.Marca_Preferida r = None
   /\ RFM.Producto_Favorito_SKU r = None
   /\ RFM.Producto_Favorito_Nombre r = None
   /\ RFM.Producto_Favorito_Qty r = None
   /\ RFM.Tiene_Factura_A r = None)
  \/ exists p,
      In p prefs
      /\ RFM.pref_Customer_Email p = RFM.Email r
      /\ RFM.Categoria_Preferida r = Some (RFM.pref_Categoria_Preferida p)
      /\ RFM.Tiene_Factura_A r = RFM.pref_Tiene_Factura_A p.
Proof.
  intros H.
  assert (H' : In r (where_eq RFM.Email (RFM.Email r)
                       (RFM._format_output
                          (merged_frame self customers orders catalog items)))).
  { apply filter_In. split; [exact H|apply String.eqb_refl]. }
  clear H. rewrite output_local in H'.
  remember (RFM.Email r) as e eqn:Ee.
  destruct (where_eq RFM.by_email e (eligible_rows self orders))
    as [|o rest] eqn:Els.
  { unfold RFM._calculate_rfm_metrics in H'. simpl in H'.
    rewrite merge_all_data_no_metrics in H'. destruct H'. }
  assert (He : forall x, In x (o :: rest) -> RFM.by_email x = e).
  { rewrite <- Els. apply in_where_eq. }
  destruct (rfm_metrics_one self e o rest He) as (f & rc & R & F1 & _).
  rewrite R in H'.
  rewrite (additional_kpis_one e o rest He) in H'.
  rewrite (merge_all_data_one _ f (Some rc) _ _ e) in H';
    [|apply in_where_eq|apply in_where_eq|exact F1|reflexivity].
  unfold RFM._format_output in H'. apply in_map_iff in H'.
  destruct H' as (m & Em & Hm). apply in_flat_map in Hm.
  destruct Hm as (c & _ & Hm). cbv zeta.
  destruct (where_eq RFM.pref_Customer_Email e _) as [|p ps] eqn:Ep.
  - left. destruct Hm as [Hm|[]]. subst m. subst r.
    split; [reflexivity|]. repeat split.
  - right. apply in_map_iff in Hm. destruct Hm as (p' & Hm & Hp).
    exists p'. rewrite <- Ep in Hp. apply filter_In in Hp.
    destruct Hp as [Hp Hk]. apply String.eqb_eq in Hk.
    split; [exact Hp|]. split; [exact Hk|].
    subst m. subst r. split; reflexivity.
Qed.

(** X22.  A customer without order lines leaves [process] with all the
    columns of preferences null, and with a null invoice flag whatever the
    payment methods of the orders are: the flag is merged onto the frame of
    the preferred categories, which has rows for the customers with order
    lines only. *)
Theorem preferences_need_order_lines (self : RFM.RFMProcessor)
        (st st' : RFM.store) (out : list RFM.RFMRecord)
        (items : list RFM.item_row) (r : RFM.RFMRecord) :
  RFM.process self st = (inr out, st') ->
  RFM.items_df st = RFM.Frame items ->
  In r out ->
  (forall i x, In i items -> RFM.customer_email i = Some x ->
               lower x <> RFM.Email r) ->
  RFM.Categoria_Preferida r = None
  /\ RFM.Marca_Preferida r = None
  /\ RFM.Producto_Favorito_SKU r = None
  /\ RFM.Producto_Favorito_Nombre r = None
  /\ RFM.Producto_Favorito_Qty r = None
  /\ RFM.Tiene_Factura_A r = None.
Proof.
  intros H Hi Hr N.
  destruct (process_success _ _ _ _ H)
    as (customers & orders & catalog & items' & -> & -> & _).
  injection Hi as ->.
  destruct (output_row_pref _ _ _ _ _ _ Hr) as [(_ & P)|(p & Hp & Ep & _)];
    [exact P|exfalso].
  destruct (preferences_row _ _ _ _ Hp) as [(l & Hl & El) _].
  assert (Hx : exists l, In l (RFM.item_lines (map RFM.normalize_item items)
                                              (map RFM.normalize_catalog catalog))
                         /\ RFM.line_Customer_Email l = RFM.Email r)
    by (exists l; split; [exact Hl|congruence]).
  apply item_lines_emails in Hx. destruct Hx as (i & x & Hin & Ex & Lx).
  apply in_map_iff in Hin. destruct Hin as (i0 & <- & Hin).
  apply (N i0 x Hin Ex Lx).
Qed.

Lemma preferences_need_order_lines_witness :
  RFM.Categoria_Preferida same_day_row = None
  /\ RFM.Tiene_Factura_A same_day_row = None.
Proof.
  destruct (preferences_need_order_lines
              example_processor same_day_store _ _ [] same_day_row
              (process_on_raw_frames example_processor same_day_customers
                 [same_day_order] [] [])
              eq_refl)
    as (C & _ & _ & _ & _ & T).
  - vm_compute. left. reflexivity.
  - intros i x [].
  - now split.
Defined.

Lemma existsb_kept self (p : cell string -> bool) (l : list RFM.raw_order) :
  (forall o, In o l -> eligible self o = true) ->
  existsb (fun o : RFM.order => p (RFM.Payment_Method o)) (flat_map kept l)
  = existsb (fun o : RFM.raw_order => p (RFM.Payment_Method o)) l.
Proof.
  induction l as [|o l IH]; intros H; [reflexivity|].
  cbn [flat_map existsb]. rewrite existsb_app, IH
    by (intros x Hx; apply H; now right).
  destruct (kept_eligible self o (H o (or_introl eq_refl))) as (d & _ & ->).
  cbn [existsb RFM.Payment_Method]. now rewrite orb_false_r.
Qed.

(** The filter on the year keeps the payment method of the rows it keeps. *)
Lemma eligible_rows_method self (orders : list RFM.raw_order) (x : RFM.order) :
  In x (eligible_rows self orders) ->
  exists o, In o orders /\ RFM.Payment_Method x = RFM.Payment_Method o.
Proof.
  induction orders as [|o os IH]; [intros []|].
  rewrite eligible_rows_cons. intros H. apply in_app_or in H.
  destruct H as [H|H].
  - destruct (eligible self o) eqn:E; [|destruct H].
    destruct (kept_eligible self o E) as (d & _ & K). rewrite K in H.
    destruct H as [<-|[]]. exists o. split; [now left|reflexivity].
  - destruct (IH H) as (o' & Ho' & Eo'). exists o'. split; [now right|exact Eo'].
Qed.

(** X23.  A customer with an order line leaves [process] with a preferred
    category.  When the orders frame has the column [Payment_Method], the
    customer's invoice flag is Sí when the payment method of one of its
    eligible orders holds the words factura a, in whatever case its letters
    are, and No otherwise; when the frame does not have the column, the
    flag is null. *)
Theorem invoice_flag_of_output (self : RFM.RFMProcessor)
        (st st' : RFM.store) (out : list RFM.RFMRecord)
        (orders : list RFM.raw_order) (items : list RFM.item_row)
        (r : RFM.RFMRecord) (i : RFM.item_row) (x : string) :
  RFM.process self st = (inr out, st') ->
  RFM.orders_df st = RFM.OrdersRaw orders ->
  RFM.items_df st = RFM.Frame items ->
  In r out ->
  In i items -> RFM.customer_email i = Some x -> lower x = RFM.Email r ->
  (exists category, RFM.Categoria_Preferida r = Some category)
  /\ ((forall o, In o orders -> RFM.Payment_Method o <> Missing) ->
      RFM.Tiene_Factura_A r
      = Some (if existsb
                   (fun o : RFM.raw_order =>
                      names_invoice_a (RFM.Payment_Method o))
                   (eligible_orders self orders (RFM.Email r))
              then "Sí" else "No"))
  /\ ((forall o, In o orders -> RFM.Payment_Method o = Missing) ->
      RFM.Tiene_Factura_A r = None).
Proof.
  intros H Ho Hi Hr Hin Ex Lx.
  destruct (process_success _ _ _ _ H)
    as (customers & orders' & catalog & items' & -> & -> & _).
  injection Ho as ->. injection Hi as ->.
  destruct (output_row_fields _ _ _ _ _ _ Hr)
    as (o & rest & W & Le & _).
  destruct (output_row_pref _ _ _ _ _ _ Hr)
    as [(E & _)|(p & Hp & Ep & Cp & Tp)].
  - exfalso.
    assert (Hx : exists l,
               In l (RFM.item_lines (map RFM.normalize_item items)
                                    (map RFM.normalize_catalog catalog))
               /\ RFM.line_Customer_Email l = RFM.Email r).
    { apply item_lines_emails. exists (RFM.normalize_item i), x.
      split; [now apply in_map|]. now split. }
    destruct Hx as (l & Hl & El).
    destruct (preferences_some _ (map RFM.normalize_catalog catalog)
                               (eligible_rows self orders) l Hl)
      as (p & Hp & Ep).
    assert (Hw : In p (where_eq RFM.pref_Customer_Email (RFM.Email r)
                         (RFM.merge_preferences
                            (RFM.item_lines (map RFM.normalize_item items)
                                            (map RFM.normalize_catalog catalog))
                            (map RFM.normalize_catalog catalog)
                            (eligible_rows self orders)))).
    { apply filter_In. split; [exact Hp|]. apply String.eqb_eq. congruence. }
    rewrite E in Hw. destruct Hw.
  - split; [eexists; exact Cp|]. rewrite Tp.
    destruct (preferences_row _ _ _ _ Hp) as [_ F]. rewrite Ep in F.
    split.
    + intros P.
      assert (P' : forall y, In y (eligible_rows self orders) ->
                             RFM.Payment_Method y <> Missing).
      { intros y Hy. destruct (eligible_rows_method _ _ _ Hy) as (o' & Ho' & ->).
        now apply P. }
      rewrite (detect_invoice_a_where _ _ P'), W in F.
      cbn [one_group map] in F.
      destruct F as [[F _]|(a & [<-|[]] & ->)]; [discriminate F|].
      cbn [snd]. f_equal.
      rewrite <- W, where_eligible_rows,
        (eligible_with_lower_email _ _ _ Le).
      rewrite (existsb_kept self names_invoice_a)
        by (apply eligible_orders_all).
      reflexivity.
    + intros P.
      assert (Ho : In o (eligible_rows self orders)).
      { assert (Hw : In o (where_eq RFM.by_email (RFM.Email r)
                             (eligible_rows self orders)))
          by (rewrite W; now left).
        apply filter_In in Hw. apply Hw. }
      rewrite detect_invoice_a_no_column in F.
      * destruct F as [[_ F]|(a & [] & _)]. exact F.
      * exists o. split; [exact Ho|].
        destruct (eligible_rows_method _ _ _ Ho) as (o' & Ho' & ->).
        now apply P.
Qed.

Lemma invoice_flag_of_output_witness :
  ((exists category, RFM.Categoria_Preferida example_row = Some category)
   /\ RFM.Tiene_Factura_A example_row = Some "Sí")
  /\ RFM.Tiene_Factura_A example_row_without_method = None.
Proof.
  split.
  - destruct (invoice_flag_of_output
                example_processor example_store _ _ example_orders
                example_items example_row
                (RFM.mkItem "100" (Some "ana@x.com") (Some "00123") (Some 3)
                            (Some 1000%Q))
                "ana@x.com"
                (process_on_raw_frames example_processor example_customers
                   example_orders example_catalog example_items)
                eq_refl eq_refl)
      as (C & T & _).
    + vm_compute. left. reflexivity.
    + now left.
    + reflexivity.
    + reflexivity.
    + split; [exact C|]. rewrite T; [reflexivity|].
      intros o [<-|[<-|[<-|[]]]]; discriminate.
  - destruct (invoice_flag_of_output
                example_processor
                (RFM.mkStore (RFM.Frame example_customers)
                             (RFM.OrdersRaw orders_without_method)
                             (RFM.Frame example_catalog)
                             (RFM.Frame example_items))
                _ _ orders_without_method
                example_items example_row_without_method
                (RFM.mkItem "100" (Some "ana@x.com") (Some "00123") (Some 3)
                            (Some 1000%Q))
                "ana@x.com"
                (process_on_raw_frames example_processor example_customers
                   orders_without_method example_catalog example_items)
                eq_refl eq_refl)
      as (_ & _ & T).
    + vm_compute. left. reflexivity.
    + now left.
    + reflexivity.
    + reflexivity.
    + apply T. intros o [<-|[<-|[<-|[]]]]; reflexivity.
Defined.

(** ** Dates read and written *)

Lemma digit_val_char (c : ascii) (v : Z) :
  digit_val c = Some v -> 0 <= v <= 9 /\ digit_char v = c.
Proof.
  destruct c as [[] [] [] [] [] [] [] []]; vm_compute; intros [= <-];
    split; try reflexivity; split; discriminate.
Qed.

Lemma number_of_two (a b : ascii) (n : Z) :
  number_of [a; b] = Some n ->
  exists va vb,
    digit_val a = Some va /\ digit_val b = Some vb /\ n = 10 * va + vb.
Proof.
  unfold number_of. cbn [fold_left].
  destruct (digit_val a) as [va|]; [|destruct (digit_val b); discriminate].
  destruct (digit_val b) as [vb|]; [|discriminate].
  intros E. exists va, vb. repeat split.
  assert (N : n = 10 * (10 * 0 + va) + vb) by congruence.
  lia.
Qed.

Lemma number_of_four (a b c d : ascii) (n : Z) :
  number_of [a; b; c; d] = Some n ->
  exists va vb vc vd,
    digit_val a = Some va /\ digit_val b = Some vb
    /\ digit_val c = Some vc /\ digit_val d = Some vd
    /\ n = 1000 * va + 100 * vb + 10 * vc + vd.
Proof.
  unfold number_of. cbn [fold_left].
  destruct (digit_val a) as [va|];
    [|destruct (digit_val b), (digit_val c), (digit_val d); discriminate].
  destruct (digit_val b) as [vb|];
    [|destruct (digit_val c), (digit_val d); discriminate].
  destruct (digit_val c) as [vc|]; [|destruct (digit_val d); discriminate].
  destruct (digit_val d) as [vd|]; [|discriminate].
  intros E. exists va, vb, vc, vd. repeat split.
  assert (N : n = 10 * (10 * (10 * (10 * 0 + va) + vb) + vc) + vd)
    by congruence.
  lia.
Qed.

Lemma two_digits_chars (a b : ascii) (va vb : Z) :
  digit_val a = Some va -> digit_val b = Some vb ->
  two_digits (10 * va + vb) = String a (String b EmptyString).
Proof.
  intros Ha Hb. destruct (digit_val_char a va Ha) as [Ra <-].
  destruct (digit_val_char b vb Hb) as [Rb <-]. unfold two_digits.
  replace ((10 * va + vb) / 10) with va
    by (apply (Z.div_unique _ 10 va vb); lia).
  replace ((10 * va + vb) mod 10) with vb
    by (apply (Z.mod_unique _ 10 va vb); lia).
  reflexivity.
Qed.

(** The digits of the numbers of four digits, checked one by one. *)
Lemma digits_of_years :
  forallb
    (fun n =>
       let y := Z.of_nat n in
       String.eqb
         (digits y)
         (String (digit_char (y / 1000))
            (String (digit_char (y / 100 mod 10))
               (String (digit_char (y / 10 mod 10))
                  (String (digit_char (y mod 10)) EmptyString)))))
    (seq (Z.to_nat 1000) (Z.to_nat 9000))
  = true.
Proof. vm_compute. reflexivity. Qed.

Lemma digits_four (a b c d : ascii) (va vb vc vd : Z) :
  digit_val a = Some va -> digit_val b = Some vb ->
  digit_val c = Some vc -> digit_val d = Some vd ->
  1000 <= 1000 * va + 100 * vb + 10 * vc + vd ->
  digits (1000 * va + 100 * vb + 10 * vc + vd)
  = String a (String b (String c (String d EmptyString))).
Proof.
  intros Ha Hb Hc Hd Hy.
  destruct (digit_val_char a va Ha) as [Ra <-].
  destruct (digit_val_char b vb Hb) as [Rb <-].
  destruct (digit_val_char c vc Hc) as [Rc <-].
  destruct (digit_val_char d vd Hd) as [Rd <-].
  set (y := 1000 * va + 100 * vb + 10 * vc + vd) in *.
  assert (Yb : 1000 <= y <= 9999) by (unfold y; lia).
  pose proof digits_of_years as F. rewrite forallb_forall in F.
  specialize (F (Z.to_nat y)). cbv zeta in F.
  rewrite Z2Nat.id in F by lia.
  rewrite (proj1 (String.eqb_eq _ _) (F ltac:(apply in_seq; lia))).
  assert (E1 : y / 1000 = va)
    by (symmetry; apply (Z.div_unique _ 1000 va (100 * vb + 10 * vc + vd));
        subst y; lia).
  assert (E2 : y / 100 = 10 * va + vb)
    by (symmetry; apply (Z.div_unique _ 100 _ (10 * vc + vd)); subst y; lia).
  assert (E3 : y / 10 = 100 * va + 10 * vb + vc)
    by (symmetry; apply (Z.div_unique _ 10 _ vd); subst y; lia).
  assert (E4 : y mod 10 = vd)
    by (symmetry; apply (Z.mod_unique _ 10 (100 * va + 10 * vb + vc) vd);
        subst y; lia).
  rewrite E1, E2, E3, E4.
  replace ((10 * va + vb) mod 10) with vb
    by (apply (Z.mod_unique _ 10 va vb); lia).
  replace ((100 * va + 10 * vb + vc) mod 10) with vc
    by (apply (Z.mod_unique _ 10 (10 * va + vb) vc); lia).
  reflexivity.
Qed.

Lemma string_of_chars (s : string) (l : list ascii) :
  list_ascii_of_string s = l -> s = string_of_list_ascii l.
Proof. intros <-. now rewrite string_of_list_ascii_of_string. Qed.

(** X24.  A date text of the form YYYY-MM-DD, with or without a time
    after a space, that [_clean_data] reads as a day of a year of four
    digits is written by [format_date_to_dmy] as DD/MM/YYYY with the same
    digits; a cell that is not a date is written as N/A. *)
Theorem format_date_round_trip (s : string) (d : date) :
  to_datetime (Some s) = Some d ->
  1000 <= year d ->
  exists yyyy mm dd rest,
    s = yyyy ++ "-" ++ mm ++ "-" ++ dd ++ rest
    /\ String.length yyyy = 4%nat /\ String.length mm = 2%nat
    /\ String.length dd = 2%nat
    /\ format_date_to_dmy (to_datetime (Some s)) = dd ++ "/" ++ mm ++ "/" ++ yyyy
    /\ format_date_to_dmy (to_datetime None) = "N/A".
Proof.
  intros H Hy. rewrite H. unfold to_datetime in H.
  destruct (split_first " " s) as [l r] eqn:Sp. cbn [fst] in H.
  pose proof (split_first_spec _ _ _ _ Sp) as Es.
  unfold parse_ymd in H.
  destruct (list_ascii_of_string l)
    as [|y1 [|y2 [|y3 [|y4 [|s1 [|m1 [|m2 [|s2 [|d1 [|d2 [|x xs]]]]]]]]]]]
         eqn:El;
    try discriminate H.
  apply string_of_chars in El. cbn [string_of_list_ascii] in El.
  destruct (Ascii.eqb_spec s1 "-") as [->|]; [|discriminate H].
  destruct (Ascii.eqb_spec s2 "-") as [->|]; [|discriminate H].
  cbn [andb] in H.
  destruct (number_of [y1; y2; y3; y4]) as [y|] eqn:Ny; [|discriminate H].
  destruct (number_of [m1; m2]) as [m|] eqn:Nm; [|discriminate H].
  destruct (number_of [d1; d2]) as [dd|] eqn:Nd; [|discriminate H].
  destruct ((1 <=? m) && (m <=? 12) && (1 <=? dd)
            && (dd <=? days_in_month y m))%bool; [|discriminate H].
  injection H as <-. cbn [year] in Hy.
  destruct (number_of_four _ _ _ _ _ Ny)
    as (v1 & v2 & v3 & v4 & H1 & H2 & H3 & H4 & ->).
  destruct (number_of_two _ _ _ Nm) as (u1 & u2 & G1 & G2 & ->).
  destruct (number_of_two _ _ _ Nd) as (w1 & w2 & K1 & K2 & ->).
  exists (String y1 (String y2 (String y3 (String y4 EmptyString)))),
         (String m1 (String m2 EmptyString)),
         (String d1 (String d2 EmptyString)),
         (match r with Some t => String " " t | None => EmptyString end).
  split; [rewrite Es, El; reflexivity|].
  repeat (split; [reflexivity|]). split; [|reflexivity].
  unfold format_date_to_dmy. cbn [day month year].
  rewrite (two_digits_chars _ _ _ _ K1 K2), (two_digits_chars _ _ _ _ G1 G2),
    (digits_four _ _ _ _ _ _ _ _ H1 H2 H3 H4 Hy).
  reflexivity.
Qed.

Lemma format_date_round_trip_witness :
  format_date_to_dmy (to_datetime (Some "2024-03-01 10:00:00")) = "01/03/2024".
Proof.
  destruct (format_date_round_trip "2024-03-01 10:00:00" (mkDate 2024 3 1)
              eq_refl ltac:(cbn; lia))
    as (yyyy & mm & dd & rest & _ & _ & _ & _ & F & _).
  reflexivity.
Defined.

(** ** What [process] writes into the frames of its caller *)

Lemma zfill_wide (width : nat) (s : string) :
  (width <= String.length (zfill width s))%nat.
Proof.
  unfold zfill. destruct (Nat.leb_spec width (String.length s)) as [L|L];
    [exact L|].
  destruct s as [|c rest]; [now rewrite length_zeros|].
  destruct (Ascii.eqb c "+" || Ascii.eqb c "-");
    cbn [String.length]; rewrite length_append, length_zeros;
    cbn [String.length] in *; lia.
Qed.

Lemma absent_zeros (a : ascii) (n : nat) :
  Ascii.eqb "0" a = false -> absent a (zeros n) = true.
Proof.
  intros H. induction n as [|n IH]; [reflexivity|].
  unfold absent in *. cbn [zeros all_chars]. now rewrite H, IH.
Qed.

Lemma zfill_absent_space (width : nat) (s : string) :
  absent " " s = true -> absent " " (zfill width s) = true.
Proof.
  intros H. unfold zfill. destruct (width <=? String.length s)%nat; [exact H|].
  destruct s as [|c rest]; [now apply absent_zeros|].
  unfold absent in *. cbn [all_chars] in H.
  apply andb_prop in H. destruct H as [Hc Hr].
  pose proof (absent_zeros " " (width - String.length (String c rest))
                eq_refl) as Z.
  unfold absent in Z.
  destruct (Ascii.eqb c "+" || Ascii.eqb c "-").
  - cbn [all_chars]. now rewrite Hc, all_chars_append, Z, Hr.
  - rewrite all_chars_append, Z. cbn [all_chars]. now rewrite Hc, Hr.
Qed.

(** The SKU that [process] writes: at least five characters wide, without
    a space, and all digits when the cleaned SKU is numeric. *)
Lemma written_sku_shape (s : string) :
  (5 <= String.length (zfill 5 (cleaned_sku s)))%nat
  /\ absent " " (zfill 5 (cleaned_sku s)) = true
  /\ (isdigit (cleaned_sku s) = true ->
      all_digits (zfill 5 (cleaned_sku s)) = true).
Proof.
  split; [apply zfill_wide|]. split.
  - apply zfill_absent_space, replace_space_absent.
  - intros D. rewrite (zfill_digits (cleaned_sku s) D).
    rewrite all_digits_all_chars, all_chars_append,
      <- !all_digits_all_chars, all_digits_zeros.
    now apply isdigit_all_digits.
Qed.

(** C10.  [process] leaves the caller's customers frame as it was, also
    when it raises.  When it returns, the caller's store has changed: in
    every row of the orders frame the column Customer Email holds the text
    of the cell in lower case, Purchase Date the parsed day and Grand Total
    the number, zero for an empty cell; in every row of the items frame and
    of the catalog frame the column [sku] holds the text of the cell
    without the whitespace at its ends and without spaces, padded with
    zeros on the left to five characters.  The other columns and the rows
    are the same.  The e-mail written is in lower case, and the SKU written
    has at least five characters and no space. *)
Theorem process_rewrites_inputs (self : RFM.RFMProcessor) (st : RFM.store) :
  RFM.customers_df (snd (RFM.process self st)) = RFM.customers_df st
  /\ (forall out st',
        RFM.process self st = (inr out, st') ->
        st' <> st
        /\ exists customers orders catalog items,
            st = RFM.mkStore (RFM.Frame customers) (RFM.OrdersRaw orders)
                             (RFM.Frame catalog) (RFM.Frame items)
            /\ st'
               = RFM.mkStore
                   (RFM.Frame customers)
                   (RFM.OrdersClean
                      (map (fun o : RFM.raw_order =>
                              RFM.mkOrder
                                (RFM.ID o)
                                (lower (str_of_cell (RFM.Customer_Email o)))
                                (to_datetime (RFM.Purchase_Date o))
                                (grand_total o)
                                (RFM.Status o) (RFM.Payment_Method o))
                           orders))
                   (RFM.Frame
                      (map (fun c =>
                              RFM.mkCatalog
                                (Some (zfill 5 (cleaned_sku
                                                  (str_of_cell
                                                     (RFM.catalog_sku c)))))
                                (RFM.categories c) (RFM.brand c)
                                (RFM.product_name c))
                           catalog))
                   (RFM.Frame
                      (map (fun i =>
                              RFM.mkItem
                                (RFM.order_id i) (RFM.customer_email i)
                                (Some (zfill 5 (cleaned_sku
                                                  (str_of_cell (RFM.sku i)))))
                                (RFM.qty_ordered i) (RFM.row_total i))
                           items)))
  /\ (forall s : string,
        lower (lower s) = lower s
        /\ (5 <= String.length (zfill 5 (cleaned_sku s)))%nat
        /\ absent " " (zfill 5 (cleaned_sku s)) = true).
Proof.
  split; [|split].
  - destruct st as [[|customers] [|orders|cleaned] [|catalog] [|items]];
      unfold_process; reflexivity.
  - intros out st' H.
    destruct (process_success _ _ _ _ H)
      as (customers & orders & catalog & items & -> & _ & ->).
    split; [discriminate|].
    exists customers, orders, catalog, items. split; reflexivity.
  - intros s. split; [apply lower_idempotent|].
    destruct (written_sku_shape s) as (W & A & _). now split.
Qed.

Lemma process_rewrites_inputs_witness :
  snd (RFM.process example_processor raw_cells_store)
  = RFM.mkStore
      (RFM.Frame example_customers)
      (RFM.OrdersClean
         [RFM.mkOrder "101" "ana@x.com" (Some (mkDate 2024 4 1)) 0%Q
                      (Some "processing") (Val "Tarjeta")])
      (RFM.Frame
         [RFM.mkCatalog (Some "00123") (Some "Root/Pisos/Porcelanato")
                        (Some "Acme") (Some "Porcelanato 60x60")])
      (RFM.Frame
         [RFM.mkItem "101" (Some "ana@x.com") (Some "00123") (Some 3)
                     (Some 1000%Q)])
  /\ snd (RFM.process example_processor raw_cells_store) <> raw_cells_store
  /\ RFM.customers_df (snd (RFM.process example_processor raw_cells_store))
     = RFM.customers_df raw_cells_store.
Proof.
  pose proof (process_rewrites_inputs example_processor raw_cells_store)
    as (C & W & _).
  unfold raw_cells_store in W |- *.
  pose proof (process_on_raw_frames
                example_processor example_customers
                [RFM.mkOrder "101" (Some "ANA@x.com")
                             (Some "2024-04-01 09:30:00") None
                             (Some "processing") (Val "Tarjeta")]
                [RFM.mkCatalog (Some "123") (Some "Root/Pisos/Porcelanato")
                               (Some "Acme") (Some "Porcelanato 60x60")]
                [RFM.mkItem "101" (Some "ana@x.com") (Some " 1 23 ") (Some 3)
                            (Some 1000%Q)]) as P.
  destruct (W _ _ P) as (N & customers & orders & catalog & items & E & E').
  injection E as <- <- <- <-.
  rewrite P. cbn [snd] in *. split; [|split].
  - rewrite E'. vm_compute. reflexivity.
  - exact N.
  - reflexivity.
Defined.
